(** * CSV-to-record parser of the CSV to JSON convertor API

    A shallow embedding of [src/services/csvParser.js] (class [CSVParser]):
    [parseCSV], [parseCSVLine], [validateMandatoryFields],
    [createNestedObject], [setNestedProperty] and [parseValue], together with
    the parts of the JavaScript runtime these methods call
    ([String.prototype.trim], [split], [slice], [Number], [parseFloat],
    [parseInt], [isNaN], the [in] operator and property assignment).

    Further, [parseCSVFile] over what the reading of the file gives, and of
    the user service that consumes the records: [transformUserData],
    [bulkInsertUsers] over an abstract database, and the counting loop of
    [calculateAgeDistribution].

    Strings are sequences of UTF-16 code units, numbers are IEEE 754 binary64
    values, records are finite maps from strings to values. *)

From Stdlib Require Import ZArith NArith List String Ascii Lia.
From Stdlib Require Import Floats.SpecFloat.
From stdpp Require Import gmap list.

Local Open Scope N_scope.

(** ** Strings of the runtime *)

Module JS.

(** A string is the list of its UTF-16 code units. *)
Abbreviation jstring := (list N).

(** Literals are written as ASCII texts. *)
Definition str (s : string) : jstring := map N_of_ascii (list_ascii_of_string s).

Definition DQUOTE : N := 34.
Definition SQUOTE : N := 39.
Definition COMMA : N := 44.
Definition DOT : N := 46.
Definition NEWLINE : N := 10.

(** WhiteSpace and LineTerminator code points: the characters removed by
    [trim], and skipped by [Number], [parseFloat] and [parseInt]. *)
Definition isWhiteSpace (c : N) : bool :=
  (c =? 9) || (c =? 10) || (c =? 11) || (c =? 12) || (c =? 13) || (c =? 32)
  || (c =? 160) || (c =? 5760) || ((8192 <=? c) && (c <=? 8202))
  || (c =? 8232) || (c =? 8233) || (c =? 8239) || (c =? 8287)
  || (c =? 12288) || (c =? 65279).

Fixpoint trimStart (s : jstring) : jstring :=
  match s with
  | c :: s' => if isWhiteSpace c then trimStart s' else s
  | [] => []
  end.

Definition trimEnd (s : jstring) : jstring := rev (trimStart (rev s)).

Definition trim (s : jstring) : jstring := trimEnd (trimStart s).

(** [s.split(sep)] for a separator of one code unit: at least one piece. *)
Fixpoint split (sep : N) (s : jstring) : list jstring :=
  match s with
  | [] => [[]]
  | c :: s' =>
      if c =? sep then [] :: split sep s'
      else match split sep s' with
           | piece :: pieces => (c :: piece) :: pieces
           | [] => [[c]]
           end
  end.

(** [pieces.join(sep)] *)
Fixpoint join (sep : jstring) (pieces : list jstring) : jstring :=
  match pieces with
  | [] => []
  | [p] => p
  | p :: ps => p ++ sep ++ join sep ps
  end.

(** [s.startsWith(c)] and [s.endsWith(c)] for a one-unit search string. *)
Definition startsWith (s : jstring) (c : N) : bool :=
  match s with
  | c' :: _ => c' =? c
  | [] => false
  end.

Definition endsWith (s : jstring) (c : N) : bool :=
  match last s with
  | Some c' => c' =? c
  | None => false
  end.

(** [s.slice(start, end)]: negative indices count from the end, both are
    clamped to the string, an empty range gives the empty string. *)
Definition slice (s : jstring) (start end_ : Z) : jstring :=
  let len := Z.of_nat (length s) in
  let from := if (start <? 0)%Z then Z.max (len + start) 0 else Z.min start len in
  let to := if (end_ <? 0)%Z then Z.max (len + end_) 0 else Z.min end_ len in
  take (Z.to_nat (to - from)) (drop (Z.to_nat from) s).

(** [s.toLowerCase()]. The source only compares the result with ['true'] and
    ['false']. ASCII units are mapped as the runtime maps them; the Kelvin
    sign becomes [k]; the image of any other unit contains a non-ASCII unit,
    so the comparison fails on it, as it does here where the unit is left in
    place. *)
Definition lowerUnit (c : N) : N :=
  if (65 <=? c) && (c <=? 90) then c + 32
  else if c =? 8490 then 107
  else c.

Definition toLowerCase (s : jstring) : jstring := map lowerUnit s.

(** [a.includes(x)] on an array of strings. *)
Definition includes (a : list jstring) (x : jstring) : bool :=
  bool_decide (x ∈ a).

(** ** Numbers of the runtime: IEEE 754 binary64 *)

Abbreviation number := spec_float.

Definition prec : Z := 53.
Definition emax : Z := 1024.

(** The Number value of the integer [z]. *)
Definition ofZ (z : Z) : number := binary_normalize prec emax z 0 false.

(** The Number value of [(-1)^neg * m * 10^e] for [0 <= m]: the nearest
    binary64 value, ties to even; zero keeps the sign of the literal. (Past
    twenty significant digits the runtime may round the literal in decimal
    first; here every digit counts.) *)
Definition roundDecimal (neg : bool) (m e : Z) : number :=
  match m with
  | Zpos _ =>
      if (0 <=? e)%Z then
        binary_normalize prec emax (cond_Zopp neg (m * 10 ^ e)) 0 neg
      else
        let '(q, e', l) := SFdiv_core_binary prec emax m 0 (10 ^ (- e)) 0 in
        binary_round_aux prec emax neg q e' l
  | _ => S754_zero neg
  end.

Definition isNaNnum (x : number) : bool :=
  match x with
  | S754_nan => true
  | _ => false
  end.

(** [x == y] on numbers: NaN equals nothing, [+0] equals [-0]. *)
Definition numEq (x y : number) : bool := SFeqb x y.

(** *** Numeric literals *)

Definition PLUS : N := 43.
Definition MINUS : N := 45.

Definition isDigit (c : N) : bool := (48 <=? c) && (c <=? 57).

(** The value of a digit [0-9], [a-z] or [A-Z]; 36 for any other unit. *)
Definition digitValue (c : N) : N :=
  if isDigit c then c - 48
  else if (97 <=? c) && (c <=? 122) then c - 87
  else if (65 <=? c) && (c <=? 90) then c - 55
  else 36.

Definition isRadixDigit (R : N) (c : N) : bool := digitValue c <? R.

Definition valueOfDigits (R : N) (ds : jstring) : Z :=
  fold_left (fun acc c => (acc * Z.of_N R + Z.of_N (digitValue c))%Z) ds 0%Z.

(** The longest prefix of units satisfying [p], and the rest. *)
Fixpoint span (p : N -> bool) (s : jstring) : jstring * jstring :=
  match s with
  | c :: s' =>
      if p c then let '(ds, rest) := span p s' in (c :: ds, rest)
      else ([], s)
  | [] => ([], [])
  end.

(** An optional sign: whether it is a minus, and the rest. *)
Definition scanSign (s : jstring) : bool * jstring :=
  match s with
  | c :: s' =>
      if c =? PLUS then (false, s')
      else if c =? MINUS then (true, s')
      else (false, s)
  | [] => (false, s)
  end.

(** ExponentPart, when one is there: [e] or [E], an optional sign and at
    least one digit. Gives the exponent (0 without ExponentPart) and the
    rest of the string. *)
Definition scanExponent (s : jstring) : Z * jstring :=
  match s with
  | c :: s1 =>
      if (c =? 101) || (c =? 69) then
        let '(neg, s2) := scanSign s1 in
        let '(ds, s3) := span isDigit s2 in
        match ds with
        | [] => (0%Z, s)
        | _ => (cond_Zopp neg (valueOfDigits 10 ds), s3)
        end
      else (0%Z, s)
  | [] => (0%Z, s)
  end.

Fixpoint isPrefix (p s : jstring) : bool :=
  match p, s with
  | [], _ => true
  | c :: p', c' :: s' => (c =? c') && isPrefix p' s'
  | _ :: _, [] => false
  end.

(** The longest prefix that is a StrUnsignedDecimalLiteral:
    [Infinity], [digits . digits? exp?], [. digits exp?] or [digits exp?]. *)
Definition scanUnsigned (neg : bool) (s : jstring) : option (number * jstring) :=
  if isPrefix (str "Infinity") s then Some (S754_infinity neg, drop 8 s)
  else
    let '(ip, s1) := span isDigit s in
    let nodot :=
      match ip with
      | [] => None
      | _ => let '(ex, s4) := scanExponent s1 in
             Some (roundDecimal neg (valueOfDigits 10 ip) ex, s4)
      end in
    match s1 with
    | c :: s2 =>
        if c =? DOT then
          let '(fp, s3) := span isDigit s2 in
          match ip ++ fp with
          | [] => None
          | ds => let '(ex, s4) := scanExponent s3 in
                  Some (roundDecimal neg (valueOfDigits 10 ds)
                          (ex - Z.of_nat (length fp)), s4)
          end
        else nodot
    | [] => nodot
    end.

(** The longest prefix that is a StrDecimalLiteral (an optional sign and a
    StrUnsignedDecimalLiteral), with its Number value. *)
Definition scanDecimal (s : jstring) : option (number * jstring) :=
  let '(neg, s') := scanSign s in
  scanUnsigned neg s'.

(** The radix announced by the second unit of [0x], [0o], [0b]. *)
Definition radixOfMark (c : N) : option N :=
  if (c =? 120) || (c =? 88) then Some 16
  else if (c =? 111) || (c =? 79) then Some 8
  else if (c =? 98) || (c =? 66) then Some 2
  else None.

(** NonDecimalIntegerLiteral: the whole string is [0x], [0o] or [0b]
    followed by at least one digit of the radix. *)
Definition scanNonDecimal (s : jstring) : option number :=
  match s with
  | c0 :: c1 :: ds =>
      if c0 =? 48 then
        match radixOfMark c1, ds with
        | Some R, _ :: _ =>
            if forallb (isRadixDigit R) ds then Some (ofZ (valueOfDigits R ds))
            else None
        | _, _ => None
        end
      else None
  | _ => None
  end.

(** [Number(s)], the conversion applied by [isNaN(s)] and by [n == s]:
    white space is trimmed at both ends, the empty string is [+0], and a
    string that is no StringNumericLiteral is NaN. *)
Definition ToNumber (s : jstring) : number :=
  match trim s with
  | [] => S754_zero false
  | t =>
      match scanDecimal t with
      | Some (x, []) => x
      | _ => match scanNonDecimal t with
             | Some x => x
             | None => S754_nan
             end
      end
  end.

(** [isNaN(s)] on a string. *)
Definition isNaN (s : jstring) : bool := isNaNnum (ToNumber s).

(** [parseFloat(s)]: leading white space is skipped, the value of the
    longest prefix that is a StrDecimalLiteral, NaN when there is none. *)
Definition parseFloat (s : jstring) : number :=
  match scanDecimal (trimStart s) with
  | Some (x, _) => x
  | None => S754_nan
  end.

(** [parseInt(s)] without a radix: leading white space is skipped, then an
    optional sign, then [0x] or [0X] selects radix 16 (radix 10 otherwise);
    the value of the longest prefix of digits, NaN when there is none. *)
Definition parseInt (s : jstring) : number :=
  let '(neg, s1) := scanSign (trimStart s) in
  let '(R, s2) :=
    match s1 with
    | c0 :: c1 :: s' =>
        if (c0 =? 48) && ((c1 =? 120) || (c1 =? 88)) then (16, s')
        else (10, s1)
    | _ => (10, s1)
    end in
  match fst (span (isRadixDigit R) s2) with
  | [] => S754_nan
  | ds => binary_normalize prec emax (cond_Zopp neg (valueOfDigits R ds)) 0 neg
  end.

(** [n == s] for a number and a string: the string is converted first. *)
Definition looseEq (n : number) (s : jstring) : bool := numEq n (ToNumber s).

End JS.

(** ** Values, records and completions *)

Import JS.

(** What [parseValue] returns and what a record holds: a number, a boolean,
    a string, or a nested record. A record is an object literal [{}] filled
    by assignments; only its own properties are stored. *)
#[warnings="-register-all"]
Inductive jsval :=
| VNum (x : number)
| VBool (b : bool)
| VStr (s : jstring)
| VObj (o : gmap jstring jsval).

Abbreviation record := (gmap jstring jsval).

(** What is thrown: [new Error(message)] by the parser itself, a TypeError
    by the runtime. *)
Inductive exn :=
| Error (message : jstring)
| TypeError.

(** How a call ends. [Escaped] is a call whose assignment went through an
    inherited property to a built-in object of the realm; such objects are
    not represented. The code then writes outside the record and returns, or
    throws a TypeError, as the built-in object has it: [Escaped] says
    neither. *)
Inductive completion (A : Type) :=
| Return (a : A)
| Throw (e : exn)
| Escaped.

Arguments Return {A} a.
Arguments Throw {A} e.
Arguments Escaped {A}.

Definition bind {A B} (c : completion A) (k : A -> completion B) : completion B :=
  match c with
  | Return a => k a
  | Throw e => Throw e
  | Escaped => Escaped
  end.

Notation "'let*' x ':=' c 'in' k" := (bind c (fun x => k))
  (at level 10, x name, c at level 100, k at level 200).

(** The lines written to the console. *)
Inductive consoleLine :=
| Warn (row : nat)          (* Skipping row <row>: Column count mismatch *)
| ErrorLine (e : exn).      (* Error parsing CSV: <message> *)

(** ** The parser *)

Module CSVParser.

(** [parseCSVLine(line)]: [line] is the part of the line from index [i] on,
    [values], [current] and [inQuotes] are the variables of the loop. *)
Fixpoint parseCSVLine_loop (line : jstring) (values : list jstring)
    (current : jstring) (inQuotes : bool) : list jstring :=
  match line with
  | [] => values ++ [trim current]
  | char :: rest =>
      if char =? DQUOTE then
        match rest with
        | nextChar :: rest' =>
            if inQuotes && (nextChar =? DQUOTE)
            then parseCSVLine_loop rest' values (current ++ [DQUOTE]) inQuotes
            else parseCSVLine_loop rest values current (negb inQuotes)
        | [] => parseCSVLine_loop rest values current (negb inQuotes)
        end
      else if (char =? COMMA) && negb inQuotes
      then parseCSVLine_loop rest (values ++ [trim current]) [] inQuotes
      else parseCSVLine_loop rest values (current ++ [char]) inQuotes
  end.

Definition parseCSVLine (line : jstring) : list jstring :=
  parseCSVLine_loop line [] [] false.

Definition mandatoryFields : list jstring :=
  [str "name.firstName"; str "name.lastName"; str "age"].

(** [mandatoryFields.filter(field => !headers.includes(field))] *)
Definition missingFields (headers : list jstring) : list jstring :=
  filter (fun field => negb (includes headers field) = true) mandatoryFields.

Definition ValidationError (missing : list jstring) : exn :=
  Error (str "Missing mandatory fields: " ++ join (str ", ") missing).

Definition validateMandatoryFields (headers : list jstring) : completion unit :=
  if (0 <? length (missingFields headers))%nat
  then Throw (ValidationError (missingFields headers))
  else Return tt.

(** The first statement of [parseValue]: remove quotes if present. *)
Definition wrapped (value : jstring) : bool :=
  (startsWith value DQUOTE && endsWith value DQUOTE)
  || (startsWith value SQUOTE && endsWith value SQUOTE).

Definition unquote (value : jstring) : jstring :=
  if wrapped value then slice value 1 (-1) else value.

(** The test of the number branch, on the unquoted value. *)
Definition numeric (value : jstring) : bool :=
  negb (isNaN value) && negb (isNaNnum (parseFloat value)).

(** The statements of [parseValue] after the quotes are removed. *)
Definition typed (value : jstring) : jsval :=
  if numeric value then
    VNum (if looseEq (parseInt value) value then parseInt value
          else parseFloat value)
  else if bool_decide (toLowerCase value = str "true") then VBool true
  else if bool_decide (toLowerCase value = str "false") then VBool false
  else VStr value.

Definition parseValue (value : jstring) : jsval :=
  let value := unquote value in
  typed value.

(** The names every object literal inherits from [Object.prototype]. *)
Definition inheritedNames : list jstring :=
  [str "constructor"; str "__defineGetter__"; str "__defineSetter__";
   str "hasOwnProperty"; str "__lookupGetter__"; str "__lookupSetter__";
   str "isPrototypeOf"; str "propertyIsEnumerable"; str "toString";
   str "valueOf"; str "__proto__"; str "toLocaleString"].

Definition PROTO : jstring := str "__proto__".

(** [current[finalKey] = v] on a record. Assigning a primitive to
    [__proto__] runs the inherited setter, which ignores it. *)
Definition assignFinal (current : record) (finalKey : jstring) (v : jsval)
    : record :=
  if bool_decide (finalKey = PROTO) then current else <[finalKey := v]> current.

(** The walk of [setNestedProperty] from [current]: [keys] are the keys still
    to be navigated, then [finalKey] is assigned. The result is the updated
    [current]. A key found as an own property leads to its value; in strict
    code (a class body is strict) [key in current] on a primitive, and a
    property assignment on a primitive other than through the [__proto__]
    setter, throw a TypeError. A key that is not an own property but is
    inherited leads to a built-in object. *)
Fixpoint walk (current : record) (keys : list jstring) (finalKey : jstring)
    (v : jsval) : completion record :=
  match keys with
  | [] => Return (assignFinal current finalKey v)
  | key :: keys' =>
      match current !! key with
      | None =>
          if includes inheritedNames key then Escaped
          else let* child := walk ∅ keys' finalKey v in
               Return (<[key := VObj child]> current)
      | Some (VObj o) =>
          let* child := walk o keys' finalKey v in
          Return (<[key := VObj child]> current)
      | Some _ =>
          match keys' with
          | [] => if bool_decide (finalKey = PROTO) then Return current
                  else Throw TypeError
          | _ :: _ => Throw TypeError
          end
      end
  end.

(** [keys.slice(0, -1)] and [keys[keys.length - 1]] of a non-empty array. *)
Definition setNestedProperty (obj : record) (path value : jstring)
    : completion record :=
  let keys := split DOT path in
  match last keys with
  | Some finalKey => walk obj (removelast keys) finalKey (parseValue value)
  | None => Return obj
  end.

(** The loop of [createNestedObject]; [values[i]] is undefined past the end
    of [values], and [undefined.trim()] throws. *)
Fixpoint createNestedObject_loop (result : record) (headers values : list jstring)
    : completion record :=
  match headers with
  | [] => Return result
  | header :: headers' =>
      match values with
      | [] => Throw TypeError
      | v :: values' =>
          let key := trim header in
          let value := trim v in
          match key, value with
          | _ :: _, _ :: _ =>
              let* result' := setNestedProperty result key value in
              createNestedObject_loop result' headers' values'
          | _, _ => createNestedObject_loop result headers' values'
          end
      end
  end.

Definition createNestedObject (headers values : list jstring) : completion record :=
  createNestedObject_loop ∅ headers values.

Definition FormatError : exn :=
  Error (str "CSV must have at least header and one data row").

(** [csvContent.split('\n').filter(line => line.trim())] *)
Definition nonEmptyLines (csvContent : jstring) : list jstring :=
  filter (fun line => trim line <> []) (split NEWLINE csvContent).

(** The loop over the data rows: [lines] are [lines[i..]], [jsonData] and
    [console] are the records and the console lines so far. *)
Fixpoint parseCSV_loop (headers : list jstring) (i : nat) (lines : list jstring)
    (jsonData : list record) (console : list consoleLine)
    : completion (list record) * list consoleLine :=
  match lines with
  | [] => (Return jsonData, console)
  | line :: lines' =>
      let values := parseCSVLine line in
      if negb (length values =? length headers)%nat then
        parseCSV_loop headers (S i) lines' jsonData (console ++ [Warn (i + 1)])
      else
        match createNestedObject headers values with
        | Return jsonObject =>
            parseCSV_loop headers (S i) lines' (jsonData ++ [jsonObject]) console
        | Throw e => (Throw e, console)
        | Escaped => (Escaped, console)
        end
  end.

(** The body of the [try] block. *)
Definition parseCSV_try (csvContent : jstring)
    : completion (list record) * list consoleLine :=
  let lines := nonEmptyLines csvContent in
  if (length lines <? 2)%nat then (Throw FormatError, [])
  else
    match lines with
    | [] => (Throw TypeError, [])
    | line0 :: rows =>
        let headers := parseCSVLine line0 in
        match validateMandatoryFields headers with
        | Return _ => parseCSV_loop headers 1 rows [] []
        | Throw e => (Throw e, [])
        | Escaped => (Escaped, [])
        end
    end.

(** [parseCSV(csvContent)]: the [catch] block logs the error and throws it
    again. The result is the completion and the console output. *)
Definition parseCSV (csvContent : jstring)
    : completion (list record) * list consoleLine :=
  match parseCSV_try csvContent with
  | (Throw e, console) => (Throw e, console ++ [ErrorLine e])
  | r => r
  end.

End CSVParser.

(** ** The parser, from a file *)

(** The console of [parseCSVFile]: the lines of [parseCSV] and its own. *)
Inductive fileConsoleLine :=
| ParseLine (line : consoleLine)
| FileErrorLine (e : exn).    (* Error reading CSV file: <message> *)

(** [parseCSVFile(filePath)]. The file system is not represented: [read] is
    what [fs.readFile(filePath, 'utf-8')] gives, the decoded content or the
    error that it throws. The [catch] block logs whatever the [try] block
    throws, an error of the parse as well, and throws it again. *)
Definition parseCSVFile (read : jstring + exn)
    : completion (list record) * list fileConsoleLine :=
  match read with
  | inl csvContent =>
      match CSVParser.parseCSV csvContent with
      | (Throw e, console) =>
          (Throw e, map ParseLine console ++ [FileErrorLine e])
      | (c, console) => (c, map ParseLine console)
      end
  | inr e => (Throw e, [FileErrorLine e])
  end.

(** ** The user service *)

Module UserService.
Import CSVParser.

(** What [transformUserData] builds for a record; [None] is [null]. *)
Record user := {
  name : jstring;
  age : number;
  address : option jsval;
  additional_info : option record
}.

(** ToBoolean: zero, NaN, the empty string and [false] are falsy. *)
Definition truthy (v : jsval) : bool :=
  match v with
  | VNum (S754_zero _) | VNum S754_nan => false
  | VNum _ => true
  | VBool b => b
  | VStr s => negb (bool_decide (s = []))
  | VObj _ => true
  end.

(** [v || d], for [v] possibly undefined. *)
Definition orElse (v : option jsval) (d : jsval) : jsval :=
  match v with
  | Some x => if truthy x then x else d
  | None => d
  end.

(** [v?.key] for a key that no prototype defines: an own property of an
    object, undefined on undefined and on a primitive. *)
Definition optionalGet (v : option jsval) (key : jstring) : option jsval :=
  match v with
  | Some (VObj o) => o !! key
  | _ => None
  end.

(** The keys that [transformUserData] keeps out of [additional_info]; an
    assignment to [__proto__] runs the inherited setter and adds no key. *)
Definition reserved : list jstring :=
  [str "name"; str "age"; str "address"; PROTO].

(** The integer that a number is, when it is one. *)
Definition integerValue (x : number) : option Z :=
  match x with
  | S754_zero _ => Some 0%Z
  | S754_finite s m e =>
      if (0 <=? e)%Z then Some (cond_Zopp s (Z.pos m * 2 ^ e))
      else if (Z.pos m mod 2 ^ (- e) =? 0)%Z
           then Some (cond_Zopp s (Z.pos m / 2 ^ (- e)))
           else None
  | _ => None
  end.

(** The decimal digits of [n], put before [acc]; [fuel] bounds their
    number. *)
Fixpoint decimalDigits (fuel : nat) (n : Z) (acc : jstring) : jstring :=
  match fuel with
  | O => acc
  | S fuel' =>
      let acc' := (48 + Z.to_N (n mod 10)) :: acc in
      if (n <? 10)%Z then acc' else decimalDigits fuel' (n / 10) acc'
  end.

(** The decimal text of a positive integer, which has no more decimal
    digits than binary ones. *)
Definition decimal (n : Z) : jstring :=
  decimalDigits (S (Z.to_nat (Z.log2 n))) n [].

Section NumberToString.

(** The text of a finite number that is no integer below [2^53] in absolute
    value (the shortest decimal that reads back as the number, in fixed or
    exponential notation) is left to the runtime. *)
Variable finiteToString : number -> jstring.

(** [Number::toString]: an integer below [2^53] is written with all its
    digits, after a minus sign when it is negative. *)
Definition numberToString (x : number) : jstring :=
  match x with
  | S754_nan => str "NaN"
  | S754_zero _ => str "0"
  | S754_infinity false => str "Infinity"
  | S754_infinity true => str "-Infinity"
  | S754_finite s _ _ =>
      match integerValue x with
      | Some z =>
          if (Z.abs z <? 2 ^ 53)%Z
          then (if s then [MINUS] else []) ++ decimal (Z.abs z)
          else finiteToString x
      | None => finiteToString x
      end
  end.

(** ToString, as applied by a template literal and by [parseInt]. A record
    is an ordinary object: its text comes from the inherited [toString],
    unless an own property of that name, which is no function, hides it;
    then the conversion throws. *)
Definition ToString (v : jsval) : completion jstring :=
  match v with
  | VStr s => Return s
  | VBool true => Return (str "true")
  | VBool false => Return (str "false")
  | VNum x => Return (numberToString x)
  | VObj o =>
      match o !! str "toString" with
      | Some _ => Throw TypeError
      | None => Return (str "[object Object]")
      end
  end.

(** The function mapped by [transformUserData] over the records. *)
Definition transformRecord (record : gmap jstring jsval) : completion user :=
  let firstName := orElse (optionalGet (record !! str "name") (str "firstName"))
                          (VStr []) in
  let lastName := orElse (optionalGet (record !! str "name") (str "lastName"))
                         (VStr []) in
  let* first := ToString firstName in
  let* last := ToString lastName in
  let name := trim (first ++ str " " ++ last) in
  let age := orElse (record !! str "age") (VNum (S754_zero false)) in
  let address := match record !! str "address" with
                 | Some v => if truthy v then Some v else None
                 | None => None
                 end in
  let additional_info : gmap jstring jsval :=
    filter (fun kv => kv.1 ∉ reserved) record in
  let* ageText := ToString age in
  Return {| name := name;
            age := parseInt ageText;
            address := address;
            additional_info := if decide (additional_info = ∅) then None
                               else Some additional_info |}.

Fixpoint transformUserData (jsonData : list (gmap jstring jsval))
    : completion (list user) :=
  match jsonData with
  | [] => Return []
  | record :: jsonData' =>
      let* u := transformRecord record in
      let* us := transformUserData jsonData' in
      Return (u :: us)
  end.

End NumberToString.

(** The summary that [bulkInsertUsers] returns. *)
Record summary := {
  total : nat;
  success : nat;
  errors : nat;
  errorDetails : list (jstring * jstring)
}.

Section BulkInsert.

(** The database is not part of the model: [insertUser] gives the next state
    of the database and, when the insertion throws, the message of the
    error. *)
Variable database : Type.
Variable insertUser : database -> user -> database * option jstring.

(** The loop of [bulkInsertUsers]. *)
Fixpoint bulkInsertUsers_loop (db : database) (userData : list user)
    (successCount errorCount : nat) (errors : list (jstring * jstring))
    : database * (nat * nat * list (jstring * jstring)) :=
  match userData with
  | [] => (db, (successCount, errorCount, errors))
  | u :: userData' =>
      match insertUser db u with
      | (db', None) =>
          bulkInsertUsers_loop db' userData' (S successCount) errorCount errors
      | (db', Some message) =>
          bulkInsertUsers_loop db' userData' successCount (S errorCount)
            (errors ++ [(name u, message)])
      end
  end.

Definition bulkInsertUsers (db : database) (userData : list user)
    : database * summary :=
  let '(db', (successCount, errorCount, errors)) :=
    bulkInsertUsers_loop db userData 0 0 [] in
  (db', {| total := length userData; success := successCount;
           errors := errorCount; errorDetails := errors |}).

End BulkInsert.

(** The counters of [calculateAgeDistribution]. *)
Record ageGroups := {
  under20 : nat;
  from20to40 : nat;
  from40to60 : nat;
  over60 : nat
}.

Definition numLt (x y : number) : bool := SFltb x y.
Definition numGe (x y : number) : bool := SFleb y x.

(** The [forEach] loop of [calculateAgeDistribution] over the ages of the
    users, which the column [age INT NOT NULL] makes numbers. *)
Definition countAge (groups : ageGroups) (age : number) : ageGroups :=
  if numLt age (ofZ 20) then
    {| under20 := S (under20 groups); from20to40 := from20to40 groups;
       from40to60 := from40to60 groups; over60 := over60 groups |}
  else if numGe age (ofZ 20) && numLt age (ofZ 40) then
    {| under20 := under20 groups; from20to40 := S (from20to40 groups);
       from40to60 := from40to60 groups; over60 := over60 groups |}
  else if numGe age (ofZ 40) && numLt age (ofZ 60) then
    {| under20 := under20 groups; from20to40 := from20to40 groups;
       from40to60 := S (from40to60 groups); over60 := over60 groups |}
  else
    {| under20 := under20 groups; from20to40 := from20to40 groups;
       from40to60 := from40to60 groups; over60 := S (over60 groups) |}.

Definition countAgeGroups (ages : list number) : ageGroups :=
  fold_left countAge ages
    {| under20 := 0; from20to40 := 0; from40to60 := 0; over60 := 0 |}.

End UserService.

(** ** Sample contents *)

Module Samples.
Import CSVParser.

(** A header line alone. *)
Definition headerOnly : jstring := str "name.firstName,name.lastName,age".

(** The header lacks [name.lastName]. *)
Definition missingLastName : jstring :=
  str "name.firstName,age" ++ [NEWLINE] ++ str "Rohit,35".

(** The header has an empty segment in the path of its fourth column. *)
Definition emptySegment : jstring :=
  str "name.firstName,name.lastName,age,a." ++ [NEWLINE] ++ str "Rohit,Prasad,35,2".

(** The path of the fourth column runs through [age], which holds a number. *)
Definition pathThroughScalar : jstring :=
  str "name.firstName,name.lastName,age,age.x" ++ [NEWLINE]
  ++ str "Rohit,Prasad,35,2".

Definition pathThroughScalar3 : jstring :=
  str "name.firstName,name.lastName,age,age.x.y" ++ [NEWLINE]
  ++ str "Rohit,Prasad,35,2".

(** The fourth header cell is empty, the fourth cell of the row is two
    single quotes. *)
Definition emptyHeaderCell : jstring :=
  str "name.firstName,name.lastName,age," ++ [NEWLINE]
  ++ str "Rohit,Prasad,35,''".

(** Two columns named [tag]; the first cell is two single quotes. *)
Definition duplicateColumn : jstring :=
  str "name.firstName,name.lastName,age,tag,tag" ++ [NEWLINE]
  ++ str "Rohit,Prasad,35,'',x".

(** The sample of the README, with one short row. *)
Definition readme : jstring :=
  str "name.firstName,name.lastName,age,address.line1,address.city,gender"
  ++ [NEWLINE] ++ str "Rohit,Prasad,35,A-563 Rakshak Society,Pune,male"
  ++ [NEWLINE] ++ str "Priya,Sharma"
  ++ [NEWLINE] ++ str "Priya,Sharma,28,B-101 Green Valley,Mumbai,female".

End Samples.

(** ** Notions of the statements *)

Import CSVParser.

(** The value found by reading own properties along [path], as in
    [record.a.b]. *)
Fixpoint getPath (v : jsval) (path : list jstring) : option jsval :=
  match path with
  | [] => Some v
  | key :: path' =>
      match v with
      | VObj o => match o !! key with
                  | Some v' => getPath v' path'
                  | None => None
                  end
      | _ => None
      end
  end.

Definition isPrimitive (v : jsval) : bool :=
  match v with
  | VObj _ => false
  | _ => true
  end.

(** The wrapping condition as the specification words it: first and last
    unit equal, a double or single quote, and at least two units. *)
Definition specWrapped (v : jstring) : bool :=
  (2 <=? length v)%nat
  && match head v, last v with
     | Some a, Some b => (a =? b) && ((a =? DQUOTE) || (a =? SQUOTE))
     | _, _ => false
     end.

(** *** Numeric literals, as grammars *)

Definition Digits (ds : jstring) : Prop := Forall (fun c => isDigit c = true) ds.

Definition Sign (sgn : jstring) : Prop := sgn = [] \/ sgn = [PLUS] \/ sgn = [MINUS].

(** [e] or [E], an optional sign, digits. *)
Definition ExponentPart (ex : jstring) : Prop :=
  exists e sgn ds,
    ex = e :: sgn ++ ds /\ (e = 101 \/ e = 69) /\ Sign sgn /\ ds <> [] /\ Digits ds.

(** Digits, an optional decimal point, an optional exponent; a digit on one
    side of the point at least. *)
Definition DecimalBody (u : jstring) : Prop :=
  exists ip frac ex,
    u = ip ++ frac ++ ex
    /\ Digits ip
    /\ (frac = [] /\ ip <> []
        \/ exists fp, frac = DOT :: fp /\ Digits fp /\ ip ++ fp <> [])
    /\ (ex = [] \/ ExponentPart ex).

(** The floating-point literals of the specification: an optional sign,
    digits, an optional decimal point, an optional exponent. *)
Definition FloatLiteral (v : jstring) : Prop :=
  exists sgn u, v = sgn ++ u /\ Sign sgn /\ DecimalBody u.

(** StrDecimalLiteral of the runtime: [Infinity] is one more body. *)
Definition StrDecimalLiteral (t : jstring) : Prop :=
  exists sgn u, t = sgn ++ u /\ Sign sgn /\ (u = str "Infinity" \/ DecimalBody u).

(** NonDecimalIntegerLiteral of the runtime: [0x], [0o] or [0b], in either
    case of the letter, and at least one digit of the radix; no sign. *)
Definition NonDecimalIntegerLiteral (t : jstring) : Prop :=
  exists mark R ds,
    t = 48 :: mark :: ds
    /\ (R = 16 /\ (mark = 120 \/ mark = 88)
        \/ R = 8 /\ (mark = 111 \/ mark = 79)
        \/ R = 2 /\ (mark = 98 \/ mark = 66))
    /\ ds <> []
    /\ Forall (fun c => isRadixDigit R c = true) ds.

(** The strings that [Number] converts to a number, the empty string apart. *)
Definition NumericLiteral (t : jstring) : Prop :=
  StrDecimalLiteral t \/ NonDecimalIntegerLiteral t.

(** *** Records and rows *)

(** A record has no empty key, at any depth, when no path that can be read
    in it holds the empty string. *)
Definition noEmptyKey (v : jsval) : Prop :=
  forall path x, getPath v path = Some x -> [] ∉ path.

(** The pairs after which a primitive read at [path] is still there: each is
    skipped, or its path is no prefix of [path]. *)
Definition harmless (path : list jstring) (header v : jstring) : Prop :=
  trim header = [] \/ trim v = [] \/ ~ split DOT (trim header) `prefix_of` path.

(** A path whose keys, the last apart, are names that an object literal does
    not inherit: [setNestedProperty] then walks own properties only and
    reaches no built-in object. *)
Definition plainPath (keys : list jstring) : Prop :=
  Forall (fun key => key ∉ inheritedNames) (removelast keys).

(** Every header of the row has a plain path. *)
Definition plainHeaders (headers : list jstring) : Prop :=
  Forall (fun header => plainPath (split DOT (trim header))) headers.

(** The row is kept: it has as many fields as the header. *)
Definition kept (headers : list jstring) (line : jstring) : Prop :=
  length (parseCSVLine line) = length headers.

#[local] Instance kept_dec headers line : Decision (kept headers line).
Proof. unfold kept. apply _. Defined.

(** [r] is the record built from the row. *)
Definition builds (headers : list jstring) (line : jstring) (r : record) : Prop :=
  createNestedObject headers (parseCSVLine line) = Return r.

(** *** Scanning *)

(** [rest] is empty or starts with a unit that [p] rejects. *)
Definition stopsAt (p : N -> bool) (rest : jstring) : Prop :=
  match rest with
  | c :: _ => p c = false
  | [] => True
  end.

(** Whether a StrUnsignedDecimalLiteral starts the string is seen on its
    first units. *)
Definition startsUnsigned (s : jstring) : bool :=
  isPrefix (str "Infinity") s
  || match s with
     | c :: rest =>
         isDigit c
         || ((c =? DOT) && match rest with
                           | d :: _ => isDigit d
                           | [] => false
                           end)
     | [] => false
     end.

(** The units of a floating-point literal. *)
Definition literalUnit (c : N) : Prop :=
  isDigit c = true \/ c = DOT \/ c = PLUS \/ c = MINUS \/ c = 101 \/ c = 69.

(** *** White space, lines and console *)

(** Every unit of [w] is white space. *)
Definition allWhiteSpace (w : jstring) : Prop :=
  Forall (fun c => isWhiteSpace c = true) w.

(** Two accumulators that trim alike, whatever is appended, give the same
    fields. *)
Definition sameOnceTrimmed (c1 c2 : jstring) : Prop :=
  forall s, trim (c1 ++ s) = trim (c2 ++ s).

(** Every newline becomes a carriage return and a newline, as in a file
    with CRLF line ends. *)
Definition withCR (csvContent : jstring) : jstring :=
  flat_map (fun c => if c =? NEWLINE then [13; NEWLINE] else [c]) csvContent.

(** The console lines for the rows that are dropped: the row at index [k]
    of the data rows is reported as row [k + 2]. *)
Definition droppedRows (headers : list jstring) (rows : list jstring)
    : list consoleLine :=
  omap id (imap (fun k line => if decide (kept headers line) then None
                               else Some (Warn (k + 2)%nat)) rows).

(** *** Integers *)

(** The number of a signed integer: the nearest binary64 value, and a zero
    that keeps the sign. *)
Definition signedInteger (neg : bool) (n : Z) : number :=
  binary_normalize prec emax (cond_Zopp neg n) 0 neg.

(** One more when [b] holds. *)
Definition bump (b : bool) (n : nat) : nat := if b then S n else n.

(** ** More sample contents *)

Module MoreSamples.

(** A header, a blank line, a short row and a full row. *)
Definition shortAndFull : jstring :=
  str "name.firstName,name.lastName,age" ++ [NEWLINE] ++ str "  "
  ++ [NEWLINE] ++ str "Priya,Sharma" ++ [NEWLINE] ++ str "Rohit,Prasad,35".

Definition rohit : record :=
  {[ str "name" := VObj {[ str "firstName" := VStr (str "Rohit");
                           str "lastName" := VStr (str "Prasad") ]};
     str "age" := VNum (ofZ 35) ]}.

(** The header lacks [name.firstName] and [name.lastName]. *)
Definition missingTwo : jstring :=
  str "age,city" ++ [NEWLINE] ++ str "35,Pune".

(** The samples hold integers only: their text does not depend on the text
    of the other numbers. *)
Definition anyText : number -> jstring := fun _ => [].

End MoreSamples.

(** * Properties *)

(** Membership in a closed list, decided by evaluation. *)
Ltac not_in_closed_list :=
  let H := fresh in
  intros H; apply list_elem_of_In in H; vm_compute in H; intuition discriminate.

(** Plain paths of closed headers, decided by evaluation. *)
Ltac plain_paths :=
  unfold plainHeaders, plainPath;
  repeat (apply Forall_cons_2 || apply Forall_nil_2 || (simpl; not_in_closed_list)).

(** ** The tokenizer *)

Section Tokenizer.

Variables (rest : jstring) (values : list jstring) (current : jstring).

Lemma loop_end (inQuotes : bool) :
  parseCSVLine_loop [] values current inQuotes = values ++ [trim current].
Proof. reflexivity. Qed.

Lemma loop_comma_outside :
  parseCSVLine_loop (COMMA :: rest) values current false
  = parseCSVLine_loop rest (values ++ [trim current]) [] false.
Proof. reflexivity. Qed.

Lemma loop_comma_inside :
  parseCSVLine_loop (COMMA :: rest) values current true
  = parseCSVLine_loop rest values (current ++ [COMMA]) true.
Proof. reflexivity. Qed.

Lemma loop_quote (c : N) (inQuotes : bool) :
  parseCSVLine_loop (DQUOTE :: c :: rest) values current inQuotes
  = if inQuotes && (c =? DQUOTE)
    then parseCSVLine_loop rest values (current ++ [DQUOTE]) inQuotes
    else parseCSVLine_loop (c :: rest) values current (negb inQuotes).
Proof. reflexivity. Qed.

Lemma loop_quote_last (inQuotes : bool) :
  parseCSVLine_loop [DQUOTE] values current inQuotes
  = parseCSVLine_loop [] values current (negb inQuotes).
Proof. reflexivity. Qed.

Lemma loop_other (c : N) (inQuotes : bool) :
  c <> DQUOTE -> c <> COMMA ->
  parseCSVLine_loop (c :: rest) values current inQuotes
  = parseCSVLine_loop rest values (current ++ [c]) inQuotes.
Proof.
  intros Hq Hc. simpl.
  destruct (N.eqb_spec c DQUOTE) as [|_]; [contradiction|].
  destruct (N.eqb_spec c COMMA) as [|_]; [contradiction|]. reflexivity.
Qed.

End Tokenizer.

(** The tokenizer always returns at least one field. *)
Lemma parseCSVLine_loop_length_le (n : nat) : forall line values current inQuotes,
  (length line <= n)%nat ->
  (length values < length (parseCSVLine_loop line values current inQuotes))%nat.
Proof.
  induction n as [|n IH]; intros [|c rest] values current inQuotes Hn;
    simpl in *; try (rewrite length_app; simpl; lia); try lia.
  assert (Hrest : forall vs cur q,
    (length vs < length (parseCSVLine_loop rest vs cur q))%nat)
    by (intros; apply IH; lia).
  destruct (c =? DQUOTE).
  - destruct rest as [|c' rest']; [apply Hrest|].
    destruct (inQuotes && (c' =? DQUOTE)); [|apply Hrest].
    apply IH. simpl in Hn. lia.
  - destruct ((c =? COMMA) && negb inQuotes); [|apply Hrest].
    specialize (Hrest (values ++ [trim current]) [] inQuotes).
    rewrite length_app in Hrest. simpl in Hrest. lia.
Qed.

Lemma parseCSVLine_nonempty line : parseCSVLine line <> [].
Proof.
  pose proof (parseCSVLine_loop_length_le (length line) line [] [] false
                (Nat.le_refl _)) as H.
  unfold parseCSVLine. destruct (parseCSVLine_loop line [] [] false);
    [simpl in H; lia | discriminate].
Qed.

(** C6. Tokenizing the line [foo,QbarCbazQ,qux] (Q a quote, C a comma) gives
    exactly the three fields [foo], [bar,baz] and [qux]: a comma inside quotes
    is kept in the field, a comma outside quotes appends the trimmed
    accumulator and resets it, and the wrapping quotes are not part of the
    fields. *)
Theorem parseCSVLine_quoted_comma :
  parseCSVLine (str "foo," ++ [DQUOTE] ++ str "bar,baz" ++ [DQUOTE] ++ str ",qux")
  = [str "foo"; str "bar,baz"; str "qux"]
  /\ (forall rest values current,
        parseCSVLine_loop (COMMA :: rest) values current true
        = parseCSVLine_loop rest values (current ++ [COMMA]) true)
  /\ (forall rest values current,
        parseCSVLine_loop (COMMA :: rest) values current false
        = parseCSVLine_loop rest (values ++ [trim current]) [] false)
  /\ Forall (fun field => DQUOTE ∉ field)
       (parseCSVLine (str "foo," ++ [DQUOTE] ++ str "bar,baz" ++ [DQUOTE]
                      ++ str ",qux")).
Proof.
  split; [reflexivity|].
  split; [intros; apply loop_comma_inside|].
  split; [intros; apply loop_comma_outside|].
  vm_compute parseCSVLine.
  repeat constructor; intros H; apply list_elem_of_In in H; simpl in H;
    unfold DQUOTE in H; intuition discriminate.
Qed.

(** C7. Tokenizing the line made of a quote, [he said ], two quotes, [hi] and
    three quotes gives exactly one field, [he said ] followed by [hi] between
    quotes: inside quotes a doubled quote adds one quote to the accumulator
    and both characters are consumed; any other quote toggles the
    inside-quotes state. *)
Theorem parseCSVLine_escaped_quote :
  parseCSVLine ([DQUOTE] ++ str "he said " ++ [DQUOTE; DQUOTE] ++ str "hi"
                ++ [DQUOTE; DQUOTE; DQUOTE])
  = [str "he said " ++ [DQUOTE] ++ str "hi" ++ [DQUOTE]]
  /\ (forall rest values current,
        parseCSVLine_loop (DQUOTE :: DQUOTE :: rest) values current true
        = parseCSVLine_loop rest values (current ++ [DQUOTE]) true)
  /\ (forall c rest values current inQuotes,
        parseCSVLine_loop (DQUOTE :: c :: rest) values current inQuotes
        = if inQuotes && (c =? DQUOTE)
          then parseCSVLine_loop rest values (current ++ [DQUOTE]) inQuotes
          else parseCSVLine_loop (c :: rest) values current (negb inQuotes))
  /\ (forall values current inQuotes,
        parseCSVLine_loop [DQUOTE] values current inQuotes
        = parseCSVLine_loop [] values current (negb inQuotes)).
Proof.
  split; [reflexivity|].
  split; [intros; apply (loop_quote rest values current DQUOTE true)|].
  split; [intros; apply loop_quote|].
  intros; apply loop_quote_last.
Qed.

(** ** Errors of a parse *)

(** Building a record throws nothing but the TypeError of the runtime. *)
Lemma walk_throw keys : forall current finalKey v e,
  walk current keys finalKey v = Throw e -> e = TypeError.
Proof.
  induction keys as [|key keys IH]; intros current finalKey v e; simpl.
  - discriminate.
  - destruct (current !! key) as [[x|b|s|o]|] eqn:Hk.
    1-3: destruct keys; [destruct (bool_decide _)|]; congruence.
    + destruct (walk o keys finalKey v) eqn:Hw; simpl; try discriminate.
      intros [= <-]. eauto.
    + destruct (includes inheritedNames key); [discriminate|].
      destruct (walk ∅ keys finalKey v) eqn:Hw; simpl; try discriminate.
      intros [= <-]. eauto.
Qed.

Lemma setNestedProperty_throw obj path value e :
  setNestedProperty obj path value = Throw e -> e = TypeError.
Proof.
  unfold setNestedProperty. destruct (last (split DOT path)); [|discriminate].
  apply walk_throw.
Qed.

Lemma createNestedObject_loop_throw headers : forall result values e,
  createNestedObject_loop result headers values = Throw e -> e = TypeError.
Proof.
  induction headers as [|h headers IH]; intros result values e; simpl.
  - discriminate.
  - destruct values as [|v values]; [congruence|].
    destruct (trim h); [apply IH|]. destruct (trim v); [apply IH|].
    destruct (setNestedProperty result _ _) eqn:Hs; simpl.
    + apply IH.
    + intros [= <-]. eapply setNestedProperty_throw, Hs.
    + discriminate.
Qed.

Lemma parseCSV_loop_throw headers lines : forall i jsonData console e,
  fst (parseCSV_loop headers i lines jsonData console) = Throw e -> e = TypeError.
Proof.
  induction lines as [|line lines IH]; intros i jsonData console e; simpl.
  - discriminate.
  - destruct (negb _); [apply IH|].
    destruct (createNestedObject headers (parseCSVLine line)) eqn:Hc.
    + apply IH.
    + simpl. intros [= <-]. eapply createNestedObject_loop_throw, Hc.
    + discriminate.
Qed.

(** On plain paths the walk stays in the record: the call returns or throws,
    and no built-in object is reached. *)
Lemma walk_plain keys : forall current finalKey v,
  Forall (fun key => key ∉ inheritedNames) keys ->
  walk current keys finalKey v <> Escaped.
Proof.
  induction keys as [|key keys IH]; intros current finalKey v Hkeys; simpl.
  - discriminate.
  - apply Forall_cons in Hkeys as [Hkey Hkeys].
    destruct (current !! key) as [[x|b|s|o]|].
    1-3: destruct keys; [destruct (bool_decide _)|]; discriminate.
    + pose proof (IH o finalKey v Hkeys) as H.
      destruct (walk o keys finalKey v); simpl; congruence.
    + unfold includes. rewrite bool_decide_eq_false_2 by exact Hkey.
      pose proof (IH ∅ finalKey v Hkeys) as H.
      destruct (walk ∅ keys finalKey v); simpl; congruence.
Qed.

Lemma setNestedProperty_plain obj path value :
  plainPath (split DOT path) -> setNestedProperty obj path value <> Escaped.
Proof.
  unfold setNestedProperty, plainPath.
  destruct (last (split DOT path)); [apply walk_plain|discriminate].
Qed.

Lemma createNestedObject_loop_plain headers : forall result values,
  plainHeaders headers -> createNestedObject_loop result headers values <> Escaped.
Proof.
  induction headers as [|h headers IH]; intros result values Hplain; simpl.
  - discriminate.
  - apply Forall_cons in Hplain as [Hh Hplain].
    destruct values as [|v values]; [discriminate|].
    destruct (trim h) as [|c key]; [apply IH, Hplain|].
    destruct (trim v) as [|d value]; [apply IH, Hplain|].
    pose proof (setNestedProperty_plain result _ (d :: value) Hh) as Hset.
    destruct (setNestedProperty result _ _); simpl;
      [apply IH, Hplain|discriminate|congruence].
Qed.

Lemma createNestedObject_plain headers values :
  plainHeaders headers -> createNestedObject headers values <> Escaped.
Proof. apply createNestedObject_loop_plain. Qed.

Lemma join_holds sep pieces piece :
  piece ∈ pieces ->
  exists before after, join sep pieces = before ++ piece ++ after.
Proof.
  induction pieces as [|p ps IH]; intros Hin; [inversion Hin|].
  apply elem_of_cons in Hin as [->|Hin].
  - destruct ps as [|q ps].
    + exists [], []. simpl. rewrite app_nil_r. reflexivity.
    + exists [], (sep ++ join sep (q :: ps)). reflexivity.
  - destruct ps as [|q ps]; [inversion Hin|].
    destruct (IH Hin) as (before & after & Heq).
    exists (p ++ sep ++ before), after.
    change (join sep (p :: q :: ps)) with (p ++ sep ++ join sep (q :: ps)).
    rewrite Heq, <- !app_assoc. reflexivity.
Qed.

Lemma fst_parseCSV csvContent :
  fst (parseCSV csvContent) = fst (parseCSV_try csvContent).
Proof.
  unfold parseCSV. destruct (parseCSV_try csvContent) as [[r|e|] console];
    reflexivity.
Qed.

(** The source's filter and the set difference select the same fields. *)
Lemma missingFields_difference headers :
  missingFields headers = filter (fun field => field ∉ headers) mandatoryFields.
Proof.
  unfold missingFields. apply list_filter_iff. intros field. unfold includes.
  rewrite negb_true_iff, bool_decide_eq_false. reflexivity.
Qed.

Lemma validateMandatoryFields_spec headers :
  validateMandatoryFields headers
  = match missingFields headers with
    | [] => Return tt
    | _ :: _ => Throw (ValidationError (missingFields headers))
    end.
Proof.
  unfold validateMandatoryFields. destruct (missingFields headers); reflexivity.
Qed.

(** C3. A parse throws the format error exactly when fewer than two lines
    remain after splitting on newlines and dropping the lines that are empty
    once trimmed; in particular a content made of one line throws it. *)
Theorem parseCSV_FormatError_iff :
  (forall csvContent,
     fst (parseCSV csvContent) = Throw FormatError
     <-> (length (filter (fun line => trim line <> []) (split NEWLINE csvContent))
          < 2)%nat)
  /\ (forall header,
        NEWLINE ∉ header -> fst (parseCSV header) = Throw FormatError).
Proof.
  assert (Hiff : forall csvContent,
     fst (parseCSV csvContent) = Throw FormatError
     <-> (length (nonEmptyLines csvContent) < 2)%nat).
  { intros csvContent. rewrite fst_parseCSV. unfold parseCSV_try.
    destruct (Nat.ltb_spec (length (nonEmptyLines csvContent)) 2) as [Hlt|Hge].
    - simpl. split; [intros _; exact Hlt | reflexivity].
    - split; [|lia]. intros H. exfalso.
      destruct (nonEmptyLines csvContent) as [|line0 rows]; [discriminate|].
      rewrite validateMandatoryFields_spec in H.
      destruct (missingFields (parseCSVLine line0)).
      + apply parseCSV_loop_throw in H. discriminate.
      + simpl in H. discriminate. }
  split; [exact Hiff|].
  intros header Hnl. apply Hiff. unfold nonEmptyLines.
  assert (Hone : forall s : jstring, NEWLINE ∉ s -> split NEWLINE s = [s]).
  { induction s as [|c s IH]; [reflexivity|]. intros Hs.
    apply not_elem_of_cons in Hs as [Hc Hs]. simpl. rewrite (IH Hs).
    destruct (N.eqb_spec c NEWLINE); congruence. }
  rewrite (Hone _ Hnl). rewrite filter_cons. destruct (decide _); simpl; lia.
Qed.

Lemma parseCSV_FormatError_iff_witness :
  (NEWLINE ∉ Samples.headerOnly)
  /\ fst (parseCSV Samples.headerOnly) = Throw FormatError.
Proof.
  assert (H : NEWLINE ∉ Samples.headerOnly) by not_in_closed_list.
  split; [exact H|].
  exact (proj2 parseCSV_FormatError_iff _ H).
Defined.

(** C2. With at least two non-empty lines, a parse throws the validation
    error exactly when some mandatory field is not among the header's paths;
    the error lists every missing field, and it is thrown before any data
    row is looked at: the console holds the error line and no row warning.
    The message of the error holds the text of every missing field, and its
    listing, cut at the commas and trimmed, is the list of the missing
    fields. *)
Theorem parseCSV_ValidationError_iff csvContent :
  (2 <= length (nonEmptyLines csvContent))%nat ->
  let headers := parseCSVLine (hd [] (nonEmptyLines csvContent)) in
  let missing := filter (fun field => field ∉ headers) mandatoryFields in
  ((exists ms, fst (parseCSV csvContent) = Throw (ValidationError ms))
   <-> missing <> [])
  /\ (missing <> [] ->
      parseCSV csvContent
      = (Throw (ValidationError missing), [ErrorLine (ValidationError missing)]))
  /\ (forall field, field ∈ mandatoryFields -> field ∉ headers -> field ∈ missing)
  /\ ValidationError missing
     = Error (str "Missing mandatory fields: " ++ join (str ", ") missing)
  /\ (forall field, field ∈ missing ->
        exists before after,
          ValidationError missing
          = Error (str "Missing mandatory fields: " ++ before ++ field ++ after))
  /\ (missing <> [] ->
        exists listing,
          ValidationError missing
          = Error (str "Missing mandatory fields: " ++ listing)
          /\ map trim (split COMMA listing) = missing).
Proof.
  intros Hlen headers missing.
  assert (Hmiss : missingFields headers = missing)
    by apply missingFields_difference.
  assert (Hthrow : missing <> [] ->
      parseCSV csvContent
      = (Throw (ValidationError missing), [ErrorLine (ValidationError missing)])).
  { intros Hne. unfold parseCSV, parseCSV_try.
    destruct (Nat.ltb_spec (length (nonEmptyLines csvContent)) 2); [lia|].
    subst headers. destruct (nonEmptyLines csvContent) as [|line0 rows];
      [simpl in Hlen; lia|]. simpl in Hmiss |- *.
    rewrite validateMandatoryFields_spec, Hmiss.
    destruct missing; [congruence|reflexivity]. }
  split; [split|split; [exact Hthrow|split; [|split; [|split]]]].
  - intros [ms Hms] Hnil. rewrite fst_parseCSV in Hms. unfold parseCSV_try in Hms.
    destruct (Nat.ltb_spec (length (nonEmptyLines csvContent)) 2); [lia|].
    subst headers. destruct (nonEmptyLines csvContent) as [|line0 rows];
      [simpl in Hlen; lia|]. simpl in Hmiss.
    rewrite validateMandatoryFields_spec, Hmiss, Hnil in Hms.
    apply parseCSV_loop_throw in Hms. discriminate.
  - intros Hne. exists missing. rewrite (Hthrow Hne). reflexivity.
  - intros field Hin Hnot. apply list_elem_of_filter. auto.
  - reflexivity.
  - intros field Hin.
    destruct (join_holds (str ", ") missing field Hin) as (before & after & Heq).
    exists before, after. unfold ValidationError. rewrite Heq. reflexivity.
  - intros Hne. exists (join (str ", ") missing). split; [reflexivity|].
    subst missing. unfold mandatoryFields in *.
    rewrite !filter_cons, filter_nil in *.
    destruct (decide (str "name.firstName" ∉ headers));
      destruct (decide (str "name.lastName" ∉ headers));
      destruct (decide (str "age" ∉ headers));
      try congruence; vm_compute; reflexivity.
Qed.

Lemma parseCSV_ValidationError_iff_witness :
  (2 <= length (nonEmptyLines MoreSamples.missingTwo))%nat
  /\ parseCSV MoreSamples.missingTwo
     = (Throw (Error (str "Missing mandatory fields: name.firstName, name.lastName")),
        [ErrorLine
           (Error (str "Missing mandatory fields: name.firstName, name.lastName"))]).
Proof.
  assert (Hlen : (2 <= length (nonEmptyLines MoreSamples.missingTwo))%nat)
    by (vm_compute; lia).
  split; [exact Hlen|].
  destruct (parseCSV_ValidationError_iff _ Hlen) as (_ & Hthrow & _).
  rewrite Hthrow; [vm_compute; reflexivity|]. vm_compute. discriminate.
Defined.

(** ** Quote removal *)

Lemma startsWith_head v q : startsWith v q = true <-> head v = Some q.
Proof.
  destruct v as [|c v]; simpl; [split; discriminate|].
  rewrite N.eqb_eq. split; congruence.
Qed.

Lemma endsWith_last v q : endsWith v q = true <-> last v = Some q.
Proof.
  unfold endsWith. destruct (last v) as [c|]; [|split; discriminate].
  rewrite N.eqb_eq. split; congruence.
Qed.

Lemma wrapped_iff v :
  wrapped v = true
  <-> exists q, (q = DQUOTE \/ q = SQUOTE) /\ head v = Some q /\ last v = Some q.
Proof.
  unfold wrapped. rewrite orb_true_iff, !andb_true_iff.
  rewrite !startsWith_head, !endsWith_last. split.
  - intros [[H1 H2]|[H1 H2]]; eauto 6.
  - intros (q & [->| ->] & H1 & H2); auto.
Qed.

Lemma specWrapped_iff v :
  specWrapped v = true
  <-> (2 <= length v)%nat
      /\ exists q, (q = DQUOTE \/ q = SQUOTE) /\ head v = Some q /\ last v = Some q.
Proof.
  unfold specWrapped. rewrite andb_true_iff, Nat.leb_le.
  apply and_iff_compat_l.
  destruct (head v) as [a|], (last v) as [b|];
    try (split; [discriminate | intros (q & _ & H1 & H2); discriminate]).
  rewrite andb_true_iff, orb_true_iff, !N.eqb_eq. split.
  - intros [-> Hq]. eauto.
  - intros (q & Hq & [= ->] & [= ->]). auto.
Qed.

Lemma slice_inner (q1 q2 : N) (mid : jstring) :
  slice (q1 :: mid ++ [q2]) 1 (-1) = mid.
Proof.
  unfold slice. simpl length. rewrite length_app. simpl length.
  replace (1 <? 0)%Z with false by reflexivity.
  replace (-1 <? 0)%Z with true by reflexivity.
  rewrite Z.min_l, Z.max_l by lia.
  change (Z.to_nat 1) with 1%nat. simpl drop.
  replace (Z.to_nat _) with (length mid) by lia.
  apply take_app_length.
Qed.

(** C9, amended. The quotes are removed exactly when the value starts and
    ends with a double quote, or starts and ends with a single quote: that is
    when the three conditions of the specification hold, or the value is one
    lone quote. The removal drops the first and the last unit, once; a lone
    quote becomes the empty string; any other value is typed as it is. *)
Theorem unquote_spec (v : jstring) :
  (wrapped v = true <-> specWrapped v = true \/ v = [DQUOTE] \/ v = [SQUOTE])
  /\ (forall q mid, q = DQUOTE \/ q = SQUOTE -> v = q :: mid ++ [q] ->
        unquote v = mid)
  /\ (v = [DQUOTE] \/ v = [SQUOTE] -> unquote v = [])
  /\ (wrapped v = false -> unquote v = v)
  /\ parseValue v = typed (unquote v).
Proof.
  split; [|split; [|split; [|split]]].
  - rewrite wrapped_iff, specWrapped_iff. split.
    + intros (q & Hq & Hh & Hl).
      destruct v as [|c [|c' v']]; [discriminate| |].
      * injection Hh as ->. destruct Hq as [->| ->]; auto.
      * left. split; [simpl; lia|eauto].
    + intros [[_ H]|[->| ->]]; [exact H| |]; eauto 6.
  - intros q mid Hq ->. unfold unquote.
    replace (wrapped _) with true; [apply slice_inner|].
    symmetry. apply wrapped_iff. exists q. split; [exact Hq|].
    split; [reflexivity|]. rewrite app_comm_cons. apply last_snoc.
  - intros [->| ->]; reflexivity.
  - intros H. unfold unquote. rewrite H. reflexivity.
  - reflexivity.
Qed.

(** C9 as stated fails on a lone double quote: the source removes it, though
    the value has fewer than two units, and the typed value is the empty
    string, not the quote. *)
Lemma unquote_lone_quote :
  wrapped [DQUOTE] = true
  /\ specWrapped [DQUOTE] = false
  /\ parseValue [DQUOTE] = VStr []
  /\ typed [DQUOTE] = VStr [DQUOTE].
Proof. repeat split. Qed.

(** ** Records *)

Lemma typed_primitive value : isPrimitive (typed value) = true.
Proof.
  unfold typed. destruct (numeric value); [reflexivity|].
  repeat (destruct (bool_decide _); [reflexivity|]). reflexivity.
Qed.

Lemma parseValue_primitive value : isPrimitive (parseValue value) = true.
Proof. apply typed_primitive. Qed.

Lemma getPath_primitive v path x :
  isPrimitive v = true -> getPath v path = Some x -> path = [] /\ x = v.
Proof.
  intros Hv. destruct path as [|key path]; simpl.
  - intros [= <-]. auto.
  - destruct v; try discriminate.
Qed.

Lemma getPath_insert o key v key' path :
  getPath (VObj (<[key := v]> o)) (key' :: path)
  = if decide (key = key') then getPath v path else getPath (VObj o) (key' :: path).
Proof. simpl. rewrite lookup_insert. destruct (decide (key = key')); reflexivity. Qed.

Lemma split_snoc sep s : exists keys finalKey, split sep s = keys ++ [finalKey].
Proof.
  assert (H : split sep s <> []).
  { destruct s as [|c s]; simpl; [discriminate|].
    destruct (c =? sep); [discriminate|]. destruct (split sep s); discriminate. }
  destruct (exists_last H) as (keys & finalKey & ->). eauto.
Qed.

(** [setNestedProperty] walks all keys but the last and assigns the last. *)
Lemma setNestedProperty_walk obj path value keys finalKey :
  split DOT path = keys ++ [finalKey] ->
  setNestedProperty obj path value = walk obj keys finalKey (parseValue value).
Proof.
  intros H. unfold setNestedProperty. rewrite H, last_snoc, removelast_last.
  reflexivity.
Qed.

Lemma noEmptyKey_primitive v : isPrimitive v = true -> noEmptyKey v.
Proof.
  intros Hv path x Hx. apply (getPath_primitive _ _ _ Hv) in Hx as [-> _].
  apply not_elem_of_nil.
Qed.

Lemma noEmptyKey_empty : noEmptyKey (VObj ∅).
Proof.
  intros [|key path] x; simpl; [intros _; apply not_elem_of_nil|].
  rewrite lookup_empty. discriminate.
Qed.

Lemma noEmptyKey_insert o key v :
  key <> [] -> noEmptyKey (VObj o) -> noEmptyKey v ->
  noEmptyKey (VObj (<[key := v]> o)).
Proof.
  intros Hkey Ho Hv [|key' path] x; [intros _; apply not_elem_of_nil|].
  rewrite getPath_insert. destruct (decide (key = key')) as [<-|Hne].
  - intros Hx. apply not_elem_of_cons. split; [congruence|]. eapply Hv, Hx.
  - apply Ho.
Qed.

Lemma noEmptyKey_child o key v :
  noEmptyKey (VObj o) -> o !! key = Some v -> noEmptyKey v.
Proof.
  intros Ho Hkey path x Hx. specialize (Ho (key :: path) x). simpl in Ho.
  rewrite Hkey in Ho. apply Ho in Hx. apply not_elem_of_cons in Hx. tauto.
Qed.

Lemma walk_noEmptyKey keys : forall current finalKey v result,
  walk current keys finalKey v = Return result ->
  [] ∉ keys -> finalKey <> [] -> isPrimitive v = true ->
  noEmptyKey (VObj current) -> noEmptyKey (VObj result).
Proof.
  induction keys as [|key keys IH]; intros current finalKey v result; simpl.
  - intros [= <-] _ Hf Hv Hc. unfold assignFinal.
    destruct (bool_decide _); [exact Hc|].
    apply noEmptyKey_insert; auto using noEmptyKey_primitive.
  - intros Hw Hkeys Hf Hv Hc. apply not_elem_of_cons in Hkeys as [Hkey Hkeys].
    destruct (current !! key) as [[x|b|s|o]|] eqn:Hk.
    1-3: destruct keys; [destruct (bool_decide _)|]; try discriminate;
         injection Hw as <-; exact Hc.
    + destruct (walk o keys finalKey v) as [child| |] eqn:Hchild;
        simpl in Hw; try discriminate. injection Hw as <-.
      apply noEmptyKey_insert; [congruence|exact Hc|].
      eapply IH; eauto using noEmptyKey_child.
    + destruct (includes inheritedNames key); [discriminate|].
      destruct (walk ∅ keys finalKey v) as [child| |] eqn:Hchild;
        simpl in Hw; try discriminate. injection Hw as <-.
      apply noEmptyKey_insert; [congruence|exact Hc|].
      eapply IH; eauto using noEmptyKey_empty.
Qed.

Lemma setNestedProperty_noEmptyKey obj path value result :
  setNestedProperty obj path value = Return result ->
  [] ∉ split DOT path ->
  noEmptyKey (VObj obj) -> noEmptyKey (VObj result).
Proof.
  destruct (split_snoc DOT path) as (keys & finalKey & Hsplit).
  rewrite (setNestedProperty_walk _ _ _ _ _ Hsplit), Hsplit.
  intros Hw Hnot. eapply walk_noEmptyKey; eauto using parseValue_primitive.
  - intros H. apply Hnot, elem_of_app. auto.
  - intros ->. apply Hnot, elem_of_app. right. apply list_elem_of_singleton.
    reflexivity.
Qed.

(** A pair with an empty trimmed key or an empty trimmed value is skipped. *)
Lemma createNestedObject_loop_skip result header headers v values :
  trim header = [] \/ trim v = [] ->
  createNestedObject_loop result (header :: headers) (v :: values)
  = createNestedObject_loop result headers values.
Proof.
  simpl. intros [->| ->]; [reflexivity|]. destruct (trim header); reflexivity.
Qed.

Lemma createNestedObject_loop_set result header headers v values :
  trim header <> [] -> trim v <> [] ->
  createNestedObject_loop result (header :: headers) (v :: values)
  = let* result' := setNestedProperty result (trim header) (trim v) in
    createNestedObject_loop result' headers values.
Proof.
  simpl. destruct (trim header); [congruence|]. destruct (trim v); [congruence|].
  reflexivity.
Qed.

Lemma createNestedObject_loop_noEmptyKey headers : forall result values r,
  createNestedObject_loop result headers values = Return r ->
  Forall (fun header => [] ∉ split DOT (trim header) \/ trim header = []) headers ->
  noEmptyKey (VObj result) -> noEmptyKey (VObj r).
Proof.
  induction headers as [|header headers IH]; intros result values r; simpl.
  - intros [= <-] _ H. exact H.
  - destruct values as [|v values]; [discriminate|].
    intros Hloop Hall Hres. apply Forall_cons in Hall as [Hh Hall].
    destruct (trim header) as [|c key] eqn:Hkey; [eapply IH; eauto|].
    destruct (trim v) as [|c' value]; [eapply IH; eauto|].
    destruct (setNestedProperty result (c :: key) (c' :: value))
      as [result'| |] eqn:Hset; simpl in Hloop; try discriminate.
    destruct Hh as [Hh|Hh]; [|discriminate].
    eapply IH; eauto using setNestedProperty_noEmptyKey.
Qed.

(** What a successful walk leaves at the path it was given. *)
Lemma walk_getPath keys : forall current finalKey v result,
  walk current keys finalKey v = Return result ->
  finalKey <> PROTO ->
  getPath (VObj result) (keys ++ [finalKey]) = Some v.
Proof.
  induction keys as [|key keys IH]; intros current finalKey v result; simpl.
  - intros [= <-] Hf. unfold assignFinal.
    rewrite bool_decide_eq_false_2 by exact Hf.
    rewrite lookup_insert_eq. reflexivity.
  - intros Hw Hf.
    destruct (current !! key) as [[x|b|s|o]|] eqn:Hk.
    1-3: destruct keys; [rewrite bool_decide_eq_false_2 in Hw by exact Hf|];
         discriminate.
    + destruct (walk o keys finalKey v) as [child| |] eqn:Hchild;
        simpl in Hw; try discriminate. injection Hw as <-.
      rewrite lookup_insert_eq. exact (IH _ _ _ _ Hchild Hf).
    + destruct (includes inheritedNames key); [discriminate|].
      destruct (walk ∅ keys finalKey v) as [child| |] eqn:Hchild;
        simpl in Hw; try discriminate. injection Hw as <-.
      rewrite lookup_insert_eq. exact (IH _ _ _ _ Hchild Hf).
Qed.

(** A successful walk keeps a primitive that is read at [path], unless the
    path of the walk is a prefix of [path]. *)
Lemma walk_keeps keys : forall current finalKey v result path x,
  walk current keys finalKey v = Return result ->
  ~ (keys ++ [finalKey]) `prefix_of` path ->
  isPrimitive x = true ->
  getPath (VObj current) path = Some x ->
  getPath (VObj result) path = Some x.
Proof.
  induction keys as [|key keys IH]; intros current finalKey v result path x.
  - simpl. intros [= <-] Hpre Hx Hget. unfold assignFinal.
    destruct (bool_decide _); [exact Hget|].
    destruct path as [|key' path];
      [simpl in Hget; injection Hget as <-; discriminate|].
    rewrite getPath_insert. destruct (decide (finalKey = key')) as [->|]; [|exact Hget].
    exfalso. apply Hpre. apply prefix_cons, prefix_nil.
  - intros Hw Hpre Hx Hget.
    destruct path as [|key' path];
      [simpl in Hget; injection Hget as <-; discriminate|].
    destruct (decide (key = key')) as [<-|Hne].
    + assert (Hpre' : ~ (keys ++ [finalKey]) `prefix_of` path).
      { intros H. apply Hpre. simpl. apply prefix_cons, H. }
      simpl in Hw, Hget.
      destruct (current !! key) as [[y|b|s|o]|] eqn:Hk; try discriminate.
      1-3: destruct keys; [destruct (bool_decide _)|]; try discriminate;
           injection Hw as <-; simpl; rewrite Hk; exact Hget.
      destruct (walk o keys finalKey v) as [child| |] eqn:Hchild;
        simpl in Hw; try discriminate. injection Hw as <-.
      simpl. rewrite lookup_insert_eq. eapply IH; eauto.
    + simpl in Hw.
      destruct (current !! key) as [[y|b|s|o]|] eqn:Hk.
      1-3: destruct keys; [destruct (bool_decide _)|]; try discriminate;
           injection Hw as <-; exact Hget.
      * destruct (walk o keys finalKey v) as [child| |];
          simpl in Hw; try discriminate. injection Hw as <-.
        rewrite getPath_insert, decide_False by exact Hne. exact Hget.
      * destruct (includes inheritedNames key); [discriminate|].
        destruct (walk ∅ keys finalKey v) as [child| |];
          simpl in Hw; try discriminate. injection Hw as <-.
        rewrite getPath_insert, decide_False by exact Hne. exact Hget.
Qed.

Lemma setNestedProperty_getPath obj path value result :
  setNestedProperty obj path value = Return result ->
  last (split DOT path) <> Some PROTO ->
  getPath (VObj result) (split DOT path) = Some (parseValue value).
Proof.
  destruct (split_snoc DOT path) as (keys & finalKey & Hsplit).
  rewrite (setNestedProperty_walk _ _ _ _ _ Hsplit), Hsplit, last_snoc.
  intros Hw Hf. eapply walk_getPath; eauto. congruence.
Qed.

Lemma setNestedProperty_keeps obj path value result path' x :
  setNestedProperty obj path value = Return result ->
  ~ split DOT path `prefix_of` path' ->
  isPrimitive x = true ->
  getPath (VObj obj) path' = Some x ->
  getPath (VObj result) path' = Some x.
Proof.
  destruct (split_snoc DOT path) as (keys & finalKey & Hsplit).
  rewrite (setNestedProperty_walk _ _ _ _ _ Hsplit), Hsplit.
  apply walk_keeps.
Qed.

Lemma createNestedObject_loop_keeps headers : forall result values r path x,
  createNestedObject_loop result headers values = Return r ->
  (forall j header v, headers !! j = Some header -> values !! j = Some v ->
                      harmless path header v) ->
  isPrimitive x = true ->
  getPath (VObj result) path = Some x ->
  getPath (VObj r) path = Some x.
Proof.
  induction headers as [|header headers IH]; intros result values r path x; simpl.
  - intros [= <-] _ _ H. exact H.
  - destruct values as [|v values]; [discriminate|].
    intros Hloop Hall Hx Hget.
    assert (Hrest : forall j header v, headers !! j = Some header ->
              values !! j = Some v -> harmless path header v)
      by (intros j; apply (Hall (S j))).
    specialize (Hall 0%nat header v eq_refl eq_refl).
    destruct (trim header) as [|c key] eqn:Hkey; [eapply IH; eauto|].
    destruct (trim v) as [|c' value] eqn:Hv; [eapply IH; eauto|].
    destruct (setNestedProperty result (c :: key) (c' :: value))
      as [result'| |] eqn:Hset; simpl in Hloop; try discriminate.
    unfold harmless in Hall. rewrite Hkey, Hv in Hall.
    destruct Hall as [|[|Hpre]]; try discriminate.
    eapply IH; eauto using setNestedProperty_keeps.
Qed.

(** The column [i] whose cell is not skipped sets its path, and the value
    stays when the later columns are harmless. *)
Lemma createNestedObject_loop_cell headers : forall i result values r header v,
  createNestedObject_loop result headers values = Return r ->
  headers !! i = Some header -> values !! i = Some v ->
  trim header <> [] -> trim v <> [] ->
  last (split DOT (trim header)) <> Some PROTO ->
  (forall j header' v', (i < j)%nat -> headers !! j = Some header' ->
     values !! j = Some v' -> harmless (split DOT (trim header)) header' v') ->
  getPath (VObj r) (split DOT (trim header)) = Some (parseValue (trim v)).
Proof.
  induction headers as [|header0 headers IH];
    intros i result values r header v Hloop Hh Hv Hkey Hval Hproto Hlater.
  - destruct i; discriminate.
  - destruct values as [|v0 values]; [destruct i; discriminate|].
    destruct i as [|i].
    + injection Hh as ->. injection Hv as ->.
      rewrite createNestedObject_loop_set in Hloop by assumption.
      destruct (setNestedProperty result (trim header) (trim v))
        as [result'| |] eqn:Hset; simpl in Hloop; try discriminate.
      eapply createNestedObject_loop_keeps; eauto using parseValue_primitive.
      * intros j header' v' H1 H2. apply (Hlater (S j)); [lia|exact H1|exact H2].
      * eapply setNestedProperty_getPath; eauto.
    + simpl in Hh, Hv.
      assert (Hlater' : forall j header' v', (i < j)%nat ->
                headers !! j = Some header' -> values !! j = Some v' ->
                harmless (split DOT (trim header)) header' v')
        by (intros j ? ? ?; apply (Hlater (S j)); lia).
      simpl in Hloop.
      destruct (trim header0); [eapply IH; eauto|].
      destruct (trim v0); [eapply IH; eauto|].
      destruct (setNestedProperty result _ _) as [result'| |];
        simpl in Hloop; try discriminate.
      eapply IH; eauto.
Qed.

(** ** The rows of a parse *)

Lemma parseCSV_loop_kept headers line lines i jsonData console r :
  kept headers line -> builds headers line r ->
  parseCSV_loop headers i (line :: lines) jsonData console
  = parseCSV_loop headers (S i) lines (jsonData ++ [r]) console.
Proof.
  unfold kept, builds. intros Hk Hb. simpl.
  rewrite Hk, Nat.eqb_refl, Hb. reflexivity.
Qed.

Lemma parseCSV_loop_dropped headers line lines i jsonData console :
  ~ kept headers line ->
  parseCSV_loop headers i (line :: lines) jsonData console
  = parseCSV_loop headers (S i) lines jsonData (console ++ [Warn (i + 1)]).
Proof.
  unfold kept. intros Hk. simpl.
  destruct (Nat.eqb_spec (length (parseCSVLine line)) (length headers));
    [contradiction|reflexivity].
Qed.

(** When every kept row builds, the loop returns the records of the kept rows
    after the records it started with, in the order of the rows. *)
Lemma parseCSV_loop_records headers lines : forall i jsonData console,
  Forall (fun line => kept headers line -> exists r, builds headers line r) lines ->
  exists records,
    fst (parseCSV_loop headers i lines jsonData console) = Return (jsonData ++ records)
    /\ Forall2 (builds headers) (filter (kept headers) lines) records.
Proof.
  induction lines as [|line lines IH]; intros i jsonData console Hall.
  - exists []. rewrite app_nil_r. split; [reflexivity|constructor].
  - apply Forall_cons in Hall as [Hline Hall].
    destruct (decide (kept headers line)) as [Hk|Hk].
    + destruct (Hline Hk) as [r Hr].
      destruct (IH (S i) (jsonData ++ [r]) console Hall) as (records & Hret & Hrec).
      exists (r :: records). rewrite (parseCSV_loop_kept _ _ _ _ _ _ r Hk Hr).
      rewrite Hret, <- app_assoc. split; [reflexivity|].
      rewrite filter_cons_True by exact Hk. constructor; assumption.
    + destruct (IH (S i) jsonData (console ++ [Warn (i + 1)]) Hall)
        as (records & Hret & Hrec).
      exists records. rewrite (parseCSV_loop_dropped _ _ _ _ _ _ Hk).
      rewrite filter_cons_False by exact Hk. auto.
Qed.

Lemma length_filter_split {A} (P : A -> Prop) `{forall x, Decision (P x)} (l : list A) :
  (length (filter P l) = length l - length (filter (fun x => ~ P x) l))%nat.
Proof.
  assert (Hle : (length (filter P l) + length (filter (fun x => ~ P x) l)
                 = length l)%nat); [|lia].
  induction l as [|x l IH]; [reflexivity|].
  rewrite !filter_cons. destruct (decide (P x)) as [Hx|Hx].
  - rewrite decide_False by tauto. simpl. lia.
  - rewrite decide_True by exact Hx. simpl. lia.
Qed.

(** What holds of the rows of a parse: with two non-empty lines or more and
    the mandatory fields in the header, if every row with as many fields as
    the header builds a record, the parse returns exactly these records, in
    the order of the rows; the rows with another number of fields are left
    out, and the parse goes on. *)
Lemma parseCSV_records csvContent :
  (2 <= length (nonEmptyLines csvContent))%nat ->
  let headers := parseCSVLine (hd [] (nonEmptyLines csvContent)) in
  let rows := tl (nonEmptyLines csvContent) in
  missingFields headers = [] ->
  Forall (fun line => kept headers line -> exists r, builds headers line r) rows ->
  exists records,
    fst (parseCSV csvContent) = Return records
    /\ Forall2 (builds headers) (filter (kept headers) rows) records
    /\ (length records
        = length rows - length (filter (fun line => ~ kept headers line) rows))%nat.
Proof.
  intros Hlen headers rows Hmiss Hall. subst headers rows.
  rewrite fst_parseCSV. unfold parseCSV_try.
  destruct (Nat.ltb_spec (length (nonEmptyLines csvContent)) 2); [lia|].
  destruct (nonEmptyLines csvContent) as [|line0 rows]; [simpl in Hlen; lia|].
  simpl in Hmiss, Hall |- *.
  rewrite validateMandatoryFields_spec, Hmiss.
  destruct (parseCSV_loop_records _ rows 1 [] [] Hall) as (records & Hret & Hrec).
  exists records. split; [exact Hret|]. split; [exact Hrec|].
  rewrite <- (Forall2_length _ _ _ Hrec). apply length_filter_split.
Qed.

(** Every record that a parse returns was built from one of its rows. *)
Lemma parseCSV_loop_emitted headers lines : forall i jsonData console records r,
  fst (parseCSV_loop headers i lines jsonData console) = Return records ->
  r ∈ records ->
  r ∈ jsonData \/ exists line, line ∈ lines /\ builds headers line r.
Proof.
  induction lines as [|line lines IH]; intros i jsonData console records r; simpl.
  - intros [= <-]. auto.
  - destruct (negb _).
    + intros Hret Hr. destruct (IH _ _ _ _ _ Hret Hr) as [?|(l & Hl & Hb)]; [auto|].
      right. exists l. split; [right; exact Hl|exact Hb].
    + destruct (createNestedObject headers (parseCSVLine line)) as [o| |] eqn:Ho;
        try discriminate.
      intros Hret Hr. destruct (IH _ _ _ _ _ Hret Hr) as [Hin|(l & Hl & Hb)].
      * apply elem_of_app in Hin as [?|Hin]; [auto|].
        apply list_elem_of_singleton in Hin as ->.
        right. exists line. split; [left|exact Ho].
      * right. exists l. split; [right; exact Hl|exact Hb].
Qed.

Lemma parseCSV_emitted csvContent records r :
  fst (parseCSV csvContent) = Return records ->
  r ∈ records ->
  exists line,
    line ∈ tl (nonEmptyLines csvContent)
    /\ builds (parseCSVLine (hd [] (nonEmptyLines csvContent))) line r.
Proof.
  rewrite fst_parseCSV. unfold parseCSV_try.
  destruct (length (nonEmptyLines csvContent) <? 2)%nat; [discriminate|].
  destruct (nonEmptyLines csvContent) as [|line0 rows]; [discriminate|]. simpl.
  destruct (validateMandatoryFields (parseCSVLine line0)); try discriminate.
  intros Hret Hr.
  destruct (parseCSV_loop_emitted _ _ _ _ _ _ _ Hret Hr) as [Hin|H]; [|exact H].
  apply elem_of_nil in Hin. contradiction.
Qed.

Lemma parseCSV_records_readme :
  exists r1 r2,
    parseCSV Samples.readme = (Return [r1; r2], [Warn 3])
    /\ getPath (VObj r1) [str "address"; str "city"] = Some (VStr (str "Pune"))
    /\ getPath (VObj r2) [str "age"] = Some (VNum (ofZ 28)).
Proof. eexists _, _. split; [vm_compute; reflexivity|]. vm_compute. auto. Qed.

(** C1, at an input on which the source fails. The header has the mandatory
    fields and the row has as many fields as the header; the path [age.x] runs
    through [age], which holds the number 35, and the assignment on a
    number throws in the strict code of the class: the parse throws a
    TypeError and returns no record. With one more segment the [in] test on
    the number throws as well. *)
Theorem parseCSV_path_through_scalar :
  missingFields (parseCSVLine (str "name.firstName,name.lastName,age,age.x")) = []
  /\ length (parseCSVLine (str "Rohit,Prasad,35,2"))
     = length (parseCSVLine (str "name.firstName,name.lastName,age,age.x"))
  /\ parseCSV Samples.pathThroughScalar = (Throw TypeError, [ErrorLine TypeError])
  /\ parseCSV Samples.pathThroughScalar3 = (Throw TypeError, [ErrorLine TypeError]).
Proof. repeat split; vm_compute; reflexivity. Qed.

(** ** Keys of a record *)

Lemma createNestedObject_loop_all_skipped headers : forall result values,
  length headers = length values ->
  Forall (fun v => trim v = []) values ->
  createNestedObject_loop result headers values = Return result.
Proof.
  induction headers as [|header headers IH]; intros result [|v values] Hlen Hall;
    try discriminate; [reflexivity|].
  apply Forall_cons in Hall as [Hv Hall].
  rewrite createNestedObject_loop_skip by auto. apply IH; [|exact Hall].
  simpl in Hlen. lia.
Qed.

(** C5, amended. A pair whose trimmed header path is empty, or whose trimmed
    value is empty, is skipped and sets no key: a row of empty values gives
    the empty record. When no header path has an empty segment, no key of
    an emitted record, at any depth, is the empty string. The header [a.b,c]
    with the row [,5] gives the record with the one key [c], holding 5. *)
Theorem createNestedObject_keys :
  (forall result header headers v values,
     trim header = [] \/ trim v = [] ->
     createNestedObject_loop result (header :: headers) (v :: values)
     = createNestedObject_loop result headers values)
  /\ (forall headers values,
        length headers = length values -> Forall (fun v => trim v = []) values ->
        createNestedObject headers values = Return ∅)
  /\ (forall headers values r,
        createNestedObject headers values = Return r ->
        Forall (fun header => [] ∉ split DOT (trim header) \/ trim header = [])
          headers ->
        forall path x, getPath (VObj r) path = Some x -> [] ∉ path)
  /\ (forall csvContent records r,
        fst (parseCSV csvContent) = Return records -> r ∈ records ->
        Forall (fun header => [] ∉ split DOT (trim header) \/ trim header = [])
          (parseCSVLine (hd [] (nonEmptyLines csvContent))) ->
        forall path x, getPath (VObj r) path = Some x -> [] ∉ path)
  /\ createNestedObject [str "a.b"; str "c"] [str ""; str "5"]
     = Return {[ str "c" := VNum (ofZ 5) ]}.
Proof.
  assert (Hkeys : forall headers values r,
        createNestedObject headers values = Return r ->
        Forall (fun header => [] ∉ split DOT (trim header) \/ trim header = [])
          headers ->
        forall path x, getPath (VObj r) path = Some x -> [] ∉ path).
  { intros headers values r Hr Hall.
    eapply createNestedObject_loop_noEmptyKey; eauto using noEmptyKey_empty. }
  split; [|split; [|split; [exact Hkeys|split]]].
  - intros. apply createNestedObject_loop_skip. assumption.
  - intros. apply createNestedObject_loop_all_skipped; assumption.
  - intros csvContent records r Hret Hr Hall.
    destruct (parseCSV_emitted _ _ _ Hret Hr) as (line & _ & Hb).
    exact (Hkeys _ _ _ Hb Hall).
  - vm_compute. reflexivity.
Qed.

Lemma createNestedObject_keys_witness :
  let r : record :=
    {[ str "name" := VObj {[ str "firstName" := VStr (str "Rohit") ]};
       str "age" := VNum (ofZ 35) ]} in
  createNestedObject [str "name.firstName"; str "age"; str " "]
                     [str "Rohit"; str "35"; str "x"] = Return r
  /\ Forall (fun header => [] ∉ split DOT (trim header) \/ trim header = [])
       [str "name.firstName"; str "age"; str " "]
  /\ getPath (VObj r) [str "name"; str "firstName"] = Some (VStr (str "Rohit"))
  /\ [] ∉ [str "name"; str "firstName"].
Proof.
  intros r.
  assert (Hr : createNestedObject [str "name.firstName"; str "age"; str " "]
                 [str "Rohit"; str "35"; str "x"] = Return r)
    by (vm_compute; reflexivity).
  assert (Hall : Forall (fun header => [] ∉ split DOT (trim header) \/ trim header = [])
                   [str "name.firstName"; str "age"; str " "]).
  { apply Forall_cons; split; [left; not_in_closed_list|].
    apply Forall_cons; split; [left; not_in_closed_list|].
    apply Forall_cons; split; [right; reflexivity|constructor]. }
  assert (Hget : getPath (VObj r) [str "name"; str "firstName"]
                 = Some (VStr (str "Rohit"))) by (vm_compute; reflexivity).
  split; [exact Hr|]. split; [exact Hall|]. split; [exact Hget|].
  exact (proj1 (proj2 (proj2 createNestedObject_keys)) _ _ _ Hr Hall _ _ Hget).
Defined.

(** C5 as stated fails when a header path has an empty segment: with the
    fourth column named [a.] the emitted record holds, under [a], a record
    whose key is the empty string. *)
Lemma empty_segment_key :
  exists r,
    parseCSV Samples.emptySegment = (Return [r], [])
    /\ getPath (VObj r) [str "a"; []] = Some (VNum (ofZ 2))
    /\ [] ∈ [str "a"; []].
Proof.
  eexists. split; [vm_compute; reflexivity|].
  split; [vm_compute; reflexivity|]. apply list_elem_of_In. simpl. auto.
Qed.

(** ** A quoted empty cell *)

(** C10, amended. In a row whose header paths run through no name that an
    object literal inherits (such as [toString.x] or [a.__proto__.b]), for a
    header path that is not empty once trimmed, and whose last segment is
    not [__proto__], a cell holding exactly two single quotes is not skipped
    (the test is on the text with its quotes) and is typed as the empty
    string: the record built from the row holds the empty string at the
    path, provided no later column that is set writes at the path or at a
    prefix of it. *)
Theorem quoted_empty_cell headers values r i header :
  plainHeaders headers ->
  createNestedObject headers values = Return r ->
  headers !! i = Some header ->
  values !! i = Some (str "''") ->
  trim header <> [] ->
  last (split DOT (trim header)) <> Some PROTO ->
  (forall j header' v', (i < j)%nat -> headers !! j = Some header' ->
     values !! j = Some v' ->
     trim header' = [] \/ trim v' = []
     \/ ~ split DOT (trim header') `prefix_of` split DOT (trim header)) ->
  trim (str "''") = str "''"
  /\ parseValue (str "''") = VStr []
  /\ getPath (VObj r) (split DOT (trim header)) = Some (VStr []).
Proof.
  intros _ Hr Hh Hv Hkey Hproto Hlater.
  split; [reflexivity|]. split; [reflexivity|].
  change (VStr []) with (parseValue (trim (str "''"))).
  eapply createNestedObject_loop_cell; eauto; discriminate.
Qed.

Lemma quoted_empty_cell_witness :
  let r : record :=
    {[ str "name" := VObj {[ str "firstName" := VStr (str "Rohit") ]};
       str "note" := VStr []; str "age" := VNum (ofZ 35) ]} in
  plainHeaders [str "name.firstName"; str "note"; str "age"]
  /\ createNestedObject [str "name.firstName"; str "note"; str "age"]
                        [str "Rohit"; str "''"; str "35"] = Return r
  /\ getPath (VObj r) [str "note"] = Some (VStr []).
Proof.
  intros r.
  assert (Hplain : plainHeaders [str "name.firstName"; str "note"; str "age"])
    by plain_paths.
  assert (Hr : createNestedObject [str "name.firstName"; str "note"; str "age"]
                 [str "Rohit"; str "''"; str "35"] = Return r)
    by (vm_compute; reflexivity).
  split; [exact Hplain|]. split; [exact Hr|].
  refine (proj2 (proj2 (quoted_empty_cell _ _ _ 1%nat (str "note") Hplain Hr
                          eq_refl eq_refl _ _ _))).
  - discriminate.
  - discriminate.
  - intros [|[|[|j]]] header' v' Hj H1 H2; try lia; [|discriminate].
    injection H1 as <-. right. right. intros [k Hk]. discriminate.
Defined.

(** C10 as stated fails for an empty header cell, whose pair is skipped, and
    for a column that a later column of the same name overwrites. *)
Lemma quoted_empty_cell_lost :
  (exists r,
     parseCSVLine (str "name.firstName,name.lastName,age,") !! 3%nat = Some []
     /\ parseCSVLine (str "Rohit,Prasad,35,''") !! 3%nat = Some (str "''")
     /\ parseCSV Samples.emptyHeaderCell = (Return [r], [])
     /\ getPath (VObj r) [[]] = None)
  /\ (exists r,
        parseCSVLine (str "name.firstName,name.lastName,age,tag,tag") !! 3%nat
        = Some (str "tag")
        /\ parseCSVLine (str "Rohit,Prasad,35,'',x") !! 3%nat = Some (str "''")
        /\ parseCSV Samples.duplicateColumn = (Return [r], [])
        /\ getPath (VObj r) [str "tag"] = Some (VStr (str "x"))).
Proof.
  split; eexists; (split; [reflexivity|]); (split; [reflexivity|]);
    (split; [vm_compute; reflexivity|]); vm_compute; reflexivity.
Qed.

(** ** Numbers: a literal never converts to NaN *)

Section Rounding.

Local Open Scope Z_scope.

Lemma shr_1_nonneg mrs : 0 <= shr_m mrs -> 0 <= shr_m (shr_1 mrs).
Proof.
  destruct mrs as [m r s]. simpl. destruct m as [|[p|p|]|[p|p|]]; simpl; lia.
Qed.

Lemma iter_pos_nonneg p : forall mrs,
  0 <= shr_m mrs -> 0 <= shr_m (SpecFloat.iter_pos shr_1 p mrs).
Proof.
  induction p as [p IH|p IH|]; intros mrs H; simpl;
    auto using shr_1_nonneg.
Qed.

Lemma shr_fexp_nonneg m e l :
  0 <= m -> 0 <= shr_m (fst (shr_fexp prec emax m e l)).
Proof.
  intros Hm. unfold shr_fexp, shr.
  assert (H0 : 0 <= shr_m (shr_record_of_loc m l))
    by (destruct l as [|[| |]]; exact Hm).
  destruct (fexp prec emax (Zdigits2 m + e) - e); simpl;
    auto using iter_pos_nonneg.
Qed.

Lemma round_nearest_even_nonneg m l : 0 <= m -> 0 <= round_nearest_even m l.
Proof.
  intros Hm. destruct l as [|[| |]]; simpl; try lia.
  destruct (Z.even m); lia.
Qed.

Lemma binary_round_aux_not_nan s m e l :
  0 <= m -> isNaNnum (binary_round_aux prec emax s m e l) = false.
Proof.
  intros Hm. unfold binary_round_aux.
  pose proof (shr_fexp_nonneg m e l Hm) as H1.
  destruct (shr_fexp prec emax m e l) as [mrs' e']. simpl in H1.
  pose proof (shr_fexp_nonneg _ e' loc_Exact
                (round_nearest_even_nonneg _ (loc_of_shr_record mrs') H1)) as H2.
  destruct (shr_fexp prec emax _ e' loc_Exact) as [mrs'' e'']. simpl in H2.
  destruct (shr_m mrs'') as [|p|p]; [reflexivity| |lia].
  destruct (e'' <=? emax - prec); reflexivity.
Qed.

Lemma binary_normalize_not_nan m e szero :
  isNaNnum (binary_normalize prec emax m e szero) = false.
Proof.
  destruct m as [|p|p]; simpl; [reflexivity| |]; unfold binary_round;
    destruct (shl_align _ _ _) as [mz ez]; apply binary_round_aux_not_nan; lia.
Qed.

Lemma ofZ_not_nan z : isNaNnum (ofZ z) = false.
Proof. apply binary_normalize_not_nan. Qed.

Lemma SFdiv_core_binary_nonneg m1 e1 m2 e2 :
  0 <= m1 -> 0 < m2 ->
  0 <= fst (fst (SFdiv_core_binary prec emax m1 e1 m2 e2)).
Proof.
  intros H1 H2. unfold SFdiv_core_binary.
  set (s := e1 - e2 - _). set (m' := match s with Z0 => m1 | _ => _ end).
  assert (Hm' : 0 <= m').
  { subst m'. destruct s; [exact H1| |lia]. apply Z.shiftl_nonneg. exact H1. }
  pose proof (Z.div_pos m' m2 Hm' H2) as Hq. unfold Z.div in Hq.
  destruct (Z.div_eucl m' m2) as [q r]. exact Hq.
Qed.

Lemma roundDecimal_not_nan neg m e : isNaNnum (roundDecimal neg m e) = false.
Proof.
  unfold roundDecimal. destruct m as [|p|p]; try reflexivity.
  destruct (Z.leb_spec 0 e) as [He|He]; [apply binary_normalize_not_nan|].
  pose proof (SFdiv_core_binary_nonneg (Z.pos p) 0 (10 ^ (- e)) 0) as H.
  destruct (SFdiv_core_binary prec emax (Z.pos p) 0 (10 ^ (- e)) 0) as [[q e'] l].
  apply binary_round_aux_not_nan. apply H; [lia|]. apply Z.pow_pos_nonneg; lia.
Qed.

End Rounding.

(** ** Scanning literals *)

Lemma span_spec p s :
  s = fst (span p s) ++ snd (span p s)
  /\ Forall (fun c => p c = true) (fst (span p s))
  /\ stopsAt p (snd (span p s)).
Proof.
  induction s as [|c s IH]; simpl; [auto|].
  destruct (p c) eqn:Hc; [|simpl; auto].
  destruct (span p s) as [ds rest]. simpl in *.
  destruct IH as (Hs & Hds & Hrest). repeat split; [f_equal|constructor|]; auto.
Qed.

Lemma span_app p ds rest :
  Forall (fun c => p c = true) ds -> stopsAt p rest ->
  span p (ds ++ rest) = (ds, rest).
Proof.
  intros Hds Hrest. induction Hds as [|c ds Hc _ IH]; simpl.
  - destruct rest as [|c rest]; [reflexivity|]. unfold stopsAt in Hrest.
    simpl. rewrite Hrest. reflexivity.
  - rewrite Hc, IH. reflexivity.
Qed.

(** Facts on single units, by arithmetic on their codes. *)
Ltac units :=
  unfold isDigit, isWhiteSpace, DOT, PLUS, MINUS, DQUOTE, SQUOTE in *;
  repeat match goal with
         | H : _ && _ = true |- _ => apply andb_true_iff in H as [? ?]
         | H : _ || _ = false |- _ => apply orb_false_iff in H as [? ?]
         | H : (_ <=? _) = true |- _ => apply N.leb_le in H
         | H : (_ =? _) = false |- _ => apply N.eqb_neq in H
         | H : (_ =? _) = true |- _ => apply N.eqb_eq in H
         end;
  repeat match goal with
         | |- _ && _ = false => apply andb_false_iff
         | |- _ || _ = false => apply orb_false_iff; split
         | |- (_ =? _) = false => apply N.eqb_neq
         | |- _ <> _ => intros ?
         end;
  subst; try discriminate; try lia.

Lemma digit_not_sign c : isDigit c = true -> (c =? PLUS) = false /\ (c =? MINUS) = false.
Proof. intros H. split; units. Qed.

Lemma scanSign_spec s :
  exists sgn, Sign sgn /\ s = sgn ++ snd (scanSign s).
Proof.
  destruct s as [|c s]; [exists []; unfold Sign; auto|]. simpl.
  destruct (N.eqb_spec c PLUS) as [->|_];
    [exists [PLUS]; unfold Sign; auto|].
  destruct (N.eqb_spec c MINUS) as [->|_];
    [exists [MINUS]; unfold Sign; auto|].
  exists []. unfold Sign. auto.
Qed.

(** After a sign, a string that does not start with a sign is what is left. *)
Lemma scanSign_app sgn u :
  Sign sgn -> stopsAt (fun c => (c =? PLUS) || (c =? MINUS)) u ->
  snd (scanSign (sgn ++ u)) = u.
Proof.
  intros [->|[->| ->]] Hu; [|reflexivity..].
  destruct u as [|c u]; [reflexivity|]. simpl in *.
  apply orb_false_iff in Hu as [-> ->]. reflexivity.
Qed.

Lemma scanExponent_sound s z :
  scanExponent s = (z, []) -> s = [] \/ ExponentPart s.
Proof.
  destruct s as [|c s1]; [auto|]. simpl.
  destruct ((c =? 101) || (c =? 69)) eqn:Hc; [|discriminate].
  destruct (scanSign_spec s1) as (sgn & Hsgn & Hs1).
  destruct (scanSign s1) as [neg s2]. simpl in Hs1.
  destruct (span_spec isDigit s2) as (Hs2 & Hds & _).
  destruct (span isDigit s2) as [ds s3]. simpl in Hs2, Hds.
  destruct ds as [|d ds]; [discriminate|]. intros [= _ ->].
  right. exists c, sgn, (d :: ds). rewrite app_nil_r in Hs2.
  apply orb_true_iff in Hc. rewrite !N.eqb_eq in Hc.
  repeat split; [congruence|exact Hc|exact Hsgn|discriminate|exact Hds].
Qed.

Lemma scanExponent_complete ex :
  ExponentPart ex -> exists z, scanExponent ex = (z, []).
Proof.
  intros (e & sgn & ds & -> & He & Hsgn & Hne & Hds). simpl.
  replace ((e =? 101) || (e =? 69)) with true
    by (destruct He as [->| ->]; reflexivity).
  assert (Hstop : stopsAt (fun c => (c =? PLUS) || (c =? MINUS)) ds).
  { destruct Hds as [|d ds Hd _]; [exact I|]. simpl.
    destruct (digit_not_sign d Hd) as [-> ->]. reflexivity. }
  pose proof (scanSign_app sgn ds Hsgn Hstop) as Hsign.
  destruct (scanSign (sgn ++ ds)) as [neg s2]. simpl in Hsign. subst s2.
  pose proof (span_app isDigit ds [] Hds I) as Hspan.
  rewrite app_nil_r in Hspan. rewrite Hspan.
  destruct ds; [congruence|]. eauto.
Qed.

Lemma isPrefix_spec p s : isPrefix p s = true -> s = p ++ drop (length p) s.
Proof.
  revert s. induction p as [|c p IH]; intros [|c' s]; simpl; try discriminate;
    [reflexivity..|].
  intros H. apply andb_true_iff in H as [Hc Hp]. apply N.eqb_eq in Hc as <-.
  f_equal. apply IH, Hp.
Qed.

(** An exponent, or nothing, does not start with a digit or a point. *)
Lemma exponent_stops ex :
  ex = [] \/ ExponentPart ex ->
  stopsAt isDigit ex /\ stopsAt (fun c => c =? DOT) ex.
Proof.
  intros [->|(e & sgn & ds & -> & He & _)]; [split; exact I|].
  simpl. destruct He as [->| ->]; split; reflexivity.
Qed.

Lemma scanExponent_opt ex :
  ex = [] \/ ExponentPart ex -> exists z, scanExponent ex = (z, []).
Proof.
  intros [->|H]; [exists 0%Z; reflexivity|apply scanExponent_complete, H].
Qed.

Lemma scanUnsigned_sound neg s x :
  scanUnsigned neg s = Some (x, []) -> s = str "Infinity" \/ DecimalBody s.
Proof.
  unfold scanUnsigned.
  destruct (isPrefix (str "Infinity") s) eqn:Hinf.
  { intros [= _ Hdrop]. left. apply isPrefix_spec in Hinf.
    change (length (str "Infinity")) with 8%nat in Hinf.
    rewrite Hdrop, app_nil_r in Hinf. exact Hinf. }
  destruct (span_spec isDigit s) as (Hs & Hip & _).
  destruct (span isDigit s) as [ip s1]. simpl in Hs, Hip.
  assert (Hnodot : match ip with
                   | [] => None
                   | _ :: _ => let '(ex, s4) := scanExponent s1 in
                               Some (roundDecimal neg (valueOfDigits 10 ip) ex, s4)
                   end = Some (x, []) -> DecimalBody s).
  { destruct ip as [|d ip]; [discriminate|].
    destruct (scanExponent s1) as [ex s4] eqn:Hex. intros [= _ ->].
    apply scanExponent_sound in Hex.
    exists (d :: ip), [], s1. split; [exact Hs|]. split; [exact Hip|].
    split; [left; split; [reflexivity|discriminate]|exact Hex]. }
  destruct s1 as [|c s2]; [intros H; right; auto|].
  destruct (N.eqb_spec c DOT) as [->|_]; [|intros H; right; auto].
  destruct (span_spec isDigit s2) as (Hs2 & Hfp & _).
  destruct (span isDigit s2) as [fp s3]. simpl in Hs2, Hfp.
  destruct (ip ++ fp) as [|d ds] eqn:Hds; [discriminate|].
  destruct (scanExponent s3) as [ex s4] eqn:Hex. intros [= _ ->].
  apply scanExponent_sound in Hex. right.
  exists ip, (DOT :: fp), s3. split; [|split; [exact Hip|split; [|exact Hex]]].
  - rewrite Hs, Hs2. reflexivity.
  - right. exists fp. repeat split; [exact Hfp|congruence].
Qed.

Lemma body_not_Infinity u :
  DecimalBody u -> isPrefix (str "Infinity") u = false.
Proof.
  intros (ip & frac & ex & -> & Hip & Hfrac & _).
  destruct Hip as [|d ip Hd _].
  - destruct Hfrac as [[_ Hne]|(fp & -> & _)]; [congruence|reflexivity].
  - rewrite <- app_comm_cons.
    change (str "Infinity") with (73 :: str "nfinity"). cbn [isPrefix].
    replace (73 =? d) with false; [reflexivity|].
    symmetry. units.
Qed.

Lemma scanUnsigned_complete neg s :
  s = str "Infinity" \/ DecimalBody s ->
  exists x, scanUnsigned neg s = Some (x, []).
Proof.
  intros [->|Hbody]; [eexists; reflexivity|].
  unfold scanUnsigned. rewrite (body_not_Infinity _ Hbody).
  destruct Hbody as (ip & frac & ex & -> & Hip & Hfrac & Hex).
  destruct (exponent_stops ex Hex) as [Hstop Hnodot].
  destruct (scanExponent_opt ex Hex) as [z Hz].
  destruct Hfrac as [[-> Hne]|(fp & -> & Hfp & Hne)].
  - simpl. rewrite (span_app _ _ _ Hip Hstop).
    destruct ip as [|d ip]; [congruence|]. rewrite Hz.
    destruct ex as [|c ex]; [eauto|]. simpl in Hnodot. rewrite Hnodot. eauto.
  - rewrite (span_app isDigit ip ((DOT :: fp) ++ ex) Hip eq_refl). simpl.
    rewrite (span_app _ _ _ Hfp Hstop).
    destruct (ip ++ fp); [congruence|]. rewrite Hz. eauto.
Qed.

Lemma scanDecimal_sound t x : scanDecimal t = Some (x, []) -> StrDecimalLiteral t.
Proof.
  unfold scanDecimal. destruct (scanSign_spec t) as (sgn & Hsgn & Ht).
  destruct (scanSign t) as [neg u]. simpl in Ht. intros H.
  exists sgn, u. eauto using scanUnsigned_sound.
Qed.

(** A body starts with [I], a digit or a point, none of which is a sign. *)
Lemma body_not_sign u :
  u = str "Infinity" \/ DecimalBody u ->
  stopsAt (fun c => (c =? PLUS) || (c =? MINUS)) u.
Proof.
  intros [->|(ip & frac & ex & -> & Hip & Hfrac & _)]; [reflexivity|].
  destruct Hip as [|d ip Hd _].
  - destruct Hfrac as [[_ Hne]|(fp & -> & _)]; [congruence|reflexivity].
  - simpl. destruct (digit_not_sign d Hd) as [-> ->]. reflexivity.
Qed.

Lemma scanDecimal_complete t :
  StrDecimalLiteral t -> exists x, scanDecimal t = Some (x, []).
Proof.
  intros (sgn & u & -> & Hsgn & Hu). unfold scanDecimal.
  pose proof (scanSign_app sgn u Hsgn (body_not_sign u Hu)) as Hsign.
  destruct (scanSign (sgn ++ u)) as [neg u']. simpl in Hsign. subst u'.
  apply scanUnsigned_complete, Hu.
Qed.

Lemma scanUnsigned_not_nan neg s x rest :
  scanUnsigned neg s = Some (x, rest) -> isNaNnum x = false.
Proof.
  unfold scanUnsigned. destruct (isPrefix _ s); [intros [= <- _]; reflexivity|].
  destruct (span isDigit s) as [ip s1].
  assert (Hnodot : match ip with
                   | [] => None
                   | _ :: _ => let '(ex, s4) := scanExponent s1 in
                               Some (roundDecimal neg (valueOfDigits 10 ip) ex, s4)
                   end = Some (x, rest) -> isNaNnum x = false).
  { destruct ip; [discriminate|]. destruct (scanExponent s1).
    intros [= <- _]. apply roundDecimal_not_nan. }
  destruct s1 as [|c s2]; [exact Hnodot|].
  destruct (c =? DOT); [|exact Hnodot].
  destruct (span isDigit s2) as [fp s3]. destruct (ip ++ fp); [discriminate|].
  destruct (scanExponent s3). intros [= <- _]. apply roundDecimal_not_nan.
Qed.

Lemma scanDecimal_not_nan s x rest :
  scanDecimal s = Some (x, rest) -> isNaNnum x = false.
Proof.
  unfold scanDecimal. destruct (scanSign s). apply scanUnsigned_not_nan.
Qed.

Lemma scanUnsigned_is_Some neg s :
  is_Some (scanUnsigned neg s) <-> startsUnsigned s = true.
Proof.
  unfold scanUnsigned, startsUnsigned.
  destruct (isPrefix (str "Infinity") s); [split; eauto|].
  rewrite orb_false_l.
  destruct s as [|c rest]; [split; [intros [? [=]]|discriminate]|].
  cbn [span]. destruct (isDigit c) eqn:Hc.
  - split; [reflexivity|intros _].
    destruct (span isDigit rest) as [ds s1].
    assert (Hnodot : is_Some (let '(ex, s4) := scanExponent s1 in
              Some (roundDecimal neg (valueOfDigits 10 (c :: ds)) ex, s4)))
      by (destruct (scanExponent s1); eauto).
    destruct s1 as [|c' s2]; [exact Hnodot|].
    destruct (c' =? DOT); [|exact Hnodot].
    destruct (span isDigit s2) as [fp s3]. simpl.
    destruct (scanExponent s3); eauto.
  - rewrite orb_false_l. destruct (c =? DOT); [|split; [intros [? [=]]|discriminate]].
    rewrite andb_true_l. destruct rest as [|d rest];
      [split; [intros [? [=]]|discriminate]|].
    cbn [span]. destruct (isDigit d); [|split; [intros [? [=]]|discriminate]].
    split; [reflexivity|intros _].
    destruct (span isDigit rest) as [fp s3]. simpl.
    destruct (scanExponent s3); eauto.
Qed.

Lemma isPrefix_app p s r : isPrefix p s = true -> isPrefix p (s ++ r) = true.
Proof.
  revert s. induction p as [|c p IH]; intros [|c' s]; simpl; try discriminate;
    [reflexivity..|].
  intros H. apply andb_true_iff in H as [-> Hp]. apply IH, Hp.
Qed.

Lemma startsUnsigned_app s r :
  startsUnsigned s = true -> startsUnsigned (s ++ r) = true.
Proof.
  unfold startsUnsigned. intros H. apply orb_true_iff in H as [H|H].
  - rewrite (isPrefix_app _ _ _ H). reflexivity.
  - apply orb_true_iff. right. destruct s as [|c [|d rest]]; try discriminate.
    + rewrite andb_false_r, orb_false_r in H. simpl. rewrite H. reflexivity.
    + exact H.
Qed.

(** A literal at the start of a string is still there when the string goes on. *)
Lemma scanDecimal_app t r :
  is_Some (scanDecimal t) -> is_Some (scanDecimal (t ++ r)).
Proof.
  unfold scanDecimal. destruct t as [|c t]; [intros [? [=]]|].
  rewrite <- app_comm_cons. cbn [scanSign].
  destruct (c =? PLUS); [|destruct (c =? MINUS)];
    rewrite !scanUnsigned_is_Some; try rewrite app_comm_cons;
    apply startsUnsigned_app.
Qed.

Lemma forallb_Forall (p : N -> bool) l :
  forallb p l = true <-> Forall (fun c => p c = true) l.
Proof.
  induction l as [|c l IH]; simpl; [split; [constructor|reflexivity]|].
  rewrite andb_true_iff, IH, Forall_cons. reflexivity.
Qed.

Lemma radixOfMark_spec mark R :
  radixOfMark mark = Some R
  <-> (R = 16 /\ (mark = 120 \/ mark = 88)
       \/ R = 8 /\ (mark = 111 \/ mark = 79)
       \/ R = 2 /\ (mark = 98 \/ mark = 66)).
Proof.
  unfold radixOfMark.
  destruct (N.eqb_spec mark 120) as [->|?]; [simpl; split; [intros [= <-]; auto|
    intros [[-> _]|[[_ [[=]|[=]]]|[_ [[=]|[=]]]]]; reflexivity]|].
  destruct (N.eqb_spec mark 88) as [->|?]; [simpl; split; [intros [= <-]; auto|
    intros [[-> _]|[[_ [[=]|[=]]]|[_ [[=]|[=]]]]]; reflexivity]|].
  destruct (N.eqb_spec mark 111) as [->|?]; [simpl; split; [intros [= <-]; auto|
    intros [[_ [[=]|[=]]]|[[-> _]|[_ [[=]|[=]]]]]; reflexivity]|].
  destruct (N.eqb_spec mark 79) as [->|?]; [simpl; split; [intros [= <-]; auto|
    intros [[_ [[=]|[=]]]|[[-> _]|[_ [[=]|[=]]]]]; reflexivity]|].
  destruct (N.eqb_spec mark 98) as [->|?]; [simpl; split; [intros [= <-]; auto 6|
    intros [[_ [[=]|[=]]]|[[_ [[=]|[=]]]|[-> _]]]; reflexivity]|].
  destruct (N.eqb_spec mark 66) as [->|?]; [simpl; split; [intros [= <-]; auto 6|
    intros [[_ [[=]|[=]]]|[[_ [[=]|[=]]]|[-> _]]]; reflexivity]|].
  simpl. split; [discriminate|]. intros [[_ [|]]|[[_ [|]]|[_ [|]]]]; congruence.
Qed.

Lemma scanNonDecimal_spec t :
  is_Some (scanNonDecimal t) <-> NonDecimalIntegerLiteral t.
Proof.
  unfold scanNonDecimal, NonDecimalIntegerLiteral. split.
  - destruct t as [|c0 [|c1 ds]]; [intros [? [=]]..|].
    destruct (N.eqb_spec c0 48) as [->|_]; [|intros [? [=]]].
    destruct (radixOfMark c1) as [R|] eqn:HR; [|intros [? [=]]].
    destruct ds as [|d ds]; [intros [? [=]]|].
    destruct (forallb (isRadixDigit R) (d :: ds)) eqn:Hall; [|intros [? [=]]].
    intros _. exists c1, R, (d :: ds).
    split; [reflexivity|]. split; [apply radixOfMark_spec, HR|].
    split; [discriminate|]. apply forallb_Forall, Hall.
  - intros (mark & R & ds & -> & HR & Hne & Hall).
    apply radixOfMark_spec in HR. apply forallb_Forall in Hall.
    rewrite N.eqb_refl, HR. destruct ds; [congruence|]. rewrite Hall. eauto.
Qed.

Lemma scanNonDecimal_not_nan t x : scanNonDecimal t = Some x -> isNaNnum x = false.
Proof.
  unfold scanNonDecimal. destruct t as [|c0 [|c1 ds]]; try discriminate.
  destruct (c0 =? 48); [|discriminate].
  destruct (radixOfMark c1); [|discriminate]. destruct ds; [discriminate|].
  destruct (forallb _ _); [|discriminate]. intros [= <-]. apply ofZ_not_nan.
Qed.

(** ** Trimming *)

Lemma trimStart_split s :
  exists ws, s = ws ++ trimStart s /\ Forall (fun c => isWhiteSpace c = true) ws.
Proof.
  induction s as [|c s (ws & Hs & Hws)]; [exists []; auto|]. simpl.
  destruct (isWhiteSpace c) eqn:Hc; [|exists []; auto].
  exists (c :: ws). split; [simpl; congruence|constructor; assumption].
Qed.

Lemma trimStart_stops s : stopsAt isWhiteSpace (trimStart s).
Proof.
  induction s as [|c s IH]; [exact I|]. simpl.
  destruct (isWhiteSpace c) eqn:Hc; [exact IH|exact Hc].
Qed.

Lemma trimStart_id s : stopsAt isWhiteSpace s -> trimStart s = s.
Proof. destruct s as [|c s]; [reflexivity|]. simpl. intros ->. reflexivity. Qed.

Lemma trimEnd_split s : exists ws, s = trimEnd s ++ ws.
Proof.
  unfold trimEnd. destruct (trimStart_split (rev s)) as (ws & Hs & _).
  exists (rev ws). rewrite <- rev_app_distr, <- Hs, rev_involutive. reflexivity.
Qed.

Lemma trimStart_trim v : exists r, trimStart v = trim v ++ r.
Proof. apply trimEnd_split. Qed.

Lemma trim_nil v : trim v = [] -> trimStart v = [].
Proof.
  unfold trim, trimEnd. intros H.
  apply (f_equal (@rev N)) in H. rewrite rev_involutive in H. simpl in H.
  destruct (trimStart_split (rev (trimStart v))) as (ws & Hs & Hws).
  rewrite H, app_nil_r in Hs.
  pose proof (trimStart_stops v) as Hstop.
  destruct (trimStart v) as [|c x]; [reflexivity|]. exfalso.
  assert (Hc : c ∈ ws).
  { rewrite <- Hs. apply list_elem_of_In. rewrite <- in_rev. left. reflexivity. }
  rewrite Forall_forall in Hws. apply Hws in Hc. simpl in Hstop. congruence.
Qed.

Lemma trim_id v : Forall (fun c => isWhiteSpace c = false) v -> trim v = v.
Proof.
  intros Hv. unfold trim, trimEnd.
  assert (Hstop : forall s, Forall (fun c => isWhiteSpace c = false) s ->
                            stopsAt isWhiteSpace s)
    by (intros s [|c s' Hc _]; [exact I|exact Hc]).
  rewrite (trimStart_id v (Hstop v Hv)).
  rewrite trimStart_id; [apply rev_involutive|].
  apply Hstop. apply Forall_rev, Hv.
Qed.

(** ** The number branch *)

Lemma literalUnit_plain c :
  literalUnit c -> isWhiteSpace c = false /\ c <> DQUOTE /\ c <> SQUOTE.
Proof.
  intros [H|[->|[->|[->|[->| ->]]]]]; try (repeat split; discriminate).
  assert (Hc : 48 <= c <= 57) by (unfold isDigit in H; units).
  split; [|split; unfold DQUOTE, SQUOTE; lia]. unfold isWhiteSpace.
  repeat match goal with
         | |- context [?a =? ?b] => destruct (N.eqb_spec a b); [lia|]
         | |- context [?a <=? ?b] => destruct (N.leb_spec a b); [lia|]
         end.
  reflexivity.
Qed.

Lemma Digits_units ds : Digits ds -> Forall literalUnit ds.
Proof.
  intros H. eapply Forall_impl; [exact H|]. unfold literalUnit. auto.
Qed.

Lemma Sign_units sgn : Sign sgn -> Forall literalUnit sgn.
Proof.
  intros [->|[->| ->]]; [constructor|..];
    (constructor; [unfold literalUnit; tauto|constructor]).
Qed.

Lemma FloatLiteral_units v : FloatLiteral v -> Forall literalUnit v.
Proof.
  intros (sgn & u & -> & Hsgn & ip & frac & ex & -> & Hip & Hfrac & Hex).
  repeat apply Forall_app_2; auto using Sign_units, Digits_units.
  - destruct Hfrac as [[-> _]|(fp & -> & Hfp & _)]; [constructor|].
    constructor; [unfold literalUnit; auto|apply Digits_units, Hfp].
  - destruct Hex as [->|(e & sgn' & ds & -> & He & Hsgn' & _ & Hds)]; [constructor|].
    constructor; [unfold literalUnit; tauto|].
    apply Forall_app_2; auto using Sign_units, Digits_units.
Qed.

Lemma FloatLiteral_decimal v : FloatLiteral v -> StrDecimalLiteral v.
Proof. intros (sgn & u & Hv & Hsgn & Hu). exists sgn, u. auto. Qed.

(** On a floating-point literal the three conversions read the whole
    string: [Number] and [parseFloat] give the same number, which is no NaN,
    and there is no quote to remove. *)
Lemma FloatLiteral_conversions v :
  FloatLiteral v ->
  unquote v = v /\ ToNumber v = parseFloat v /\ isNaNnum (parseFloat v) = false.
Proof.
  intros Hv. pose proof (FloatLiteral_units v Hv) as Hunits.
  destruct (scanDecimal_complete v (FloatLiteral_decimal v Hv)) as [x Hx].
  assert (Htrim : trim v = v).
  { apply trim_id. eapply Forall_impl; [exact Hunits|].
    intros c Hc. apply literalUnit_plain, Hc. }
  assert (HtrimStart : trimStart v = v).
  { apply trimStart_id. destruct Hunits as [|c v' Hc _]; [exact I|].
    apply literalUnit_plain, Hc. }
  split; [|split].
  - unfold unquote, wrapped.
    destruct Hunits as [|c v' Hc _]; [reflexivity|].
    apply literalUnit_plain in Hc as (_ & Hd & Hs). simpl.
    destruct (N.eqb_spec c DQUOTE); [contradiction|].
    destruct (N.eqb_spec c SQUOTE); [contradiction|]. reflexivity.
  - unfold ToNumber, parseFloat. rewrite Htrim, HtrimStart.
    destruct v; [discriminate|]. rewrite Hx. reflexivity.
  - unfold parseFloat. rewrite HtrimStart, Hx.
    eapply scanDecimal_not_nan, Hx.
Qed.

(** C8. The strings 35 and 035 are typed as the integer 35, by the integer
    branch, and 35.5 as the number 71/2, by the floating-point branch. On a
    floating-point literal the result is the integer parse when it equals
    the floating-point parse, and the floating-point parse otherwise; leading
    zeros do not change the integer parse. *)
Theorem parseValue_integer_or_float :
  (parseValue (str "35") = VNum (ofZ 35)
   /\ numEq (parseInt (str "35")) (parseFloat (str "35")) = true)
  /\ (parseValue (str "35.5") = VNum (SFdiv prec emax (ofZ 71) (ofZ 2))
      /\ numEq (parseInt (str "35.5")) (parseFloat (str "35.5")) = false)
  /\ (parseValue (str "035") = VNum (ofZ 35)
      /\ parseInt (str "035") = ofZ 35
      /\ numEq (parseInt (str "035")) (parseFloat (str "035")) = true)
  /\ (forall v, FloatLiteral v ->
        parseValue v
        = VNum (if numEq (parseInt v) (parseFloat v) then parseInt v
                else parseFloat v)).
Proof.
  split; [split; vm_compute; reflexivity|].
  split; [split; vm_compute; reflexivity|].
  split; [repeat split; vm_compute; reflexivity|].
  intros v Hv. destruct (FloatLiteral_conversions v Hv) as (Hq & Hnum & Hnan).
  unfold parseValue, typed, numeric, isNaN, looseEq.
  rewrite Hq, Hnum, Hnan. reflexivity.
Qed.

Lemma parseValue_integer_or_float_witness :
  FloatLiteral (str "1e3")
  /\ parseValue (str "1e3") = VNum (ofZ 1000)
  /\ numEq (parseInt (str "1e3")) (parseFloat (str "1e3")) = false.
Proof.
  assert (H : FloatLiteral (str "1e3")).
  { exists [], (str "1e3"). split; [reflexivity|]. split; [left; reflexivity|].
    exists (str "1"), [], (str "e3"). split; [reflexivity|].
    split; [repeat constructor|].
    split; [left; split; [reflexivity|discriminate]|]. right.
    exists 101, [], (str "3"). split; [reflexivity|]. split; [auto|].
    split; [left; reflexivity|]. split; [discriminate|repeat constructor]. }
  split; [exact H|].
  rewrite (proj2 (proj2 (proj2 parseValue_integer_or_float)) _ H).
  split; vm_compute; reflexivity.
Defined.

Lemma isNaN_false_iff v :
  isNaN v = false <-> trim v = [] \/ NumericLiteral (trim v).
Proof.
  unfold isNaN, ToNumber, NumericLiteral. split.
  - destruct (trim v) as [|c t]; [auto|]. intros H. right.
    destruct (scanDecimal (c :: t)) as [[x [|c' rest]]|] eqn:Hd;
      [left; eapply scanDecimal_sound, Hd|right..];
      apply scanNonDecimal_spec;
      destruct (scanNonDecimal (c :: t)); eauto; discriminate.
  - intros [->|[Hd|Hn]]; [reflexivity| |].
    + destruct (scanDecimal_complete _ Hd) as [x Hx].
      destruct (trim v); [discriminate|]. rewrite Hx.
      eapply scanDecimal_not_nan, Hx.
    + apply scanNonDecimal_spec in Hn as [y Hy].
      destruct (trim v) as [|c t]; [discriminate|].
      destruct (scanDecimal (c :: t)) as [[x [|c' rest]]|] eqn:Hd;
        [eapply scanDecimal_not_nan, Hd|rewrite Hy..];
        eapply scanNonDecimal_not_nan, Hy.
Qed.

Lemma parseFloat_not_nan_iff v :
  isNaNnum (parseFloat v) = false <-> is_Some (scanDecimal (trimStart v)).
Proof.
  unfold parseFloat. destruct (scanDecimal (trimStart v)) as [[x rest]|] eqn:Hd.
  - split; [eauto|]. intros _. eapply scanDecimal_not_nan, Hd.
  - split; [discriminate|intros [? [=]]].
Qed.

(** A numeric literal starts with a decimal literal: itself, or the [0] of
    [0x], [0o], [0b]. *)
Lemma NumericLiteral_starts t : NumericLiteral t -> is_Some (scanDecimal t).
Proof.
  intros [Hd|(mark & R & ds & -> & _)].
  - destruct (scanDecimal_complete t Hd) as [x Hx]. eauto.
  - unfold scanDecimal. cbn [scanSign]. apply scanUnsigned_is_Some. reflexivity.
Qed.

(** The test of the number branch succeeds exactly on the strings that,
    once trimmed, are numeric literals. *)
Lemma numeric_iff v : numeric v = true <-> NumericLiteral (trim v).
Proof.
  unfold numeric. rewrite andb_true_iff, !negb_true_iff.
  rewrite isNaN_false_iff, parseFloat_not_nan_iff. split.
  - intros [[Hnil|Hlit] Hf]; [|exact Hlit]. exfalso.
    rewrite (trim_nil v Hnil) in Hf. destruct Hf as [? [=]].
  - intros Hlit. split; [auto|].
    destruct (trimStart_trim v) as [r ->].
    apply scanDecimal_app, NumericLiteral_starts, Hlit.
Qed.

Lemma typed_number_iff value :
  (exists x, typed value = VNum x) <-> numeric value = true.
Proof.
  unfold typed. destruct (numeric value); [split; eauto|].
  split; [|discriminate]. intros [x Hx].
  repeat (destruct (bool_decide _); [discriminate|]). discriminate.
Qed.

(** C4, amended. After the optional removal of quotes, a value is typed as a
    number exactly when, with its leading and trailing white space removed,
    it is a numeric literal of the runtime: an optionally signed decimal
    literal (digits, optional point, optional exponent, or [Infinity]), or an
    unsigned [0x], [0o] or [0b] integer literal. The floating-point literals
    of the specification are among these. Any other value falls through to
    the boolean and string rules. *)
Theorem parseValue_number_iff (v : jstring) :
  ((exists x, parseValue v = VNum x) <-> NumericLiteral (trim (unquote v)))
  /\ (FloatLiteral (unquote v) -> exists x, parseValue v = VNum x)
  /\ (~ NumericLiteral (trim (unquote v)) ->
      parseValue v
      = if bool_decide (toLowerCase (unquote v) = str "true") then VBool true
        else if bool_decide (toLowerCase (unquote v) = str "false") then VBool false
        else VStr (unquote v)).
Proof.
  unfold parseValue. split; [|split].
  - rewrite typed_number_iff. apply numeric_iff.
  - intros Hv. apply typed_number_iff, numeric_iff. left.
    rewrite trim_id; [apply FloatLiteral_decimal, Hv|].
    eapply Forall_impl; [apply FloatLiteral_units, Hv|].
    intros c Hc. apply literalUnit_plain, Hc.
  - intros Hnot. unfold typed.
    destruct (numeric (unquote v)) eqn:Hnum; [|reflexivity].
    apply numeric_iff in Hnum. contradiction.
Qed.

Lemma not_FloatLiteral v c : c ∈ v -> ~ literalUnit c -> ~ FloatLiteral v.
Proof.
  intros Hc Hnot Hv. apply FloatLiteral_units in Hv.
  rewrite Forall_forall in Hv. auto.
Qed.

(** C4 as stated fails on [0x10], on [Infinity] and on a 5 between spaces
    inside quotes: none is a floating-point literal, and each is typed as a
    number. The binary literal [0b101] is typed as the number 0, the value of
    its first unit. *)
Lemma hexadecimal_typed_as_number :
  (parseValue (str "0x10") = VNum (ofZ 16)
   /\ unquote (str "0x10") = str "0x10"
   /\ ~ FloatLiteral (str "0x10"))
  /\ (parseValue (str "Infinity") = VNum (S754_infinity false)
      /\ unquote (str "Infinity") = str "Infinity"
      /\ ~ FloatLiteral (str "Infinity"))
  /\ (parseValue (str "' 5 '") = VNum (ofZ 5)
      /\ unquote (str "' 5 '") = str " 5 "
      /\ ~ FloatLiteral (str " 5 "))
  /\ (parseValue (str "0b101") = VNum (ofZ 0)
      /\ ~ FloatLiteral (str "0b101")).
Proof.
  assert (Hunit : forall c, literalUnit c ->
            (48 <= c <= 57) \/ c = 46 \/ c = 43 \/ c = 45 \/ c = 101 \/ c = 69).
  { intros c [H|H]; [left; unfold isDigit in H; units|right; exact H]. }
  repeat split; try (vm_compute; reflexivity).
  - apply (not_FloatLiteral _ 120); [apply list_elem_of_In; vm_compute; tauto|].
    intros H. apply Hunit in H. lia.
  - apply (not_FloatLiteral _ 73); [apply list_elem_of_In; vm_compute; tauto|].
    intros H. apply Hunit in H. lia.
  - apply (not_FloatLiteral _ 32); [apply list_elem_of_In; vm_compute; tauto|].
    intros H. apply Hunit in H. lia.
  - apply (not_FloatLiteral _ 98); [apply list_elem_of_In; vm_compute; tauto|].
    intros H. apply Hunit in H. lia.
Qed.

Lemma parseValue_number_iff_witness :
  NumericLiteral (trim (unquote (str " 0x1F ")))
  /\ exists x, parseValue (str " 0x1F ") = VNum x.
Proof.
  assert (H : NumericLiteral (trim (unquote (str " 0x1F ")))).
  { right. exists 120, 16, (str "1F"). split; [reflexivity|].
    split; [auto|]. split; [discriminate|repeat constructor]. }
  split; [exact H|].
  exact (proj2 (proj1 (parseValue_number_iff (str " 0x1F "))) H).
Defined.

(** ** More on trimming *)

Lemma trimStart_app_ws w s : allWhiteSpace w -> trimStart (w ++ s) = trimStart s.
Proof.
  intros Hw. induction Hw as [|c w Hc _ IH]; [reflexivity|].
  simpl. rewrite Hc. exact IH.
Qed.

Lemma trimStart_all_ws w : allWhiteSpace w -> trimStart w = [].
Proof.
  intros Hw. rewrite <- (app_nil_r w). rewrite (trimStart_app_ws _ _ Hw). reflexivity.
Qed.

Lemma trimStart_app_l s t : trimStart s <> [] -> trimStart (s ++ t) = trimStart s ++ t.
Proof.
  induction s as [|c s IH]; simpl; [congruence|].
  destruct (isWhiteSpace c); [exact IH|reflexivity].
Qed.

Lemma trimStart_nil_all_ws s : trimStart s = [] -> allWhiteSpace s.
Proof.
  induction s as [|c s IH]; simpl; [intros _; constructor|].
  destruct (isWhiteSpace c) eqn:Hc; [|discriminate].
  intros H. apply Forall_cons. split; [exact Hc|exact (IH H)].
Qed.

Lemma trimEnd_app_ws s w : allWhiteSpace w -> trimEnd (s ++ w) = trimEnd s.
Proof.
  intros Hw. unfold trimEnd. rewrite rev_app_distr.
  rewrite trimStart_app_ws; [reflexivity|]. apply Forall_rev, Hw.
Qed.

Lemma trim_app_ws_r s w : allWhiteSpace w -> trim (s ++ w) = trim s.
Proof.
  intros Hw. unfold trim. destruct (trimStart s) as [|c x] eqn:Hs.
  - rewrite trimStart_all_ws; [reflexivity|].
    apply Forall_app_2; [apply trimStart_nil_all_ws, Hs|exact Hw].
  - rewrite trimStart_app_l by congruence. rewrite Hs. apply trimEnd_app_ws, Hw.
Qed.

Lemma trim_app_ws_l w s : allWhiteSpace w -> trim (w ++ s) = trim s.
Proof. intros Hw. unfold trim. rewrite trimStart_app_ws by exact Hw. reflexivity. Qed.

(** Trimming twice is trimming once. *)
Lemma trim_trim s : trim (trim s) = trim s.
Proof.
  unfold trim at 2. unfold trimEnd.
  set (x := trimStart s). set (y := trimStart (rev x)).
  assert (Hy : stopsAt isWhiteSpace y) by apply trimStart_stops.
  destruct (trimStart_split (rev x)) as (w & Hx & Hw). fold y in Hx.
  assert (Hhead : stopsAt isWhiteSpace (rev y)).
  { pose proof (trimStart_stops s) as Hstop. fold x in Hstop.
    apply (f_equal (@rev N)) in Hx. rewrite rev_involutive, rev_app_distr in Hx.
    destruct (rev y) as [|c r]; [exact I|]. rewrite Hx in Hstop. exact Hstop. }
  unfold trim, trimEnd. rewrite (trimStart_id _ Hhead), rev_involutive.
  rewrite (trimStart_id _ Hy). reflexivity.
Qed.

(** ** More on the tokenizer *)

Lemma ws_not_special c :
  isWhiteSpace c = true -> (c =? DQUOTE) = false /\ (c =? COMMA) = false.
Proof.
  intros H. unfold DQUOTE, COMMA.
  destruct (N.eqb_spec c 34) as [->|_]; [discriminate|].
  destruct (N.eqb_spec c 44) as [->|_]; [discriminate|]. auto.
Qed.

(** White space goes to the accumulator, whatever the state. *)
Lemma loop_ws w : forall rest values current inQuotes,
  allWhiteSpace w ->
  parseCSVLine_loop (w ++ rest) values current inQuotes
  = parseCSVLine_loop rest values (current ++ w) inQuotes.
Proof.
  induction w as [|c w IH]; intros rest values current inQuotes Hw.
  - rewrite app_nil_r. reflexivity.
  - apply Forall_cons in Hw as [Hc Hw]. destruct (ws_not_special c Hc) as [Hq Hcomma].
    simpl. rewrite Hq, Hcomma. simpl. rewrite IH by exact Hw.
    rewrite <- app_assoc. reflexivity.
Qed.

Lemma sameOnceTrimmed_app c1 c2 s :
  sameOnceTrimmed c1 c2 -> sameOnceTrimmed (c1 ++ s) (c2 ++ s).
Proof. intros H t. rewrite <- !app_assoc. apply H. Qed.

Lemma sameOnceTrimmed_trim c1 c2 : sameOnceTrimmed c1 c2 -> trim c1 = trim c2.
Proof. intros H. specialize (H []). rewrite !app_nil_r in H. exact H. Qed.

Lemma loop_sameOnceTrimmed (n : nat) : forall line values c1 c2 inQuotes,
  (length line <= n)%nat -> sameOnceTrimmed c1 c2 ->
  parseCSVLine_loop line values c1 inQuotes
  = parseCSVLine_loop line values c2 inQuotes.
Proof.
  induction n as [|n IH]; intros [|c rest] values c1 c2 inQuotes Hn Hsame;
    simpl in *; try lia;
    try (rewrite (sameOnceTrimmed_trim _ _ Hsame); reflexivity).
  assert (Hrest : forall vs q a b, sameOnceTrimmed a b ->
            parseCSVLine_loop rest vs a q = parseCSVLine_loop rest vs b q)
    by (intros; apply IH; [lia|assumption]).
  destruct (c =? DQUOTE).
  - destruct rest as [|c' rest']; [auto|].
    destruct (inQuotes && (c' =? DQUOTE)); [|auto].
    apply IH; [simpl in Hn; lia|apply sameOnceTrimmed_app, Hsame].
  - destruct ((c =? COMMA) && negb inQuotes).
    + rewrite (sameOnceTrimmed_trim _ _ Hsame). reflexivity.
    + apply Hrest, sameOnceTrimmed_app, Hsame.
Qed.

(** White space at the end of the line is trimmed off the last field. *)
Lemma loop_trailing_ws (n : nat) : forall line w values current inQuotes,
  (length line <= n)%nat -> allWhiteSpace w ->
  parseCSVLine_loop (line ++ w) values current inQuotes
  = parseCSVLine_loop line values current inQuotes.
Proof.
  assert (Hend : forall w values current inQuotes, allWhiteSpace w ->
            parseCSVLine_loop w values current inQuotes
            = parseCSVLine_loop [] values current inQuotes).
  { intros w values current inQuotes Hw.
    rewrite <- (app_nil_r w) at 1. rewrite loop_ws by exact Hw. simpl.
    rewrite trim_app_ws_r by exact Hw. reflexivity. }
  induction n as [|n IH]; intros [|c rest] w values current inQuotes Hn Hw;
    try (simpl in Hn; lia); try (apply Hend, Hw).
  assert (Hrest : forall vs cur q,
            parseCSVLine_loop (rest ++ w) vs cur q = parseCSVLine_loop rest vs cur q)
    by (intros; apply IH; [simpl in Hn; lia|exact Hw]).
  rewrite <- app_comm_cons. cbn [parseCSVLine_loop].
  destruct (c =? DQUOTE).
  - destruct rest as [|c' rest'].
    + rewrite app_nil_l. destruct w as [|c' w']; [reflexivity|].
      pose proof Hw as Hw'. apply Forall_cons in Hw' as [Hc' _].
      destruct (ws_not_special c' Hc') as [-> _]. rewrite andb_false_r.
      apply Hend, Hw.
    + rewrite <- app_comm_cons. destruct (inQuotes && (c' =? DQUOTE)).
      * apply IH; [simpl in Hn; lia|exact Hw].
      * rewrite app_comm_cons. apply Hrest.
  - destruct ((c =? COMMA) && negb inQuotes); apply Hrest.
Qed.

(** ** Fields of a line *)

Lemma split_cons sep s : exists piece pieces, split sep s = piece :: pieces.
Proof.
  destruct s as [|c s]; simpl; [eauto|].
  destruct (c =? sep); [eauto|]. destruct (split sep s); eauto.
Qed.

Lemma loop_no_quote line : forall values current piece pieces,
  DQUOTE ∉ line -> split COMMA line = piece :: pieces ->
  parseCSVLine_loop line values current false
  = values ++ trim (current ++ piece) :: map trim pieces.
Proof.
  induction line as [|c rest IH]; intros values current piece pieces Hq Hs.
  - injection Hs as <- <-. simpl. rewrite app_nil_r. reflexivity.
  - apply not_elem_of_cons in Hq as [Hc Hq]. simpl in Hs |- *.
    destruct (N.eqb_spec c DQUOTE) as [|_]; [congruence|].
    destruct (split_cons COMMA rest) as (p & ps & Hrest). rewrite Hrest in Hs.
    destruct (c =? COMMA); simpl; injection Hs as <- <-.
    + rewrite (IH _ _ _ _ Hq Hrest), <- app_assoc, app_nil_r. reflexivity.
    + rewrite (IH _ _ _ _ Hq Hrest), <- app_assoc. reflexivity.
Qed.

Lemma loop_fields_trimmed (n : nat) : forall line values current inQuotes,
  (length line <= n)%nat ->
  Forall (fun field => trim field = field) values ->
  Forall (fun field => trim field = field)
    (parseCSVLine_loop line values current inQuotes).
Proof.
  assert (Hsnoc : forall values current,
            Forall (fun field => trim field = field) values ->
            Forall (fun field => trim field = field) (values ++ [trim current])).
  { intros values current Hv. apply Forall_app_2; [exact Hv|].
    constructor; [apply trim_trim|constructor]. }
  induction n as [|n IH]; intros [|c rest] values current inQuotes Hn Hv;
    simpl in *; try lia; auto.
  assert (Hrest : forall vs cur q, Forall (fun field => trim field = field) vs ->
            Forall (fun field => trim field = field) (parseCSVLine_loop rest vs cur q))
    by (intros; apply IH; [lia|assumption]).
  destruct (c =? DQUOTE).
  - destruct rest as [|c' rest']; [auto|].
    destruct (inQuotes && (c' =? DQUOTE)); [|auto].
    apply IH; [simpl in Hn; lia|exact Hv].
  - destruct ((c =? COMMA) && negb inQuotes); auto.
Qed.

Lemma split_length sep s :
  length (split sep s) = S (length (filter (fun c => c = sep) s)).
Proof.
  induction s as [|c s IH]; [reflexivity|]. simpl. rewrite filter_cons.
  destruct (N.eqb_spec c sep) as [Hc|Hc].
  - rewrite decide_True by exact Hc. simpl. rewrite IH. reflexivity.
  - rewrite decide_False by exact Hc.
    destruct (split sep s); simpl in *; [discriminate|exact IH].
Qed.

(** X1. On a line without a double quote the tokenizer is a split on commas
    followed by a trim of each piece: one field more than there are commas. *)
Theorem parseCSVLine_without_quotes line :
  DQUOTE ∉ line ->
  parseCSVLine line = map trim (split COMMA line)
  /\ length (parseCSVLine line) = S (length (filter (fun c => c = COMMA) line)).
Proof.
  intros Hq.
  assert (H : parseCSVLine line = map trim (split COMMA line)).
  { unfold parseCSVLine. destruct (split_cons COMMA line) as (p & ps & Hs).
    rewrite (loop_no_quote _ _ _ _ _ Hq Hs), Hs. reflexivity. }
  split; [exact H|]. rewrite H, length_map. apply split_length.
Qed.

Lemma parseCSVLine_without_quotes_witness :
  (DQUOTE ∉ str " Rohit ,Prasad,, 35")
  /\ parseCSVLine (str " Rohit ,Prasad,, 35")
     = [str "Rohit"; str "Prasad"; []; str "35"].
Proof.
  assert (H : DQUOTE ∉ str " Rohit ,Prasad,, 35") by not_in_closed_list.
  split; [exact H|].
  rewrite (proj1 (parseCSVLine_without_quotes _ H)). reflexivity.
Defined.

(** X2. The tokenizer returns at least one field, and every field it returns
    is trimmed: trimming it again changes nothing. *)
Theorem parseCSVLine_fields_trimmed line :
  (1 <= length (parseCSVLine line))%nat
  /\ Forall (fun field => trim field = field) (parseCSVLine line).
Proof.
  split.
  - pose proof (parseCSVLine_loop_length_le (length line) line [] [] false
                  (Nat.le_refl _)) as H. unfold parseCSVLine. simpl in H. lia.
  - apply (loop_fields_trimmed (length line)); [lia|constructor].
Qed.

Lemma parseCSVLine_app_ws w1 line w2 :
  allWhiteSpace w1 -> allWhiteSpace w2 ->
  parseCSVLine (w1 ++ line ++ w2) = parseCSVLine line.
Proof.
  intros H1 H2. unfold parseCSVLine. rewrite (loop_ws _ _ _ _ _ H1). simpl.
  rewrite (loop_trailing_ws (length line)) by (auto; lia).
  apply (loop_sameOnceTrimmed (length line)); [lia|].
  intros s. simpl. apply trim_app_ws_l, H1.
Qed.

(** X3. White space before and after a line changes neither its fields nor
    whether the line counts as empty; a carriage return left at the end of
    a line by a CRLF file, and a byte order mark before the first line, are
    such white space. *)
Theorem parseCSVLine_surrounding_space w1 line w2 :
  allWhiteSpace w1 -> allWhiteSpace w2 ->
  parseCSVLine (w1 ++ line ++ w2) = parseCSVLine line
  /\ trim (w1 ++ line ++ w2) = trim line.
Proof.
  intros H1 H2. split; [apply parseCSVLine_app_ws; assumption|].
  rewrite (trim_app_ws_l _ _ H1). apply trim_app_ws_r, H2.
Qed.

Lemma parseCSVLine_surrounding_space_witness :
  allWhiteSpace [65279] /\ allWhiteSpace [13]
  /\ parseCSVLine ([65279] ++ str "a, b" ++ [13]) = [str "a"; str "b"].
Proof.
  assert (H1 : allWhiteSpace [65279]) by (repeat constructor).
  assert (H2 : allWhiteSpace [13]) by (repeat constructor).
  split; [exact H1|]. split; [exact H2|].
  rewrite (proj1 (parseCSVLine_surrounding_space _ _ _ H1 H2)). reflexivity.
Defined.

(** ** Lines of the content *)

Lemma split_app sep a b :
  split sep (a ++ sep :: b) = split sep a ++ split sep b.
Proof.
  induction a as [|c a IH]; simpl.
  - rewrite N.eqb_refl. reflexivity.
  - rewrite IH. destruct (c =? sep); [reflexivity|].
    destruct (split_cons sep a) as (p & ps & ->). reflexivity.
Qed.

Lemma nonEmptyLines_app a b :
  nonEmptyLines (a ++ NEWLINE :: b) = nonEmptyLines a ++ nonEmptyLines b.
Proof. unfold nonEmptyLines. rewrite split_app. apply filter_app. Qed.

Lemma trim_all_ws w : allWhiteSpace w -> trim w = [].
Proof. intros Hw. unfold trim. rewrite trimStart_all_ws by exact Hw. reflexivity. Qed.

Lemma split_all_ws sep w : allWhiteSpace w -> Forall allWhiteSpace (split sep w).
Proof.
  intros Hw. induction Hw as [|c w Hc _ IH]; simpl; [repeat constructor|].
  destruct (c =? sep); [constructor; [constructor|exact IH]|].
  destruct IH as [|p ps Hp Hps]; repeat constructor; auto.
Qed.

Lemma nonEmptyLines_blank w : allWhiteSpace w -> nonEmptyLines w = [].
Proof.
  intros Hw. unfold nonEmptyLines.
  pose proof (split_all_ws NEWLINE w Hw) as H.
  induction H as [|p ps Hp _ IH]; [reflexivity|].
  rewrite filter_cons, decide_False; [exact IH|].
  rewrite (trim_all_ws _ Hp). congruence.
Qed.

(** A parse reads the content through its non-empty lines, and each line
    through its fields. *)
Lemma parseCSV_loop_fields headers rows rows' : forall i jsonData console,
  Forall2 (fun l l' => parseCSVLine l = parseCSVLine l') rows rows' ->
  parseCSV_loop headers i rows jsonData console
  = parseCSV_loop headers i rows' jsonData console.
Proof.
  intros i jsonData console H. revert i jsonData console.
  induction H as [|l l' rows rows' Hl _ IH]; intros i jsonData console;
    [reflexivity|].
  simpl. rewrite Hl. destruct (negb _); [apply IH|].
  destruct (createNestedObject headers (parseCSVLine l')); auto.
Qed.

Lemma parseCSV_fields c1 c2 :
  Forall2 (fun l l' => parseCSVLine l = parseCSVLine l')
    (nonEmptyLines c1) (nonEmptyLines c2) ->
  parseCSV c1 = parseCSV c2.
Proof.
  intros H. unfold parseCSV, parseCSV_try.
  rewrite (Forall2_length _ _ _ H).
  destruct H as [|l l' rows rows' Hl Hrows]; [reflexivity|].
  rewrite Hl, (parseCSV_loop_fields _ _ _ _ _ _ Hrows). reflexivity.
Qed.

Lemma Forall2_same_fields lines :
  Forall2 (fun l l' : jstring => parseCSVLine l = parseCSVLine l') lines lines.
Proof. induction lines; constructor; auto. Qed.

(** X4. Lines that are empty or hold only white space are not seen by the
    parse, wherever they are: between two lines, after the last line (a
    final newline) or before the first. The row numbers of the warnings do
    not count them either. *)
Theorem parseCSV_blank_lines blank a b :
  allWhiteSpace blank ->
  parseCSV (a ++ NEWLINE :: blank ++ NEWLINE :: b) = parseCSV (a ++ NEWLINE :: b)
  /\ parseCSV (a ++ NEWLINE :: blank) = parseCSV a
  /\ parseCSV (blank ++ NEWLINE :: b) = parseCSV b.
Proof.
  intros Hw. repeat split; apply parseCSV_fields;
    rewrite ?nonEmptyLines_app, (nonEmptyLines_blank _ Hw), ?app_nil_r, ?app_nil_l;
    apply Forall2_same_fields.
Qed.

Lemma parseCSV_blank_lines_witness :
  allWhiteSpace (str "  ")
  /\ parseCSV (str "name.firstName,name.lastName,age" ++ NEWLINE :: str "  "
               ++ NEWLINE :: str "Rohit,Prasad")
     = (Return [], [Warn 2]).
Proof.
  assert (Hw : allWhiteSpace (str "  ")) by (repeat constructor).
  split; [exact Hw|].
  rewrite (proj1 (parseCSV_blank_lines _ _ _ Hw)). vm_compute. reflexivity.
Defined.

Lemma split_withCR csvContent :
  Forall2 (fun l l' => l' = l \/ l' = l ++ [13])
    (split NEWLINE csvContent) (split NEWLINE (withCR csvContent)).
Proof.
  induction csvContent as [|c s IH]; [repeat constructor; auto|].
  change (withCR (c :: s))
    with ((if c =? NEWLINE then [13; NEWLINE] else [c]) ++ withCR s).
  simpl split at 1. destruct (N.eqb_spec c NEWLINE) as [->|Hc].
  - change (split NEWLINE ([13; NEWLINE] ++ withCR s))
      with ([13] :: split NEWLINE (withCR s)).
    constructor; [right; reflexivity|exact IH].
  - simpl. destruct (N.eqb_spec c NEWLINE) as [|_]; [contradiction|].
    destruct IH as [|p p' ps ps' Hp Hps]; [repeat constructor; auto|].
    constructor; [|exact Hps]. destruct Hp as [->| ->]; auto.
Qed.

Lemma nonEmptyLines_withCR csvContent :
  Forall2 (fun l l' => parseCSVLine l = parseCSVLine l')
    (nonEmptyLines csvContent) (nonEmptyLines (withCR csvContent)).
Proof.
  unfold nonEmptyLines. pose proof (split_withCR csvContent) as H.
  assert (Hcr : allWhiteSpace [13]) by (repeat constructor).
  induction H as [|l l' ls ls' Hl _ IH]; [constructor|].
  assert (Htrim : trim l' = trim l)
    by (destruct Hl as [->| ->]; [reflexivity|apply trim_app_ws_r, Hcr]).
  rewrite !filter_cons. rewrite Htrim.
  destruct (decide (trim l <> [])); [|exact IH].
  constructor; [|exact IH]. destruct Hl as [->| ->]; [reflexivity|].
  symmetry. apply (parseCSVLine_app_ws [] l [13]); [constructor|exact Hcr].
Qed.

(** X5. A content with CRLF line ends parses as the same content with LF
    line ends: same completion, same records, same console lines. *)
Theorem parseCSV_withCR csvContent :
  parseCSV (withCR csvContent) = parseCSV csvContent.
Proof. symmetry. apply parseCSV_fields, nonEmptyLines_withCR. Qed.

Lemma nonEmptyLines_cons_ws x s :
  isWhiteSpace x = true -> x <> NEWLINE ->
  Forall2 (fun l l' => parseCSVLine l = parseCSVLine l')
    (nonEmptyLines (x :: s)) (nonEmptyLines s).
Proof.
  intros Hx Hnl. unfold nonEmptyLines. simpl split.
  destruct (N.eqb_spec x NEWLINE) as [|_]; [contradiction|].
  destruct (split_cons NEWLINE s) as (p & ps & ->).
  assert (Hw : allWhiteSpace [x]) by (repeat constructor; exact Hx).
  rewrite !filter_cons. rewrite (trim_app_ws_l [x] p Hw : trim (x :: p) = trim p).
  destruct (decide (trim p <> [])); [|apply Forall2_same_fields].
  constructor; [|apply Forall2_same_fields].
  rewrite <- (app_nil_r p) at 1.
  apply (parseCSVLine_app_ws [x] p []); [exact Hw|constructor].
Qed.

Lemma nonEmptyLines_app_ws w : forall s,
  allWhiteSpace w ->
  Forall2 (fun l l' => parseCSVLine l = parseCSVLine l')
    (nonEmptyLines (w ++ s)) (nonEmptyLines s).
Proof.
  intros s Hw. induction Hw as [|x w Hx _ IH]; [apply Forall2_same_fields|].
  destruct (N.eq_dec x NEWLINE) as [->|Hnl].
  - change ((NEWLINE :: w) ++ s) with ([] ++ NEWLINE :: (w ++ s)).
    rewrite nonEmptyLines_app. exact IH.
  - pose proof (nonEmptyLines_cons_ws x (w ++ s) Hx Hnl) as Hhead.
    simpl app. revert Hhead IH.
    generalize (nonEmptyLines (x :: w ++ s)) (nonEmptyLines (w ++ s))
      (nonEmptyLines s).
    intros l1 l2 l3 H12. revert l3.
    induction H12 as [|a b l1 l2 Hab _ IH12]; intros l3 H23;
      inversion H23; subst; constructor; [congruence|auto].
Qed.

(** X6. White space before the content changes nothing: a byte order mark,
    which the reading of a file leaves at the start of the content, is such
    white space, as are spaces and empty lines. *)
Theorem parseCSV_leading_space w csvContent :
  allWhiteSpace w -> parseCSV (w ++ csvContent) = parseCSV csvContent.
Proof. intros Hw. apply parseCSV_fields, nonEmptyLines_app_ws, Hw. Qed.

Lemma parseCSV_leading_space_witness :
  allWhiteSpace [65279]
  /\ parseCSV ([65279] ++ MoreSamples.shortAndFull)
     = (Return [MoreSamples.rohit], [Warn 2]).
Proof.
  assert (Hw : allWhiteSpace [65279]) by (repeat constructor).
  split; [exact Hw|].
  rewrite (parseCSV_leading_space [65279] _ Hw). vm_compute. reflexivity.
Defined.

(** ** Completions and console of a parse *)

Lemma parseCSV_loop_console headers rows : forall i jsonData console records,
  fst (parseCSV_loop headers i rows jsonData console) = Return records ->
  snd (parseCSV_loop headers i rows jsonData console)
  = console ++ omap id (imap (fun k line =>
                                if decide (kept headers line) then None
                                else Some (Warn (i + k + 1)%nat)) rows).
Proof.
  induction rows as [|line rows IH]; intros i jsonData console records.
  - simpl. rewrite app_nil_r. reflexivity.
  - assert (Hshift :
      imap ((fun k line => if decide (kept headers line) then None
                           else Some (Warn (i + k + 1)%nat)) ∘ S) rows
      = imap (fun k line => if decide (kept headers line) then None
                            else Some (Warn (S i + k + 1)%nat)) rows).
    { apply imap_ext. intros k l _. unfold compose.
      replace (i + S k + 1)%nat with (S i + k + 1)%nat by lia. reflexivity. }
    rewrite imap_cons, Hshift.
    destruct (decide (kept headers line)) as [Hk|Hk].
    + pose proof Hk as Hk'. unfold kept in Hk'.
      cbn [parseCSV_loop]. rewrite Hk', Nat.eqb_refl. cbn [negb].
      destruct (createNestedObject headers (parseCSVLine line)); try discriminate.
      intros Hret. rewrite (IH _ _ _ _ Hret). reflexivity.
    + rewrite (parseCSV_loop_dropped _ _ _ _ _ _ Hk).
      intros Hret. rewrite (IH _ _ _ _ Hret), <- app_assoc.
      rewrite Nat.add_0_r. reflexivity.
Qed.

Lemma parseCSV_loop_built headers rows : forall i jsonData console records,
  fst (parseCSV_loop headers i rows jsonData console) = Return records ->
  exists new, records = jsonData ++ new
              /\ Forall2 (builds headers) (filter (kept headers) rows) new.
Proof.
  induction rows as [|line rows IH]; intros i jsonData console records.
  - simpl. intros [= <-]. exists []. rewrite app_nil_r. split; [reflexivity|constructor].
  - destruct (decide (kept headers line)) as [Hk|Hk].
    + simpl. unfold kept in Hk. rewrite Hk, Nat.eqb_refl. simpl.
      destruct (createNestedObject headers (parseCSVLine line)) as [r| |] eqn:Hr;
        try discriminate.
      intros Hret. destruct (IH _ _ _ _ Hret) as (new & -> & Hnew).
      exists (r :: new). rewrite <- app_assoc. split; [reflexivity|].
      rewrite filter_cons_True by exact Hk. constructor; assumption.
    + rewrite (parseCSV_loop_dropped _ _ _ _ _ _ Hk).
      rewrite filter_cons_False by exact Hk. apply IH.
Qed.

(** X7. When a parse returns, there were two non-empty lines or more, the
    header had the mandatory fields, and the result holds exactly one record
    for each row with as many fields as the header, built from that row, in
    the order of the rows. *)
Theorem parseCSV_returns csvContent records :
  fst (parseCSV csvContent) = Return records ->
  let headers := parseCSVLine (hd [] (nonEmptyLines csvContent)) in
  let rows := tl (nonEmptyLines csvContent) in
  (2 <= length (nonEmptyLines csvContent))%nat
  /\ missingFields headers = []
  /\ Forall2 (builds headers) (filter (kept headers) rows) records
  /\ (length records <= length rows)%nat.
Proof.
  rewrite fst_parseCSV. unfold parseCSV_try.
  destruct (Nat.ltb_spec (length (nonEmptyLines csvContent)) 2) as [|Hlen];
    [discriminate|].
  destruct (nonEmptyLines csvContent) as [|line0 rows]; [discriminate|]. simpl.
  rewrite validateMandatoryFields_spec.
  destruct (missingFields (parseCSVLine line0)) eqn:Hm; [|discriminate].
  intros Hret. destruct (parseCSV_loop_built _ _ _ _ _ _ Hret) as (new & -> & Hnew).
  simpl in *. repeat split; auto.
  rewrite <- (Forall2_length _ _ _ Hnew). apply length_filter.
Qed.

Lemma parseCSV_returns_witness :
  fst (parseCSV MoreSamples.shortAndFull) = Return [MoreSamples.rohit]
  /\ Forall2 (builds (parseCSVLine (str "name.firstName,name.lastName,age")))
       [str "Rohit,Prasad,35"] [MoreSamples.rohit].
Proof.
  assert (H : fst (parseCSV MoreSamples.shortAndFull) = Return [MoreSamples.rohit])
    by (vm_compute; reflexivity).
  split; [exact H|].
  exact (proj1 (proj2 (proj2 (parseCSV_returns _ _ H)))).
Defined.

(** X8. When a parse returns, its console holds exactly one warning for each
    dropped row, in the order of the rows. The row number counts the
    non-empty lines, the header being row 1: the data row at index [k] is
    reported as row [k + 2]. *)
Theorem parseCSV_warnings csvContent records :
  fst (parseCSV csvContent) = Return records ->
  snd (parseCSV csvContent)
  = droppedRows (parseCSVLine (hd [] (nonEmptyLines csvContent)))
      (tl (nonEmptyLines csvContent)).
Proof.
  unfold parseCSV.
  destruct (parseCSV_try csvContent) as [[rs|e|] console] eqn:Htry;
    try discriminate.
  simpl. intros _. unfold parseCSV_try in Htry.
  destruct (length (nonEmptyLines csvContent) <? 2)%nat; [discriminate|].
  destruct (nonEmptyLines csvContent) as [|line0 rows]; [discriminate|].
  destruct (validateMandatoryFields (parseCSVLine line0)); try discriminate.
  pose proof (parseCSV_loop_console (parseCSVLine line0) rows 1 [] [] rs) as H.
  rewrite Htry in H. simpl in H. rewrite (H eq_refl). unfold droppedRows. simpl.
  f_equal. apply imap_ext. intros k l _. simpl.
  replace (S (k + 1)) with (k + 2)%nat by lia. reflexivity.
Qed.

Lemma parseCSV_warnings_witness :
  fst (parseCSV MoreSamples.shortAndFull) = Return [MoreSamples.rohit]
  /\ snd (parseCSV MoreSamples.shortAndFull) = [Warn 2].
Proof.
  assert (H : fst (parseCSV MoreSamples.shortAndFull) = Return [MoreSamples.rohit])
    by (vm_compute; reflexivity).
  split; [exact H|]. rewrite (parseCSV_warnings _ _ H). reflexivity.
Defined.

(** X9. A parse throws nothing but the format error, the validation error
    listing the missing fields of the header, or a TypeError of the runtime;
    whatever it throws is the last line of the console. *)
Theorem parseCSV_throws csvContent e :
  fst (parseCSV csvContent) = Throw e ->
  (e = FormatError
   \/ e = ValidationError
            (missingFields (parseCSVLine (hd [] (nonEmptyLines csvContent))))
   \/ e = TypeError)
  /\ last (snd (parseCSV csvContent)) = Some (ErrorLine e).
Proof.
  unfold parseCSV.
  destruct (parseCSV_try csvContent) as [[rs|e'|] console] eqn:Htry;
    try discriminate.
  simpl. intros [= ->]. split; [|apply last_snoc].
  unfold parseCSV_try in Htry.
  destruct (length (nonEmptyLines csvContent) <? 2)%nat;
    [injection Htry as <- _; auto|].
  destruct (nonEmptyLines csvContent) as [|line0 rows];
    [injection Htry as <- _; auto|].
  simpl. rewrite validateMandatoryFields_spec in Htry.
  destruct (missingFields (parseCSVLine line0)); [|injection Htry as <- _; auto].
  right. right.
  apply (parseCSV_loop_throw (parseCSVLine line0) rows 1 [] []).
  rewrite Htry. reflexivity.
Qed.

Lemma parseCSV_throws_witness :
  fst (parseCSV Samples.pathThroughScalar) = Throw TypeError
  /\ last (snd (parseCSV Samples.pathThroughScalar)) = Some (ErrorLine TypeError).
Proof.
  assert (H : fst (parseCSV Samples.pathThroughScalar) = Throw TypeError)
    by (vm_compute; reflexivity).
  split; [exact H|]. exact (proj2 (parseCSV_throws _ _ H)).
Defined.

(** ** Mandatory fields *)

Lemma missingFields_nil_iff headers :
  missingFields headers = [] <-> Forall (fun field => field ∈ headers) mandatoryFields.
Proof.
  rewrite missingFields_difference. rewrite Forall_forall. split.
  - intros H field Hin. destruct (decide (field ∈ headers)) as [|Hnot]; [assumption|].
    assert (Hf : field ∈ filter (fun field => field ∉ headers) mandatoryFields)
      by (apply list_elem_of_filter; auto).
    rewrite H in Hf. apply elem_of_nil in Hf. contradiction.
  - intros H. destruct (filter _ mandatoryFields) as [|f fs] eqn:Hf; [reflexivity|].
    assert (Hin : f ∈ filter (fun field => field ∉ headers) mandatoryFields)
      by (rewrite Hf; left).
    apply list_elem_of_filter in Hin as [Hnot Hin]. exfalso. auto.
Qed.

(** X10. The validation of the header succeeds exactly when the three
    mandatory names are among the header fields, compared as they are
    written; the order of the columns, repeated columns and further columns
    play no part: two headers with the same set of fields are validated
    alike. *)
Theorem validateMandatoryFields_by_set :
  (forall headers,
     validateMandatoryFields headers = Return tt
     <-> str "name.firstName" ∈ headers /\ str "name.lastName" ∈ headers
         /\ str "age" ∈ headers)
  /\ (forall headers1 headers2,
        (forall field, field ∈ headers1 <-> field ∈ headers2) ->
        validateMandatoryFields headers1 = validateMandatoryFields headers2)
  /\ (forall headers,
        validateMandatoryFields headers = Return tt
        \/ validateMandatoryFields headers
           = Throw (ValidationError (missingFields headers))).
Proof.
  split; [|split].
  - intros headers. rewrite validateMandatoryFields_spec.
    destruct (missingFields headers) eqn:Hm.
    + apply missingFields_nil_iff in Hm. unfold mandatoryFields in Hm.
      rewrite !Forall_cons in Hm. tauto.
    + split; [discriminate|]. intros (H1 & H2 & H3). exfalso.
      assert (Hnil : missingFields headers = []).
      { apply missingFields_nil_iff. repeat constructor; assumption. }
      congruence.
  - intros headers1 headers2 Hset.
    assert (Heq : missingFields headers1 = missingFields headers2).
    { rewrite !missingFields_difference. apply list_filter_iff.
      intros field. rewrite Hset. reflexivity. }
    rewrite !validateMandatoryFields_spec, Heq. reflexivity.
  - intros headers. rewrite validateMandatoryFields_spec.
    destruct (missingFields headers); auto.
Qed.

(** ** Parsing a file *)

(** X11. Parsing a file that could be read ends as parsing its content.
    When the parse throws, the error is written twice to the console: by
    [parseCSV], then by [parseCSVFile] as an error of reading the file; these
    are the last two lines. When it does not throw, [parseCSVFile] adds no
    line. *)
Theorem parseCSVFile_console csvContent :
  fst (parseCSVFile (inl csvContent)) = fst (parseCSV csvContent)
  /\ (forall e, fst (parseCSV csvContent) = Throw e ->
        exists console,
          snd (parseCSVFile (inl csvContent))
          = console ++ [ParseLine (ErrorLine e); FileErrorLine e])
  /\ ((forall e, fst (parseCSV csvContent) <> Throw e) ->
        snd (parseCSVFile (inl csvContent))
        = map ParseLine (snd (parseCSV csvContent))).
Proof.
  unfold parseCSVFile, parseCSV.
  destruct (parseCSV_try csvContent) as [[records|e'|] console]; simpl.
  - split; [reflexivity|]. split; [discriminate|reflexivity].
  - split; [reflexivity|]. split.
    + intros e [= <-]. exists (map ParseLine console).
      rewrite map_app, <- app_assoc. reflexivity.
    + intros H. exfalso. apply (H e'). reflexivity.
  - split; [reflexivity|]. split; [discriminate|reflexivity].
Qed.

(** ** More on typing a value *)

Lemma numEq_refl x : isNaNnum x = false -> numEq x x = true.
Proof.
  unfold numEq, SFeqb. destruct x as [s|s| |s m e]; simpl; try discriminate;
    intros _; try (destruct s; reflexivity).
  destruct s; rewrite Z.compare_refl, Pos.compare_cont_refl; reflexivity.
Qed.

Lemma numEq_not_nan x y : numEq x y = true -> isNaNnum x = false.
Proof. destruct x; try reflexivity. discriminate. Qed.

Lemma typed_not_NaN value x : typed value = VNum x -> isNaNnum x = false.
Proof.
  unfold typed. destruct (numeric value) eqn:Hnum.
  - apply andb_true_iff in Hnum as [_ Hf]. apply negb_true_iff in Hf.
    destruct (looseEq (parseInt value) value) eqn:Heq; intros [= <-]; [|exact Hf].
    eapply numEq_not_nan, Heq.
  - repeat (destruct (bool_decide _); [discriminate|]). discriminate.
Qed.

(** X12. A value is never typed as NaN, with or without quotes around it:
    the number that [parseValue] gives is the integer parse when it equals
    the conversion of the whole value, and the floating-point parse, which
    the test of the branch has checked, otherwise. *)
Theorem parseValue_not_NaN value x :
  parseValue value = VNum x -> isNaNnum x = false.
Proof. unfold parseValue. apply typed_not_NaN. Qed.

Lemma parseValue_not_NaN_witness :
  parseValue (str "1e400") = VNum (S754_infinity false)
  /\ isNaNnum (S754_infinity false) = false.
Proof.
  assert (H : parseValue (str "1e400") = VNum (S754_infinity false))
    by (vm_compute; reflexivity).
  split; [exact H|]. exact (parseValue_not_NaN _ _ H).
Defined.

Lemma valueOfDigits_nonneg R ds : (0 <= valueOfDigits R ds)%Z.
Proof.
  unfold valueOfDigits.
  assert (H : forall acc : Z, (0 <= acc)%Z ->
    (0 <= fold_left (fun acc c => acc * Z.of_N R + Z.of_N (digitValue c)) ds acc)%Z).
  { induction ds as [|c ds IH]; intros acc Hacc; simpl; [exact Hacc|].
    apply IH. lia. }
  apply H. lia.
Qed.

Lemma scanSign_app_neg sgn u :
  Sign sgn -> stopsAt (fun c => (c =? PLUS) || (c =? MINUS)) u ->
  scanSign (sgn ++ u) = (bool_decide (sgn = [MINUS]), u).
Proof.
  intros [->|[->| ->]] Hu; [|reflexivity..].
  destruct u as [|c u]; [reflexivity|]. simpl in *.
  apply orb_false_iff in Hu as [-> ->]. reflexivity.
Qed.

Lemma digits_radix10 ds :
  Digits ds -> Forall (fun c => isRadixDigit 10 c = true) ds.
Proof.
  intros H. eapply Forall_impl; [exact H|]. intros c Hc.
  unfold isRadixDigit, digitValue. rewrite Hc.
  apply N.ltb_lt. unfold isDigit in Hc. units.
Qed.

Lemma parseInt_digits sgn ds :
  Sign sgn -> ds <> [] -> Digits ds ->
  parseInt (sgn ++ ds)
  = signedInteger (bool_decide (sgn = [MINUS])) (valueOfDigits 10 ds).
Proof.
  intros Hsgn Hne Hds. unfold parseInt.
  assert (Hstop : stopsAt (fun c => (c =? PLUS) || (c =? MINUS)) ds).
  { destruct Hds as [|d ds Hd _]; [exact I|]. simpl.
    destruct (digit_not_sign d Hd) as [-> ->]. reflexivity. }
  assert (Hstart : trimStart (sgn ++ ds) = sgn ++ ds).
  { apply trimStart_id. destruct Hsgn as [->|[->| ->]]; try reflexivity.
    destruct Hds as [|d ds Hd _]; [exact I|]. simpl.
    apply (literalUnit_plain d). left. exact Hd. }
  rewrite Hstart, (scanSign_app_neg _ _ Hsgn Hstop).
  assert (Hradix : match ds with
                   | c0 :: c1 :: s' =>
                       if (c0 =? 48) && ((c1 =? 120) || (c1 =? 88)) then (16, s')
                       else (10, ds)
                   | _ => (10, ds)
                   end = (10, ds)).
  { destruct ds as [|c0 [|c1 s']]; try reflexivity.
    apply Forall_cons in Hds as [_ Hds]. apply Forall_cons in Hds as [H1 _].
    replace ((c1 =? 120) || (c1 =? 88)) with false;
      [rewrite andb_false_r; reflexivity|].
    symmetry. unfold isDigit in H1. units. }
  rewrite Hradix.
  pose proof (span_app (isRadixDigit 10) ds [] (digits_radix10 _ Hds) I) as Hspan.
  rewrite app_nil_r in Hspan. rewrite Hspan. simpl.
  destruct ds; [congruence|reflexivity].
Qed.

Lemma parseFloat_digits sgn ds :
  Sign sgn -> ds <> [] -> Digits ds ->
  parseFloat (sgn ++ ds)
  = signedInteger (bool_decide (sgn = [MINUS])) (valueOfDigits 10 ds).
Proof.
  intros Hsgn Hne Hds. unfold parseFloat, scanDecimal.
  assert (Hstop : stopsAt (fun c => (c =? PLUS) || (c =? MINUS)) ds).
  { destruct Hds as [|d ds Hd _]; [exact I|]. simpl.
    destruct (digit_not_sign d Hd) as [-> ->]. reflexivity. }
  assert (Hstart : trimStart (sgn ++ ds) = sgn ++ ds).
  { apply trimStart_id. destruct Hsgn as [->|[->| ->]]; try reflexivity.
    destruct Hds as [|d ds Hd _]; [exact I|]. simpl.
    apply (literalUnit_plain d). left. exact Hd. }
  rewrite Hstart, (scanSign_app_neg _ _ Hsgn Hstop).
  unfold scanUnsigned.
  assert (Hbody : DecimalBody ds).
  { exists ds, [], []. rewrite !app_nil_r. repeat split; auto. }
  rewrite (body_not_Infinity _ Hbody).
  pose proof (span_app isDigit ds [] Hds I) as Hspan.
  rewrite app_nil_r in Hspan. rewrite Hspan.
  destruct ds as [|d ds']; [congruence|]. simpl scanExponent. cbv iota beta.
  unfold roundDecimal, signedInteger.
  pose proof (valueOfDigits_nonneg 10 (d :: ds')) as Hpos.
  destruct (valueOfDigits 10 (d :: ds')) as [|p|p];
    [destruct (bool_decide _); reflexivity| |lia].
  simpl (0 <=? 0)%Z. cbv iota. rewrite Z.pow_0_r, Z.mul_1_r. reflexivity.
Qed.

Lemma typed_digits sgn ds :
  Sign sgn -> ds <> [] -> Digits ds ->
  unquote (sgn ++ ds) = sgn ++ ds
  /\ typed (sgn ++ ds)
     = VNum (signedInteger (bool_decide (sgn = [MINUS])) (valueOfDigits 10 ds)).
Proof.
  intros Hsgn Hne Hds.
  assert (Hlit : FloatLiteral (sgn ++ ds)).
  { exists sgn, ds. split; [reflexivity|]. split; [exact Hsgn|].
    exists ds, [], []. rewrite !app_nil_r. repeat split; auto. }
  destruct (FloatLiteral_conversions _ Hlit) as (Hq & Hnum & Hnan).
  split; [exact Hq|].
  unfold typed, numeric, isNaN, looseEq. rewrite Hnum, Hnan.
  rewrite (parseInt_digits _ _ Hsgn Hne Hds).
  rewrite (parseFloat_digits _ _ Hsgn Hne Hds) in Hnan |- *.
  simpl. rewrite (numEq_refl _ Hnan). reflexivity.
Qed.

Lemma unquote_wrapped q mid :
  q = DQUOTE \/ q = SQUOTE -> unquote (q :: mid ++ [q]) = mid.
Proof.
  intros Hq. unfold unquote.
  replace (wrapped _) with true; [apply slice_inner|].
  symmetry. apply wrapped_iff. exists q. split; [exact Hq|].
  split; [reflexivity|]. rewrite app_comm_cons. apply last_snoc.
Qed.

(** X13. A string of decimal digits, with or without a sign, is typed as the
    integer it denotes (the nearest binary64 value): leading zeros are
    allowed and a minus sign before zeros gives the negative zero. Quotes
    around the digits change nothing: the value is typed as the same
    number, not as a string. *)
Theorem parseValue_integer sgn ds :
  Sign sgn -> ds <> [] -> Digits ds ->
  let n := VNum (signedInteger (bool_decide (sgn = [MINUS]))
                   (valueOfDigits 10 ds)) in
  parseValue (sgn ++ ds) = n
  /\ parseValue (DQUOTE :: (sgn ++ ds) ++ [DQUOTE]) = n
  /\ parseValue (SQUOTE :: (sgn ++ ds) ++ [SQUOTE]) = n.
Proof.
  intros Hsgn Hne Hds n. destruct (typed_digits _ _ Hsgn Hne Hds) as [Hq Ht].
  unfold parseValue. rewrite Hq, !unquote_wrapped by auto. auto.
Qed.

Lemma parseValue_integer_witness :
  Sign [MINUS] /\ str "007" <> [] /\ Digits (str "007")
  /\ parseValue (str "-007") = VNum (signedInteger true 7)
  /\ parseValue (DQUOTE :: str "-007" ++ [DQUOTE]) = VNum (signedInteger true 7).
Proof.
  assert (H1 : Sign [MINUS]) by (right; right; reflexivity).
  assert (H2 : str "007" <> []) by discriminate.
  assert (H3 : Digits (str "007")) by (repeat constructor).
  split; [exact H1|]. split; [exact H2|]. split; [exact H3|].
  destruct (parseValue_integer _ _ H1 H2 H3) as (Ha & Hb & _).
  split; [exact Ha|exact Hb].
Defined.

(** ** Booleans *)

Lemma lowerUnit_letter c l :
  lowerUnit c = l -> 97 <= l <= 122 -> l <> 107 -> c = l \/ c = l - 32.
Proof.
  unfold lowerUnit. intros H Hl Hk.
  destruct (N.leb_spec 65 c), (N.leb_spec c 90); simpl in H; try lia;
    destruct (N.eqb_spec c 8490); lia.
Qed.

Ltac letter_cases H :=
  apply lowerUnit_letter in H; [|lia|lia]; destruct H as [H|H]; subst.

(** X14. A value is typed as a boolean exactly when, once its quotes are
    removed, it reads [true] or [false] in any mix of upper and lower case
    letters. *)
Theorem parseValue_boolean value :
  (parseValue value = VBool true <-> toLowerCase (unquote value) = str "true")
  /\ (parseValue value = VBool false <-> toLowerCase (unquote value) = str "false").
Proof.
  unfold parseValue. generalize (unquote value) as u. intros u.
  assert (Htrue : toLowerCase u = str "true" -> typed u = VBool true).
  { destruct u as [|c1 [|c2 [|c3 [|c4 [|c5 u]]]]]; try discriminate.
    intros [= H1 H2 H3 H4].
    letter_cases H1; letter_cases H2; letter_cases H3; letter_cases H4;
      vm_compute; reflexivity. }
  assert (Hfalse : toLowerCase u = str "false" -> typed u = VBool false).
  { destruct u as [|c1 [|c2 [|c3 [|c4 [|c5 [|c6 u]]]]]]; try discriminate.
    intros [= H1 H2 H3 H4 H5].
    letter_cases H1; letter_cases H2; letter_cases H3; letter_cases H4;
      letter_cases H5; vm_compute; reflexivity. }
  split; (split; [|assumption]); unfold typed;
    destruct (numeric u); try discriminate;
    repeat case_bool_decide; try discriminate; try congruence.
Qed.

(** ** More on records *)

(** X15. Setting then reading, on a path that runs through no name that an
    object literal inherits: after a successful [setNestedProperty], the
    typed value is read at the path, and every primitive that was read in
    the record at a path that the set path does not start is still read
    there. *)
Theorem setNestedProperty_then_read obj path value result :
  plainPath (split DOT path) ->
  setNestedProperty obj path value = Return result ->
  last (split DOT path) <> Some PROTO ->
  getPath (VObj result) (split DOT path) = Some (parseValue value)
  /\ (forall path' x,
        ~ split DOT path `prefix_of` path' -> isPrimitive x = true ->
        getPath (VObj obj) path' = Some x -> getPath (VObj result) path' = Some x).
Proof.
  intros _ Hset Hproto. split.
  - apply (setNestedProperty_getPath _ _ _ _ Hset Hproto).
  - intros path' x. apply (setNestedProperty_keeps _ _ _ _ _ _ Hset).
Qed.

Lemma setNestedProperty_then_read_witness :
  let obj : record := {[ str "age" := VNum (ofZ 35) ]} in
  let result : record :=
    {[ str "age" := VNum (ofZ 35);
       str "address" := VObj {[ str "city" := VStr (str "Pune") ]} ]} in
  plainPath (split DOT (str "address.city"))
  /\ setNestedProperty obj (str "address.city") (str "Pune") = Return result
  /\ getPath (VObj result) [str "address"; str "city"] = Some (VStr (str "Pune"))
  /\ getPath (VObj result) [str "age"] = Some (VNum (ofZ 35)).
Proof.
  intros obj result.
  assert (Hplain : plainPath (split DOT (str "address.city"))) by plain_paths.
  assert (H : setNestedProperty obj (str "address.city") (str "Pune") = Return result)
    by (vm_compute; reflexivity).
  assert (Hp : last (split DOT (str "address.city")) <> Some PROTO) by discriminate.
  destruct (setNestedProperty_then_read _ _ _ _ Hplain H Hp) as [Hget Hkeep].
  split; [exact Hplain|]. split; [exact H|]. split; [exact Hget|].
  apply Hkeep; [|reflexivity|reflexivity].
  intros [k Hk]. discriminate.
Defined.

Lemma walk_throw_iff keys : forall current finalKey v,
  walk current keys finalKey v = Throw TypeError
  <-> exists pre suf x,
        keys ++ [finalKey] = pre ++ suf /\ suf <> [] /\ suf <> [PROTO]
        /\ pre <> [] /\ getPath (VObj current) pre = Some x
        /\ isPrimitive x = true.
Proof.
  induction keys as [|key keys IH]; intros current finalKey v.
  - simpl. split; [discriminate|].
    intros (pre & suf & x & Heq & Hsuf & _ & Hpre & _). exfalso.
    destruct pre as [|p pre]; [congruence|].
    destruct pre; destruct suf; simpl in Heq; congruence.
  - assert (Hinv : forall pre suf x,
        (key :: keys) ++ [finalKey] = pre ++ suf -> pre <> [] ->
        getPath (VObj current) pre = Some x ->
        exists pre' y, pre = key :: pre' /\ keys ++ [finalKey] = pre' ++ suf
                       /\ current !! key = Some y /\ getPath y pre' = Some x).
    { intros [|p pre'] suf x Heq Hpre Hget; [congruence|].
      simpl in Heq. injection Heq as <- Heq. simpl in Hget.
      destruct (current !! key) as [y|]; [|discriminate]. eauto 6. }
    simpl. destruct (current !! key) as [[n|b|s|o]|] eqn:Hk.
    1-3: (split;
      [ intros Hw;
        eexists [key], (keys ++ [finalKey]), _; simpl; rewrite Hk;
        split; [reflexivity|];
        split; [destruct keys; discriminate|];
        split; [|split; [discriminate|split; reflexivity]];
        destruct keys as [|k ks]; [|destruct ks; discriminate];
        simpl; intros [= ->]; rewrite bool_decide_eq_true_2 in Hw by reflexivity;
        discriminate
      | intros (pre & suf & x & Heq & Hsuf & Hproto & Hpre & Hget & Hx);
        destruct (Hinv _ _ _ Heq Hpre Hget) as (pre' & y & -> & Heq' & [= <-] & Hy);
        apply getPath_primitive in Hy as [-> _]; [|reflexivity];
        simpl in Heq'; subst suf;
        destruct keys as [|k ks]; [|reflexivity];
        simpl in Hproto; rewrite bool_decide_eq_false_2; [reflexivity|congruence] ]).
    + split.
      * destruct (walk o keys finalKey v) as [child|e|] eqn:Hw; simpl; try discriminate.
        intros [= ->]. apply IH in Hw as (pre & suf & x & Heq & ? & ? & ? & Hget & ?).
        exists (key :: pre), suf, x. simpl. rewrite Hk, Heq.
        repeat split; auto; discriminate.
      * intros (pre & suf & x & Heq & Hsuf & Hproto & Hpre & Hget & Hx).
        destruct (Hinv _ _ _ Heq Hpre Hget) as (pre' & y & -> & Heq' & [= <-] & Hy).
        assert (Hw : walk o keys finalKey v = Throw TypeError).
        { apply IH. exists pre', suf, x. repeat split; auto.
          intros ->. simpl in Hy. injection Hy as <-. discriminate. }
        rewrite Hw. reflexivity.
    + split.
      * destruct (includes inheritedNames key); [discriminate|].
        destruct (walk ∅ keys finalKey v) as [child|e|] eqn:Hw; simpl; try discriminate.
        intros [= ->]. apply IH in Hw as (pre & suf & x & _ & _ & _ & Hpre & Hget & _).
        destruct pre as [|p pre]; [congruence|]. simpl in Hget.
        rewrite lookup_empty in Hget. discriminate.
      * intros (pre & suf & x & Heq & Hsuf & Hproto & Hpre & Hget & Hx).
        destruct (Hinv _ _ _ Heq Hpre Hget) as (pre' & y & _ & _ & [=] & _).
Qed.

(** X16. On a path that runs through no name that an object literal
    inherits, [setNestedProperty] throws exactly when the path runs through a
    key that holds a number, a boolean or a string: when a proper prefix of
    the path reads a primitive in the record, the case of a remaining path
    made of [__proto__] alone apart. What it throws is a TypeError, and when
    it does not throw it returns. *)
Theorem setNestedProperty_throws obj path value :
  plainPath (split DOT path) ->
  (forall e,
     setNestedProperty obj path value = Throw e
     <-> e = TypeError
         /\ exists pre suf x,
              split DOT path = pre ++ suf /\ suf <> [] /\ suf <> [PROTO]
              /\ pre <> [] /\ getPath (VObj obj) pre = Some x
              /\ isPrimitive x = true)
  /\ ((exists result, setNestedProperty obj path value = Return result)
      \/ setNestedProperty obj path value = Throw TypeError).
Proof.
  intros Hplain. split.
  - intros e. destruct (split_snoc DOT path) as (keys & finalKey & Hsplit).
    rewrite (setNestedProperty_walk _ _ _ _ _ Hsplit), Hsplit.
    rewrite <- walk_throw_iff. split.
    + intros H. pose proof (walk_throw _ _ _ _ _ H) as ->.
      split; [reflexivity|exact H].
    + intros [-> H]. exact H.
  - pose proof (setNestedProperty_plain obj path value Hplain) as Hesc.
    destruct (setNestedProperty obj path value) as [result|e|] eqn:Hset;
      [left; eauto| |congruence].
    right. rewrite (setNestedProperty_throw _ _ _ _ Hset). reflexivity.
Qed.

Lemma setNestedProperty_throws_witness :
  let obj : record := {[ str "age" := VNum (ofZ 35) ]} in
  plainPath (split DOT (str "age.x"))
  /\ setNestedProperty obj (str "age.x") (str "2") = Throw TypeError.
Proof.
  intros obj.
  assert (Hplain : plainPath (split DOT (str "age.x"))) by plain_paths.
  split; [exact Hplain|].
  apply (proj1 (setNestedProperty_throws obj _ (str "2") Hplain)).
  split; [reflexivity|].
  exists [str "age"], [str "x"], (VNum (ofZ 35)).
  repeat split; try discriminate.
Defined.

(** ** Rows as records *)

(** X17. In a row whose header paths run through no name that an object
    literal inherits, a cell that is set is found, typed, at the path of its
    column in the record of the row, unless a later column that is set
    writes at this path or at a prefix of it: of two columns of the same
    path the later wins. *)
Theorem createNestedObject_cell headers values r i header v :
  plainHeaders headers ->
  createNestedObject headers values = Return r ->
  headers !! i = Some header -> values !! i = Some v ->
  trim header <> [] -> trim v <> [] ->
  last (split DOT (trim header)) <> Some PROTO ->
  (forall j header' v', (i < j)%nat -> headers !! j = Some header' ->
     values !! j = Some v' -> harmless (split DOT (trim header)) header' v') ->
  getPath (VObj r) (split DOT (trim header)) = Some (parseValue (trim v)).
Proof. intros _. apply createNestedObject_loop_cell. Qed.

Lemma createNestedObject_cell_witness :
  let r : record := {[ str "tag" := VStr (str "new") ]} in
  plainHeaders [str "tag"; str "tag"]
  /\ createNestedObject [str "tag"; str "tag"] [str "old"; str "new"] = Return r
  /\ getPath (VObj r) [str "tag"] = Some (VStr (str "new")).
Proof.
  intros r.
  assert (Hplain : plainHeaders [str "tag"; str "tag"]) by plain_paths.
  assert (Hr : createNestedObject [str "tag"; str "tag"] [str "old"; str "new"]
               = Return r) by (vm_compute; reflexivity).
  split; [exact Hplain|]. split; [exact Hr|].
  refine (createNestedObject_cell _ _ _ 1%nat (str "tag") (str "new") Hplain Hr
            eq_refl eq_refl _ _ _ _); try discriminate.
  intros [|[|j]] header' v' Hj H1 H2; try lia; discriminate.
Defined.

Lemma walk_leaves keys : forall current finalKey v result path x,
  walk current keys finalKey v = Return result ->
  isPrimitive v = true -> isPrimitive x = true ->
  getPath (VObj result) path = Some x ->
  path = keys ++ [finalKey] /\ x = v \/ getPath (VObj current) path = Some x.
Proof.
  induction keys as [|key keys IH]; intros current finalKey v result path x.
  - simpl. intros [= <-] Hv Hx Hget. unfold assignFinal in Hget.
    destruct (bool_decide _); [auto|].
    destruct path as [|k ks]; [injection Hget as <-; discriminate|].
    rewrite getPath_insert in Hget. destruct (decide (finalKey = k)) as [<-|]; [|auto].
    apply (getPath_primitive _ _ _ Hv) in Hget as [-> ->]. auto.
  - simpl. intros Hw Hv Hx Hget.
    assert (Hins : forall o child,
      current !! key = o ->
      (forall ks, getPath (VObj child) ks = Some x ->
         ks = keys ++ [finalKey] /\ x = v
         \/ match o with Some y => getPath y ks = Some x | None => False end) ->
      getPath (VObj (<[key := VObj child]> current)) path = Some x ->
      path = key :: keys ++ [finalKey] /\ x = v
      \/ getPath (VObj current) path = Some x).
    { intros o child Ho Hchild Hg.
      destruct path as [|k ks]; [injection Hg as <-; discriminate|].
      rewrite getPath_insert in Hg. destruct (decide (key = k)) as [<-|]; [|auto].
      destruct (Hchild _ Hg) as [[-> ->]|Hy]; [auto|]. right. simpl. rewrite Ho.
      destruct o; [exact Hy|contradiction]. }
    destruct (current !! key) as [[n|b|s|o]|] eqn:Hk.
    1-3: destruct keys; [destruct (bool_decide _)|]; try discriminate;
         injection Hw as <-; auto.
    + destruct (walk o keys finalKey v) as [child| |] eqn:Hchild;
        simpl in Hw; try discriminate. injection Hw as <-.
      apply (Hins _ child eq_refl); [|exact Hget].
      intros ks Hks. apply (IH _ _ _ _ _ _ Hchild Hv Hx Hks).
    + destruct (includes inheritedNames key); [discriminate|].
      destruct (walk ∅ keys finalKey v) as [child| |] eqn:Hchild;
        simpl in Hw; try discriminate. injection Hw as <-.
      apply (Hins _ child eq_refl); [|exact Hget].
      intros ks Hks.
      destruct (IH _ _ _ _ _ _ Hchild Hv Hx Hks) as [?|He]; [auto|].
      exfalso. destruct ks as [|k ks]; simpl in He.
      * injection He as <-. discriminate.
      * rewrite lookup_empty in He. discriminate.
Qed.

Lemma createNestedObject_loop_leaves headers : forall result values r path x,
  createNestedObject_loop result headers values = Return r ->
  isPrimitive x = true ->
  getPath (VObj r) path = Some x ->
  getPath (VObj result) path = Some x
  \/ exists i header v,
       headers !! i = Some header /\ values !! i = Some v
       /\ trim header <> [] /\ trim v <> []
       /\ path = split DOT (trim header) /\ x = parseValue (trim v).
Proof.
  induction headers as [|header headers IH]; intros result values r path x.
  - simpl. intros [= <-]. auto.
  - destruct values as [|v values]; [discriminate|].
    intros Hloop Hx Hget.
    assert (Hshift : forall res, createNestedObject_loop res headers values = Return r ->
      getPath (VObj res) path = Some x
      \/ exists i header0 v0,
           (header :: headers) !! i = Some header0 /\ (v :: values) !! i = Some v0
           /\ trim header0 <> [] /\ trim v0 <> []
           /\ path = split DOT (trim header0) /\ x = parseValue (trim v0)).
    { intros res Hres. destruct (IH _ _ _ _ _ Hres Hx Hget)
        as [?|(i & h0 & v0 & H1 & H2 & H)]; [auto|].
      right. exists (S i), h0, v0. auto. }
    destruct (decide (trim header = [])) as [Hh|Hh];
      [rewrite createNestedObject_loop_skip in Hloop by auto; auto|].
    destruct (decide (trim v = [])) as [Hv|Hv];
      [rewrite createNestedObject_loop_skip in Hloop by auto; auto|].
    rewrite createNestedObject_loop_set in Hloop by assumption.
    destruct (setNestedProperty result (trim header) (trim v)) as [res| |] eqn:Hset;
      simpl in Hloop; try discriminate.
    destruct (Hshift _ Hloop) as [Hres|?]; [|auto].
    destruct (split_snoc DOT (trim header)) as (keys & finalKey & Hsplit).
    rewrite (setNestedProperty_walk _ _ _ _ _ Hsplit) in Hset.
    destruct (walk_leaves _ _ _ _ _ _ _ Hset (parseValue_primitive _) Hx Hres)
      as [[-> ->]|?]; [|auto].
    right. exists 0%nat, header, v. rewrite Hsplit. auto 8.
Qed.

(** X18. Nothing is in a record but what the row put there: every number,
    boolean or string read in the record of a row is the typed value of a
    cell of the row that is not empty, read at the path of the column of
    that cell. In particular no number in a record is NaN. *)
Theorem createNestedObject_leaves headers values r path x :
  createNestedObject headers values = Return r ->
  isPrimitive x = true ->
  getPath (VObj r) path = Some x ->
  (exists i header v,
     headers !! i = Some header /\ values !! i = Some v
     /\ trim header <> [] /\ trim v <> []
     /\ path = split DOT (trim header) /\ x = parseValue (trim v))
  /\ (forall n, x = VNum n -> isNaNnum n = false).
Proof.
  intros Hr Hx Hget.
  destruct (createNestedObject_loop_leaves _ _ _ _ _ _ Hr Hx Hget) as [He|H].
  - exfalso. destruct path as [|k ks]; simpl in He.
    + injection He as <-. discriminate.
    + rewrite lookup_empty in He. discriminate.
  - split; [exact H|]. destruct H as (i & header & v & _ & _ & _ & _ & _ & ->).
    intros n Hn. unfold parseValue in Hn. eapply typed_not_NaN, Hn.
Qed.

Lemma createNestedObject_leaves_witness :
  createNestedObject (parseCSVLine (str "name.firstName,name.lastName,age"))
    (parseCSVLine (str "Rohit,Prasad,35")) = Return MoreSamples.rohit
  /\ exists i header v,
       parseCSVLine (str "name.firstName,name.lastName,age") !! i = Some header
       /\ parseCSVLine (str "Rohit,Prasad,35") !! i = Some v
       /\ trim header <> [] /\ trim v <> []
       /\ [str "name"; str "lastName"] = split DOT (trim header)
       /\ VStr (str "Prasad") = parseValue (trim v).
Proof.
  assert (Hr : createNestedObject
                 (parseCSVLine (str "name.firstName,name.lastName,age"))
                 (parseCSVLine (str "Rohit,Prasad,35")) = Return MoreSamples.rohit)
    by (vm_compute; reflexivity).
  split; [exact Hr|].
  refine (proj1 (createNestedObject_leaves _ _ _ [str "name"; str "lastName"]
                   (VStr (str "Prasad")) Hr eq_refl _)).
  vm_compute. reflexivity.
Defined.

Lemma createNestedObject_loop_length headers : forall result values r,
  createNestedObject_loop result headers values = Return r ->
  (length headers <= length values)%nat.
Proof.
  induction headers as [|header headers IH]; intros result values r; simpl; [lia|].
  destruct values as [|v values]; [discriminate|]. simpl.
  destruct (trim header); [intros H; apply IH in H; lia|].
  destruct (trim v); [intros H; apply IH in H; lia|].
  destruct (setNestedProperty result _ _); simpl; try discriminate.
  intros H; apply IH in H; lia.
Qed.

Lemma createNestedObject_loop_take headers : forall result values,
  createNestedObject_loop result headers (take (length headers) values)
  = createNestedObject_loop result headers values.
Proof.
  induction headers as [|header headers IH]; intros result values; [reflexivity|].
  destruct values as [|v values]; [reflexivity|]. simpl.
  destruct (trim header); [apply IH|]. destruct (trim v); [apply IH|].
  destruct (setNestedProperty result _ _); simpl; auto.
Qed.

(** X19. [createNestedObject] reads one value for each header: it returns no
    record when the values are fewer than the headers (the missing value is
    undefined and trimming it throws), and values beyond the headers are not
    read. *)
Theorem createNestedObject_lengths :
  (forall headers values r,
     createNestedObject headers values = Return r ->
     (length headers <= length values)%nat)
  /\ (forall headers values,
        createNestedObject headers (take (length headers) values)
        = createNestedObject headers values).
Proof.
  split.
  - intros headers values r. apply createNestedObject_loop_length.
  - intros. apply createNestedObject_loop_take.
Qed.

(** ** Integers as numbers and as text *)

Lemma digits2_pos_bounds m :
  (2 ^ (Z.pos (digits2_pos m) - 1) <= Z.pos m < 2 ^ Z.pos (digits2_pos m))%Z.
Proof.
  induction m as [m IH|m IH|]; simpl digits2_pos.
  - rewrite Pos2Z.inj_succ, (Pos2Z.inj_xI m).
    replace (Z.succ (Z.pos (digits2_pos m)) - 1)%Z
      with (Z.succ (Z.pos (digits2_pos m) - 1)) by lia.
    rewrite !Z.pow_succ_r by lia.
    set (a := (2 ^ (Z.pos (digits2_pos m) - 1))%Z) in *.
    set (b := (2 ^ Z.pos (digits2_pos m))%Z) in *. clearbody a b. lia.
  - rewrite Pos2Z.inj_succ, (Pos2Z.inj_xO m).
    replace (Z.succ (Z.pos (digits2_pos m)) - 1)%Z
      with (Z.succ (Z.pos (digits2_pos m) - 1)) by lia.
    rewrite !Z.pow_succ_r by lia.
    set (a := (2 ^ (Z.pos (digits2_pos m) - 1))%Z) in *.
    set (b := (2 ^ Z.pos (digits2_pos m))%Z) in *. clearbody a b. lia.
  - simpl. lia.
Qed.

Lemma iter_xO_value m d : Z.pos (Pos.iter xO m d) = (Z.pos m * 2 ^ Z.pos d)%Z.
Proof.
  induction d as [|d IH] using Pos.peano_ind.
  - simpl. lia.
  - rewrite Pos.iter_succ, (Pos2Z.inj_xO (Pos.iter xO m d)), IH, Pos2Z.inj_succ,
      Z.pow_succ_r by lia.
    lia.
Qed.

Lemma iter_xO_digits m d :
  digits2_pos (Pos.iter xO m d) = (digits2_pos m + d)%positive.
Proof.
  induction d as [|d IH] using Pos.peano_ind.
  - simpl. lia.
  - rewrite Pos.iter_succ. simpl. rewrite IH. lia.
Qed.

Lemma binary_round_aux_exact s m e :
  Z.pos (digits2_pos m) = 53%Z -> (-1074 <= e <= 971)%Z ->
  binary_round_aux prec emax s (Z.pos m) e loc_Exact = S754_finite s m e.
Proof.
  intros Hd He.
  assert (Hshr : shr_fexp prec emax (Z.pos m) e loc_Exact
                 = ({| shr_m := Z.pos m; shr_r := false; shr_s := false |}, e)).
  { unfold shr_fexp, fexp, emin, prec, emax. simpl Zdigits2. rewrite Hd.
    replace (Z.max (53 + e - 53) (3 - 1024 - 53) - e)%Z with 0%Z by lia.
    reflexivity. }
  unfold binary_round_aux. rewrite Hshr. simpl. rewrite Hshr. simpl.
  replace (e <=? emax - prec)%Z with true; [reflexivity|].
  symmetry. apply Z.leb_le. unfold emax, prec. lia.
Qed.

(** The number of a positive integer below [2^53] is the integer itself,
    with a mantissa of 53 bits. *)
Lemma binary_round_integer s m :
  (Z.pos m < 2 ^ 53)%Z ->
  exists mz ez, binary_round prec emax s m 0 = S754_finite s mz ez
                /\ (-52 <= ez <= 0)%Z /\ Z.pos mz = (Z.pos m * 2 ^ (- ez))%Z.
Proof.
  intros Hm. pose proof (digits2_pos_bounds m) as [Hlo Hhi].
  assert (Hd : (Z.pos (digits2_pos m) <= 53)%Z).
  { destruct (Z_le_gt_dec (Z.pos (digits2_pos m)) 53) as [|Hgt]; [assumption|].
    exfalso. assert (2 ^ 53 <= 2 ^ (Z.pos (digits2_pos m) - 1))%Z
      by (apply Z.pow_le_mono_r; lia). lia. }
  unfold binary_round, shl_align, fexp, emin. rewrite Z.add_0_r.
  replace (Z.max (Z.pos (digits2_pos m) - prec) (3 - emax - prec))%Z
    with (Z.pos (digits2_pos m) - 53)%Z by (unfold prec, emax; lia).
  rewrite Z.sub_0_r.
  destruct (Z.pos (digits2_pos m) - 53)%Z as [|p|p] eqn:Hp; [|lia|].
  - exists m, 0%Z. split; [apply binary_round_aux_exact; lia|].
    split; [lia|]. simpl. lia.
  - exists (Pos.iter xO m p), (Z.neg p). split.
    + apply binary_round_aux_exact; [|lia].
      rewrite iter_xO_digits, Pos2Z.inj_add. lia.
    + split; [lia|]. rewrite iter_xO_value. reflexivity.
Qed.

Lemma integerValue_ofZ n :
  (0 < Z.abs n < 2 ^ 53)%Z ->
  exists m e, ofZ n = S754_finite (n <? 0)%Z m e
              /\ UserService.integerValue (ofZ n) = Some n.
Proof.
  intros Hn. unfold ofZ, binary_normalize.
  assert (Hv : forall (s : bool) mz ez p,
            (-52 <= ez <= 0)%Z -> Z.pos mz = (Z.pos p * 2 ^ (- ez))%Z ->
            UserService.integerValue (S754_finite s mz ez)
            = Some (cond_Zopp s (Z.pos p))).
  { intros s mz ez p He Hmz. unfold UserService.integerValue.
    destruct (0 <=? ez)%Z eqn:H0.
    - apply Z.leb_le in H0. assert (ez = 0%Z) as -> by lia.
      simpl in Hmz |- *. do 2 f_equal. lia.
    - rewrite Hmz, Z.mod_mul, Z.div_mul by (apply Z.pow_nonzero; lia).
      reflexivity. }
  destruct n as [|p|p]; [lia| |].
  - destruct (binary_round_integer false p) as (mz & ez & -> & He & Hmz); [lia|].
    exists mz, ez. split; [reflexivity|]. exact (Hv false mz ez p He Hmz).
  - destruct (binary_round_integer true p) as (mz & ez & -> & He & Hmz); [lia|].
    exists mz, ez. split; [reflexivity|]. exact (Hv true mz ez p He Hmz).
Qed.

Lemma valueOfDigits_snoc R ds c :
  valueOfDigits R (ds ++ [c])
  = (valueOfDigits R ds * Z.of_N R + Z.of_N (digitValue c))%Z.
Proof. unfold valueOfDigits. rewrite fold_left_app. reflexivity. Qed.

Lemma decimal_unit r :
  (0 <= r < 10)%Z ->
  isDigit (48 + Z.to_N r) = true
  /\ Z.of_N (digitValue (48 + Z.to_N r)) = r.
Proof.
  intros Hr.
  assert (Hd : isDigit (48 + Z.to_N r) = true).
  { unfold isDigit. apply andb_true_iff. split; apply N.leb_le; lia. }
  split; [exact Hd|]. unfold digitValue. rewrite Hd. lia.
Qed.

Lemma decimalDigits_spec fuel : forall n acc,
  (0 < n < 10 ^ Z.of_nat fuel)%Z ->
  exists ds, UserService.decimalDigits fuel n acc = ds ++ acc
             /\ ds <> [] /\ Digits ds /\ valueOfDigits 10 ds = n.
Proof.
  induction fuel as [|fuel IH]; intros n acc Hn; [simpl in Hn; lia|].
  simpl UserService.decimalDigits.
  assert (Hr : (0 <= n mod 10 < 10)%Z) by (apply Z.mod_pos_bound; lia).
  destruct (decimal_unit _ Hr) as [Hd Hv].
  destruct (n <? 10)%Z eqn:Hlt.
  - apply Z.ltb_lt in Hlt. exists [48 + Z.to_N (n mod 10)].
    split; [reflexivity|]. split; [discriminate|].
    split; [repeat constructor; exact Hd|].
    unfold valueOfDigits. simpl. rewrite Hv. apply Z.mod_small. lia.
  - apply Z.ltb_ge in Hlt.
    rewrite Nat2Z.inj_succ, Z.pow_succ_r in Hn by lia.
    destruct (IH (n / 10)%Z ((48 + Z.to_N (n mod 10)) :: acc))
      as (ds & -> & _ & Hds & Hval).
    { split; [apply Z.div_str_pos; lia|].
      apply Z.div_lt_upper_bound; lia. }
    exists (ds ++ [48 + Z.to_N (n mod 10)]). rewrite <- app_assoc.
    split; [reflexivity|]. split; [destruct ds; discriminate|].
    split.
    + apply Forall_app. split; [exact Hds|]. repeat constructor. exact Hd.
    + rewrite valueOfDigits_snoc, Hval, Hv.
      pose proof (Z.div_mod n 10). simpl Z.of_N. lia.
Qed.

Lemma decimal_spec n :
  (0 < n)%Z ->
  UserService.decimal n <> [] /\ Digits (UserService.decimal n)
  /\ valueOfDigits 10 (UserService.decimal n) = n.
Proof.
  intros Hn. unfold UserService.decimal.
  destruct (decimalDigits_spec (S (Z.to_nat (Z.log2 n))) n [])
    as (ds & -> & Hne & Hds & Hval).
  - split; [lia|]. rewrite Nat2Z.inj_succ, Z2Nat.id by apply Z.log2_nonneg.
    destruct (Z.log2_spec n Hn) as [_ Hhi].
    eapply Z.lt_le_trans; [exact Hhi|].
    apply Z.pow_le_mono_l. lia.
  - rewrite app_nil_r. auto.
Qed.

Section NumberText.

Variable finiteToString : number -> jstring.

Lemma numberToString_ofZ n :
  (0 < Z.abs n < 2 ^ 53)%Z ->
  UserService.numberToString finiteToString (ofZ n)
  = (if (n <? 0)%Z then [MINUS] else []) ++ UserService.decimal (Z.abs n).
Proof.
  intros Hn. destruct (integerValue_ofZ n Hn) as (m & e & Hfin & Hint).
  unfold UserService.numberToString. rewrite Hfin in Hint |- *. rewrite Hint.
  replace (Z.abs n <? 2 ^ 53)%Z with true; [reflexivity|].
  symmetry. apply Z.ltb_lt. lia.
Qed.

(** The text of an integer below [2^53] reads back, with [parseInt], as the
    integer. *)
Lemma parseInt_numberToString n :
  (Z.abs n < 2 ^ 53)%Z ->
  n <> 0%Z ->
  parseInt (UserService.numberToString finiteToString (ofZ n)) = ofZ n.
Proof.
  intros Hn Hne. rewrite numberToString_ofZ by lia.
  destruct (decimal_spec (Z.abs n)) as (Hnil & Hds & Hval); [lia|].
  rewrite parseInt_digits;
    [|destruct (n <? 0)%Z; [right; right|left]; reflexivity|exact Hnil|exact Hds].
  rewrite Hval. unfold signedInteger, ofZ.
  destruct n as [|p|p]; [congruence|reflexivity|reflexivity].
Qed.

End NumberText.

(** ** The user service *)

Section UserServiceProperties.

Import UserService.

Variable finiteToString : number -> jstring.

Lemma transformRecord_Return record u :
  transformRecord finiteToString record = Return u ->
  exists first last ageText,
    ToString finiteToString (orElse (optionalGet (record !! str "name") (str "firstName")) (VStr []))
    = Return first
    /\ ToString finiteToString (orElse (optionalGet (record !! str "name") (str "lastName")) (VStr []))
       = Return last
    /\ ToString finiteToString (orElse (record !! str "age") (VNum (S754_zero false)))
       = Return ageText
    /\ name u = trim (first ++ str " " ++ last)
    /\ age u = parseInt ageText
    /\ address u = match record !! str "address" with
                   | Some v => if truthy v then Some v else None
                   | None => None
                   end
    /\ additional_info u
       = if decide (filter (fun kv : jstring * jsval => kv.1 ∉ reserved) record = ∅)
         then None
         else Some (filter (fun kv : jstring * jsval => kv.1 ∉ reserved) record).
Proof.
  unfold UserService.transformRecord.
  destruct (ToString finiteToString (orElse (optionalGet _ (str "firstName")) _)) as [first| |];
    try discriminate.
  destruct (ToString finiteToString (orElse (optionalGet _ (str "lastName")) _)) as [last| |];
    try discriminate.
  destruct (ToString finiteToString (orElse (record !! str "age") _)) as [ageText| |];
    try discriminate.
  simpl. intros [= <-]. exists first, last, ageText. simpl. auto 10.
Qed.

(** X20. In the user built from a record, [additional_info] holds the keys of
    the record other than [name], [age] and [address], each with the value
    it has in the record, and nothing else; it is null exactly when the
    record has no such key. *)
Theorem transformRecord_additional_info record u :
  transformRecord finiteToString record = Return u ->
  (forall key,
     default ∅ (additional_info u) !! key
     = if decide (key ∈ reserved) then None else record !! key)
  /\ (additional_info u = None
      <-> forall key, is_Some (record !! key) -> key ∈ reserved)
  /\ additional_info u <> Some ∅.
Proof.
  intros Hu. destruct (transformRecord_Return _ _ Hu)
    as (_ & _ & _ & _ & _ & _ & _ & _ & _ & Hinfo).
  set (m := filter (fun kv : jstring * jsval => kv.1 ∉ reserved) record) in Hinfo.
  assert (Hm : forall key, m !! key
                 = if decide (key ∈ reserved) then None else record !! key).
  { intros key. subst m. destruct (decide (key ∈ reserved)) as [Hk|Hk].
    - apply map_lookup_filter_None. right. intros x _ Hnot. apply Hnot, Hk.
    - destruct (record !! key) as [x|] eqn:Hx.
      + apply map_lookup_filter_Some. auto.
      + apply map_lookup_filter_None. auto. }
  assert (Hempty : m = ∅ <-> forall key, is_Some (record !! key) -> key ∈ reserved).
  { split.
    - intros Hnil key [x Hx]. destruct (decide (key ∈ reserved)) as [|Hk]; [assumption|].
      pose proof (Hm key) as Hkey. rewrite decide_False, Hnil, lookup_empty, Hx in Hkey
        by exact Hk. discriminate.
    - intros Hall. apply map_eq. intros key. rewrite Hm, lookup_empty.
      destruct (decide (key ∈ reserved)) as [|Hk]; [reflexivity|].
      destruct (record !! key) as [x|] eqn:Hx; [|reflexivity].
      exfalso. apply Hk, Hall. rewrite Hx. eauto. }
  rewrite Hinfo. destruct (decide (m = ∅)) as [Hnil|Hne]; simpl.
  - split; [|split; [|discriminate]].
    + intros key. rewrite <- Hm, Hnil. reflexivity.
    + split; [intros _; apply Hempty, Hnil|reflexivity].
  - split; [exact Hm|]. split; [|congruence].
    split; [discriminate|]. intros Hall. exfalso. apply Hne, Hempty, Hall.
Qed.

(** X21. The name of the user is the first name, a space and the last name,
    trimmed, when both are strings of the record; a last name that is
    missing leaves the trimmed first name, a first name that is falsy
    ([false], zero, the empty string) leaves the trimmed last name, and a
    record without [name] gives the empty name. *)
Theorem transformRecord_name record u :
  transformRecord finiteToString record = Return u ->
  (forall o first last,
     record !! str "name" = Some (VObj o) ->
     o !! str "firstName" = Some (VStr first) ->
     o !! str "lastName" = Some (VStr last) ->
     name u = trim (first ++ str " " ++ last))
  /\ (forall o first,
        record !! str "name" = Some (VObj o) ->
        o !! str "firstName" = Some (VStr first) ->
        o !! str "lastName" = None ->
        name u = trim first)
  /\ (forall o v last,
        record !! str "name" = Some (VObj o) ->
        o !! str "firstName" = Some v -> truthy v = false ->
        o !! str "lastName" = Some (VStr last) ->
        name u = trim last)
  /\ (record !! str "name" = None -> name u = []).
Proof.
  intros Hu. destruct (transformRecord_Return _ _ Hu)
    as (f & l & _ & Hf & Hl & _ & Hname & _).
  assert (Hstr : forall s, ToString finiteToString (orElse (Some (VStr s)) (VStr [])) = Return s).
  { intros s. simpl. destruct s; reflexivity. }
  split; [|split; [|split]].
  - intros o first last Hn H1 H2. rewrite Hn in Hf, Hl. simpl in Hf, Hl.
    rewrite H1, Hstr in Hf. rewrite H2, Hstr in Hl. congruence.
  - intros o first Hn H1 H2. rewrite Hn in Hf, Hl. simpl in Hf, Hl.
    rewrite H1, Hstr in Hf. rewrite H2 in Hl. simpl in Hl.
    injection Hf as <-. injection Hl as <-. rewrite Hname.
    rewrite app_assoc, app_nil_r. apply trim_app_ws_r. repeat constructor.
  - intros o v last Hn H1 Hv H2. rewrite Hn in Hf, Hl. simpl in Hf, Hl.
    rewrite H1 in Hf. simpl in Hf. rewrite Hv in Hf. rewrite H2, Hstr in Hl.
    injection Hf as <-. injection Hl as <-. rewrite Hname.
    apply (trim_app_ws_l (str " ")). repeat constructor.
  - intros Hn. rewrite Hn in Hf, Hl. simpl in Hf, Hl.
    injection Hf as <-. injection Hl as <-. rewrite Hname. reflexivity.
Qed.

(** X22. The age of the user: zero when the record has no age or a falsy
    one, the integer parse of the text when the age is a string that is not
    empty, and NaN when the age is [true]. *)
Theorem transformRecord_age record u :
  transformRecord finiteToString record = Return u ->
  (record !! str "age" = None -> age u = S754_zero false)
  /\ (forall v, record !! str "age" = Some v -> truthy v = false ->
        age u = S754_zero false)
  /\ (forall s, record !! str "age" = Some (VStr s) -> s <> [] ->
        age u = parseInt s)
  /\ (record !! str "age" = Some (VBool true) -> age u = S754_nan).
Proof.
  intros Hu. destruct (transformRecord_Return _ _ Hu)
    as (_ & _ & a & _ & _ & Ha & _ & Hage & _).
  repeat split.
  - intros Hn. rewrite Hn in Ha. injection Ha as <-. rewrite Hage. reflexivity.
  - intros v Hv Hf. rewrite Hv in Ha. simpl in Ha. rewrite Hf in Ha.
    injection Ha as <-. rewrite Hage. reflexivity.
  - intros s Hs Hne. rewrite Hs in Ha. simpl in Ha.
    destruct s; [congruence|]. injection Ha as <-. exact Hage.
  - intros Hb. rewrite Hb in Ha. injection Ha as <-. rewrite Hage. reflexivity.
Qed.

(** X23. An age written in the cell as decimal digits, with or without a
    sign and below [2^53], reaches the user as that integer: the cell is
    typed as a number, the number is written out for [parseInt] and read
    back. A negative zero becomes the positive zero. *)
Theorem transformRecord_age_digits record u sgn ds :
  Sign sgn -> ds <> [] -> Digits ds -> (valueOfDigits 10 ds < 2 ^ 53)%Z ->
  record !! str "age" = Some (parseValue (sgn ++ ds)) ->
  transformRecord finiteToString record = Return u ->
  age u = ofZ (cond_Zopp (bool_decide (sgn = [MINUS])) (valueOfDigits 10 ds)).
Proof.
  intros Hsgn Hne Hds Hlt Hage Hu.
  destruct (typed_digits _ _ Hsgn Hne Hds) as [Hq Ht].
  unfold parseValue in Hage. rewrite Hq, Ht in Hage.
  destruct (transformRecord_Return _ _ Hu)
    as (_ & _ & a & _ & _ & Ha & _ & -> & _).
  rewrite Hage in Ha. pose proof (valueOfDigits_nonneg 10 ds) as Hpos.
  set (neg := bool_decide (sgn = [MINUS])) in *.
  set (v := valueOfDigits 10 ds) in *. clearbody neg v.
  destruct (Z.eq_dec v 0%Z) as [->|Hnz].
  - destruct neg; simpl in Ha; injection Ha as <-; reflexivity.
  - assert (Hn : signedInteger neg v = ofZ (cond_Zopp neg v)).
    { unfold signedInteger, ofZ. destruct (cond_Zopp neg v) eqn:Hc;
        [destruct neg; simpl in Hc; lia|reflexivity..]. }
    assert (Habs : (0 < Z.abs (cond_Zopp neg v) < 2 ^ 53)%Z)
      by (destruct neg; simpl; lia).
    rewrite Hn in Ha.
    destruct (integerValue_ofZ _ Habs) as (m & e & Hfin & _).
    assert (Htext : a = numberToString finiteToString (ofZ (cond_Zopp neg v))).
    { rewrite Hfin in Ha |- *.
      change (Return (numberToString finiteToString
                        (S754_finite (cond_Zopp neg v <? 0)%Z m e)) = Return a)
        in Ha.
      congruence. }
    rewrite Htext. apply parseInt_numberToString; [lia|].
    destruct neg; simpl; lia.
Qed.

Lemma ToString_cases v :
  (ToString finiteToString v = Throw TypeError
   /\ exists o, v = VObj o /\ is_Some (o !! str "toString"))
  \/ ((exists s, ToString finiteToString v = Return s)
      /\ ~ exists o, v = VObj o /\ is_Some (o !! str "toString")).
Proof.
  destruct v as [x|[|]|s|o];
    [right; split; [simpl; eauto|intros (o' & [=] & _)]..|].
  simpl. destruct (o !! str "toString") as [y|] eqn:Hy.
  - left. split; [reflexivity|]. exists o. rewrite Hy. eauto.
  - right. split; [eauto|]. intros (o' & [= <-] & [z Hz]). congruence.
Qed.

Lemma transformRecord_completion record :
  (exists u, transformRecord finiteToString record = Return u)
  \/ transformRecord finiteToString record = Throw TypeError.
Proof.
  unfold UserService.transformRecord.
  destruct (ToString_cases
              (orElse (optionalGet (record !! str "name") (str "firstName")) (VStr [])))
    as [[-> _]|[[f ->] _]]; [right; reflexivity|].
  destruct (ToString_cases
              (orElse (optionalGet (record !! str "name") (str "lastName")) (VStr [])))
    as [[-> _]|[[l ->] _]]; [right; reflexivity|].
  destruct (ToString_cases (orElse (record !! str "age") (VNum (S754_zero false))))
    as [[-> _]|[[a ->] _]]; [right; reflexivity|].
  left. simpl. eauto.
Qed.

(** X24. Building a user fails, with a TypeError, exactly when the first
    name, the last name or the age of the record is a nested record with a
    key [toString] of its own. *)
Theorem transformRecord_throws record :
  let hides v := exists o, v = VObj o /\ is_Some (o !! str "toString") in
  (forall e, transformRecord finiteToString record = Throw e -> e = TypeError)
  /\ transformRecord finiteToString record <> Escaped
  /\ (transformRecord finiteToString record = Throw TypeError
      <-> hides (orElse (optionalGet (record !! str "name") (str "firstName")) (VStr []))
          \/ hides (orElse (optionalGet (record !! str "name") (str "lastName")) (VStr []))
          \/ hides (orElse (record !! str "age") (VNum (S754_zero false)))).
Proof.
  intros hides. subst hides. cbv beta. unfold UserService.transformRecord.
  destruct (ToString_cases
              (orElse (optionalGet (record !! str "name") (str "firstName")) (VStr [])))
    as [[-> H1]|[[f ->] H1]];
    [simpl; split; [intros e [= <-]; reflexivity|split; [discriminate|tauto]]|].
  destruct (ToString_cases
              (orElse (optionalGet (record !! str "name") (str "lastName")) (VStr [])))
    as [[-> H2]|[[l ->] H2]];
    [simpl; split; [intros e [= <-]; reflexivity|split; [discriminate|tauto]]|].
  destruct (ToString_cases (orElse (record !! str "age") (VNum (S754_zero false))))
    as [[-> H3]|[[a ->] H3]];
    [simpl; split; [intros e [= <-]; reflexivity|split; [discriminate|tauto]]|].
  simpl. split; [discriminate|]. split; [discriminate|].
  split; [discriminate|tauto].
Qed.

(** X25. [transformUserData] maps the records one by one, in order: it
    returns the users exactly when every record gives its user, and it
    throws, a TypeError, exactly when some record does. *)
Theorem transformUserData_pointwise jsonData :
  (forall users,
     transformUserData finiteToString jsonData = Return users
     <-> Forall2 (fun record u => transformRecord finiteToString record = Return u)
           jsonData users)
  /\ (forall e,
        transformUserData finiteToString jsonData = Throw e
        <-> e = TypeError
            /\ exists record, record ∈ jsonData
                 /\ transformRecord finiteToString record = Throw TypeError)
  /\ transformUserData finiteToString jsonData <> Escaped.
Proof.
  induction jsonData as [|record jsonData (IHr & IHt & IHe)].
  - split; [|split; [|discriminate]].
    + intros users. simpl. split.
      * intros [= <-]. constructor.
      * intros H. inversion H. reflexivity.
    + intros e. simpl. split; [discriminate|].
      intros (_ & r & Hin & _). inversion Hin.
  - simpl transformUserData.
    destruct (transformRecord_completion record) as [[u Hu]|Ht].
    + rewrite Hu. simpl.
      destruct (transformUserData finiteToString jsonData) as [us|e1|] eqn:Hdata;
        [| |congruence]; simpl.
      * split; [|split; [|discriminate]].
        -- intros users. split.
           ++ intros [= <-]. constructor; [exact Hu|]. apply IHr. reflexivity.
           ++ intros H. inversion H as [|r u' rs us' Hr Hrs]; subst.
              apply IHr in Hrs. congruence.
        -- intros e. split; [discriminate|].
           intros (-> & r & Hin & Hr). apply elem_of_cons in Hin as [->|Hin].
           ++ congruence.
           ++ assert (Hthrow : Return us = Throw TypeError :> completion (list user))
                by (apply IHt; eauto).
              discriminate.
      * split; [|split; [|discriminate]].
        -- intros users. split; [discriminate|].
           intros H. inversion H as [|r u' rs us' Hr Hrs]; subst.
           apply IHr in Hrs. discriminate.
        -- intros e. destruct (proj1 (IHt e1) eq_refl) as (-> & r & Hin & Hr).
           split.
           ++ intros [= <-]. split; [reflexivity|]. exists r.
              split; [right; exact Hin|exact Hr].
           ++ intros (-> & _). reflexivity.
    + rewrite Ht. simpl. split; [|split; [|discriminate]].
      * intros users. split; [discriminate|].
        intros H. inversion H as [|r u' rs us' Hr Hrs]; subst. congruence.
      * intros e. split.
        -- intros [= <-]. split; [reflexivity|]. exists record.
           split; [left|exact Ht].
        -- intros (-> & _). reflexivity.
Qed.

End UserServiceProperties.

Lemma transformRecord_additional_info_witness :
  let r : record := <[ str "city" := VStr (str "Pune") ]> MoreSamples.rohit in
  let u := {| UserService.name := str "Rohit Prasad";
              UserService.age := ofZ 35;
              UserService.address := None;
              UserService.additional_info :=
                Some {[ str "city" := VStr (str "Pune") ]} |} in
  UserService.transformRecord MoreSamples.anyText r = Return u
  /\ (UserService.additional_info u = None
      <-> forall key, is_Some (r !! key) -> key ∈ UserService.reserved).
Proof.
  intros r u.
  assert (H : UserService.transformRecord MoreSamples.anyText r = Return u)
    by (vm_compute; reflexivity).
  split; [exact H|].
  exact (proj1 (proj2 (transformRecord_additional_info _ r u H))).
Defined.

Lemma transformRecord_name_witness :
  let u := {| UserService.name := str "Rohit Prasad";
              UserService.age := ofZ 35;
              UserService.address := None;
              UserService.additional_info := None |} in
  UserService.transformRecord MoreSamples.anyText MoreSamples.rohit = Return u
  /\ UserService.name u = trim (str "Rohit" ++ str " " ++ str "Prasad").
Proof.
  intros u.
  assert (H : UserService.transformRecord MoreSamples.anyText MoreSamples.rohit
              = Return u) by (vm_compute; reflexivity).
  split; [exact H|].
  apply (proj1 (transformRecord_name _ _ u H)
           {[ str "firstName" := VStr (str "Rohit");
              str "lastName" := VStr (str "Prasad") ]});
    vm_compute; reflexivity.
Defined.

Lemma transformRecord_age_witness :
  let r : record := {[ str "age" := VStr (str "35 years") ]} in
  let u := {| UserService.name := [];
              UserService.age := ofZ 35;
              UserService.address := None;
              UserService.additional_info := None |} in
  UserService.transformRecord MoreSamples.anyText r = Return u
  /\ (forall s, r !! str "age" = Some (VStr s) -> s <> [] ->
        UserService.age u = parseInt s).
Proof.
  intros r u.
  assert (H : UserService.transformRecord MoreSamples.anyText r = Return u)
    by (vm_compute; reflexivity).
  split; [exact H|].
  exact (proj1 (proj2 (proj2 (transformRecord_age _ r u H)))).
Defined.

Lemma transformRecord_age_digits_witness :
  let r : record := {[ str "age" := parseValue (str "-042") ]} in
  let u := {| UserService.name := [];
              UserService.age := ofZ (-42);
              UserService.address := None;
              UserService.additional_info := None |} in
  Sign [MINUS] /\ str "042" <> [] /\ Digits (str "042")
  /\ (valueOfDigits 10 (str "042") < 2 ^ 53)%Z
  /\ r !! str "age" = Some (parseValue ([MINUS] ++ str "042"))
  /\ UserService.transformRecord MoreSamples.anyText r = Return u
  /\ UserService.age u
     = ofZ (cond_Zopp (bool_decide ([MINUS] = [MINUS]))
              (valueOfDigits 10 (str "042"))).
Proof.
  intros r u.
  assert (H1 : Sign [MINUS]) by (right; right; reflexivity).
  assert (H2 : str "042" <> []) by discriminate.
  assert (H3 : Digits (str "042")) by (repeat constructor).
  assert (H4 : (valueOfDigits 10 (str "042") < 2 ^ 53)%Z) by (vm_compute; reflexivity).
  assert (H5 : r !! str "age" = Some (parseValue ([MINUS] ++ str "042")))
    by (vm_compute; reflexivity).
  assert (H6 : UserService.transformRecord MoreSamples.anyText r = Return u)
    by (vm_compute; reflexivity).
  split; [exact H1|]. split; [exact H2|]. split; [exact H3|].
  split; [exact H4|]. split; [exact H5|]. split; [exact H6|].
  exact (transformRecord_age_digits _ r u _ _ H1 H2 H3 H4 H5 H6).
Defined.

Section BulkInsertProperties.

Import UserService.

Variable database : Type.
Variable insertUser : database -> user -> database * option jstring.

Lemma bulkInsertUsers_loop_counts userData : forall db s e errs db' s' e' errs',
  bulkInsertUsers_loop database insertUser db userData s e errs = (db', (s', e', errs')) ->
  (s' + e' = s + e + length userData)%nat
  /\ exists failed, errs' = errs ++ failed
                    /\ (e' = e + length failed)%nat
                    /\ Forall (fun d => exists u, u ∈ userData /\ d.1 = name u) failed.
Proof.
  induction userData as [|u userData IH]; intros db s e errs db' s' e' errs'; simpl.
  - intros [= <- <- <- <-]. split; [lia|]. exists []. rewrite app_nil_r.
    split; [reflexivity|]. split; [simpl; lia|constructor].
  - destruct (insertUser db u) as [db1 [message|]]; intros H;
      apply IH in H as (H1 & failed & -> & H2 & Hf).
    + split; [lia|]. exists ((name u, message) :: failed).
      rewrite <- app_assoc. split; [reflexivity|]. split; [simpl; lia|].
      apply Forall_cons. split.
      * exists u. split; [left|reflexivity].
      * eapply Forall_impl; [exact Hf|]. intros d (u' & Hin & Hd).
        exists u'. split; [right; exact Hin|exact Hd].
    + split; [lia|]. exists failed. split; [reflexivity|]. split; [exact H2|].
      eapply Forall_impl; [exact Hf|]. intros d (u' & Hin & Hd).
      exists u'. split; [right; exact Hin|exact Hd].
Qed.

(** X26. Whatever the database answers, the summary of [bulkInsertUsers]
    accounts for every user: the total is the number of users and is the sum
    of the successes and the errors, and there is one error detail, naming a
    user of the list, for each error. A failed insertion does not stop the
    loop. *)
Theorem bulkInsertUsers_summary db userData :
  let r := snd (bulkInsertUsers database insertUser db userData) in
  total r = length userData
  /\ (success r + errors r = total r)%nat
  /\ length (errorDetails r) = errors r
  /\ Forall (fun d => exists u, u ∈ userData /\ d.1 = name u) (errorDetails r).
Proof.
  unfold bulkInsertUsers.
  destruct (bulkInsertUsers_loop database insertUser db userData 0 0 [])
    as [db' [[s e] errs]] eqn:Hloop.
  apply bulkInsertUsers_loop_counts in Hloop as (H1 & failed & -> & H2 & Hf).
  simpl in *. split; [reflexivity|]. split; [lia|]. split; [lia|exact Hf].
Qed.

End BulkInsertProperties.

Section AgeGroupProperties.

Import UserService.

Lemma numGe_negb_numLt a m e :
  isNaNnum a = false ->
  numGe a (S754_finite false m e) = negb (numLt a (S754_finite false m e)).
Proof.
  unfold numGe, numLt, SFleb, SFltb.
  destruct a as [s|s| |s m' e']; simpl; try discriminate; intros _;
    try (destruct s; reflexivity).
  destruct s; [reflexivity|].
  rewrite (Z.compare_antisym e' e).
  destruct (e' ?= e)%Z; simpl; try reflexivity.
  change (Pos.compare_cont Eq m m') with (m ?= m')%positive.
  change (Pos.compare_cont Eq m' m) with (m' ?= m)%positive.
  rewrite (Pos.compare_antisym m' m).
  destruct (m' ?= m)%positive; reflexivity.
Qed.

Lemma numLt_not_nan a c : numLt a c = true -> isNaNnum a = false.
Proof. destruct a; try reflexivity. discriminate. Qed.

(** Below an age limit is below any later limit. *)
Lemma numLt_limit a m e e2 m2 :
  (e < e2)%Z \/ (e = e2 /\ (m <= m2)%positive) ->
  numLt a (S754_finite false m e) = true ->
  numLt a (S754_finite false m2 e2) = true.
Proof.
  unfold numLt, SFltb. intros Hle.
  destruct a as [s|s| |s m' e']; simpl; try discriminate; try (destruct s; auto).
  destruct (e' ?= e)%Z eqn:He; try discriminate.
  - apply Z.compare_eq in He. subst e'.
    destruct (Pos.compare_cont Eq m' m) eqn:Hm; try discriminate. intros _.
    destruct Hle as [Hlt|[<- Hmm]].
    + change ((e ?= e2)%Z = Lt) in Hlt. rewrite Hlt. reflexivity.
    + rewrite Z.compare_refl.
      change (Pos.compare_cont Eq m' m) with (m' ?= m)%positive in Hm.
      change (Pos.compare_cont Eq m' m2) with (m' ?= m2)%positive.
      change (m' < m)%positive in Hm.
      replace (m' ?= m2)%positive with Lt; [reflexivity|].
      symmetry. apply Pos.compare_lt_iff. lia.
  - intros _. change (e' < e)%Z in He.
    replace (e' ?= e2)%Z with Lt; [reflexivity|].
    symmetry. apply Z.compare_lt_iff. lia.
Qed.

Lemma countAge_bump groups age :
  countAge groups age
  = {| under20 := bump (numLt age (ofZ 20)) (under20 groups);
       from20to40 := bump (numGe age (ofZ 20) && numLt age (ofZ 40))
                       (from20to40 groups);
       from40to60 := bump (numGe age (ofZ 40) && numLt age (ofZ 60))
                       (from40to60 groups);
       over60 := bump (negb (numLt age (ofZ 60))) (over60 groups) |}.
Proof.
  unfold countAge.
  change (ofZ 20) with (S754_finite false 5629499534213120 (-48)).
  change (ofZ 40) with (S754_finite false 5629499534213120 (-47)).
  change (ofZ 60) with (S754_finite false 8444249301319680 (-47)).
  pose proof (numLt_limit age 5629499534213120 (-48) (-47) 5629499534213120
                (or_introl eq_refl)) as H24.
  assert (H46 : numLt age (S754_finite false 5629499534213120 (-47)) = true ->
                numLt age (S754_finite false 8444249301319680 (-47)) = true)
    by (apply numLt_limit; right; split; [reflexivity|lia]).
  destruct (isNaNnum age) eqn:Hnan.
  - destruct age; try discriminate. reflexivity.
  - rewrite (numGe_negb_numLt age 5629499534213120 (-48) Hnan).
    rewrite (numGe_negb_numLt age 5629499534213120 (-47) Hnan).
    destruct (numLt age (S754_finite false 5629499534213120 (-48))) eqn:H20.
    + rewrite (H24 eq_refl), (H46 (H24 eq_refl)). reflexivity.
    + destruct (numLt age (S754_finite false 5629499534213120 (-47))) eqn:H40.
      * rewrite (H46 eq_refl). reflexivity.
      * destruct (numLt age (S754_finite false 8444249301319680 (-47)));
          reflexivity.
Qed.

Lemma countAge_sum groups age :
  let g := countAge groups age in
  (under20 g + from20to40 g + from40to60 g + over60 g
   = S (under20 groups + from20to40 groups + from40to60 groups + over60 groups))%nat.
Proof.
  intros g. subst g. unfold countAge.
  destruct (numLt age (ofZ 20)); [cbn; lia|].
  destruct (numGe age (ofZ 20) && numLt age (ofZ 40)); [cbn; lia|].
  destruct (numGe age (ofZ 40) && numLt age (ofZ 60)); cbn; lia.
Qed.

Lemma fold_countAge_sum ages : forall g0,
  let g := fold_left countAge ages g0 in
  (under20 g + from20to40 g + from40to60 g + over60 g
   = under20 g0 + from20to40 g0 + from40to60 g0 + over60 g0 + length ages)%nat.
Proof.
  induction ages as [|a ages IH]; intros g0; simpl; [lia|].
  rewrite IH. pose proof (countAge_sum g0 a) as Hs. simpl in Hs. lia.
Qed.

Lemma length_filter_cons (p : number -> bool) a l :
  length (List.filter p (a :: l)) = bump (p a) (length (List.filter p l)).
Proof. simpl. destruct (p a); reflexivity. Qed.

Lemma bump_add b n k : (bump b n + k = n + bump b k)%nat.
Proof. destruct b; simpl; lia. Qed.

Lemma fold_countAge_counts ages : forall g0,
  under20 (fold_left countAge ages g0)
  = (under20 g0 + length (List.filter (fun a => numLt a (ofZ 20)) ages))%nat
  /\ from20to40 (fold_left countAge ages g0)
     = (from20to40 g0
        + length (List.filter
                    (fun a => numGe a (ofZ 20) && numLt a (ofZ 40)) ages))%nat
  /\ from40to60 (fold_left countAge ages g0)
     = (from40to60 g0
        + length (List.filter
                    (fun a => numGe a (ofZ 40) && numLt a (ofZ 60)) ages))%nat
  /\ over60 (fold_left countAge ages g0)
     = (over60 g0
        + length (List.filter (fun a => negb (numLt a (ofZ 60))) ages))%nat.
Proof.
  induction ages as [|a ages IH]; intros g0.
  - cbn [fold_left List.filter length]. repeat split; lia.
  - change (fold_left countAge (a :: ages) g0)
      with (fold_left countAge ages (countAge g0 a)).
    destruct (IH (countAge g0 a)) as (H1 & H2 & H3 & H4).
    rewrite H1, H2, H3, H4, !length_filter_cons, countAge_bump.
    cbn [under20 from20to40 from40to60 over60].
    repeat split; apply bump_add.
Qed.

(** X27. The age groups count every user once. The first group counts the
    ages below 20, the second those from 20 to below 40, the third those
    from 40 to below 60, and the last every other age: 60 itself, anything
    above, and an age that is NaN. The four counters add up to the number
    of users. *)
Theorem countAgeGroups_counts ages :
  let g := countAgeGroups ages in
  let count p := length (List.filter p ages) in
  under20 g = count (fun a => numLt a (ofZ 20))
  /\ from20to40 g = count (fun a => numGe a (ofZ 20) && numLt a (ofZ 40))
  /\ from40to60 g = count (fun a => numGe a (ofZ 40) && numLt a (ofZ 60))
  /\ over60 g = count (fun a => negb (numLt a (ofZ 60)))
  /\ (under20 g + from20to40 g + from40to60 g + over60 g = length ages)%nat.
Proof.
  intros g count. subst g count. unfold countAgeGroups.
  destruct (fold_countAge_counts ages
              {| under20 := 0; from20to40 := 0; from40to60 := 0; over60 := 0 |})
    as (H1 & H2 & H3 & H4).
  split; [exact H1|]. split; [exact H2|]. split; [exact H3|]. split; [exact H4|].
  apply (fold_countAge_sum ages
           {| under20 := 0; from20to40 := 0; from40to60 := 0; over60 := 0 |}).
Qed.

End AgeGroupProperties.
